(* ===== verification/_CoqProject ===== *)
-Q . S2P
Prelude.v
Async.v
Json.v
JsonText.v
JsonParse.v
Fetcher.v
EventLoop.v
Unicode.v
UrlEncoding.v
SubscriptionAPI.v
Mypage.v
Register.v
