(* ===== verification/Prelude.v ===== *)
(** * A verification development of guttokJandi's front end

    guttokJandi is a Next.js front end for a subscription manager.  Its
    only component with real control flow is the HTTP client of
    [src/src/apis/fetcher.ts] (class [Fetcher]): every call arms an
    abort timer, issues [fetch], clears the timer, rejects non-2xx
    statuses, and on any failure sleeps and re-invokes itself with the
    retry budget decremented.  [src/src/apis/subscriptionAPI.ts] holds two
    server actions that call the platform [fetch] directly
    ([searchService], [getItems]).  The two pages
    ([src/src/app/(protected)/mypage/ClientMypage.tsx] and
    [src/src/app/register/page.tsx]) are React components whose logic is
    a handful of state updates, effects and render guards.  The
    components do not call each other: the pages reach the server
    through hooks and actions defined outside [src/].

    ** Files, in dependency order

    - [Prelude] (this file): the [gj_scope] notation [o ?? d] (JS
      nullish defaulting on [option]), the [gj] hint databases, the
      tactics, shared lemmas on strings, options and retry budgets
      ([Z.to_nat]), and [z_to_dec] (JS [String(n)] on integers).
    - [Async]: the JavaScript runtime the code relies on, modelled from
      the platform's documented behaviour: thrown values ([Thrown]); a
      [World] with a millisecond clock, a timer table, a counter of
      [fetch] calls and an event log; the promise monad [M] (state and
      rejection, [Pending] for a promise that never settles) with
      [try_catch] and [join] (an [async] function adopting a returned
      promise); [setTimeout] (delay through WebIDL [ToInt32], clamped at
      0), [clearTimeout], [AbortController], [sleep], [console_log], and
      [fetch] racing a network oracle against the abort timer of its
      signal; the body stream of a response ([BodyRead]: read after a
      latency, failed, or stalled for ever); JS object spread on string-keyed records and the [Headers]
      normalisation (lower-cased names, repeated names joined by ", ").
    - [Json]: JSON values, the [JsonCodec] class ([JSON.stringify] and
      the decoder of [response.json()]) every theorem is parametric in,
      [decode_body], and [response.json()] itself ([read_json]: read the
      body, then decode it); [json_ind'], induction with a hypothesis on
      every member of an array or object.
    - [JsonText] ([Module JsonText]): [JSON.stringify] ([stringify_json],
      QuoteJSONString escapes) and [JSON.parse] ([json_parse]: white
      space, escapes, nesting, integers, repeated keys resolved as
      CreateDataProperty does), modelled from ECMA-262 and RFC 8259 on
      byte strings, forming the [js_json] instance of [JsonCodec].
    - [JsonParse] ([Module JsonParse]): properties of [json_parse] on
      every text: what it returns is well formed, and the text left
      after each step is shorter, so its fuel is not observable
      ([parse_value_fuel]).
    - [Fetcher] ([Module Fetcher]): [FetchOptions] (lines 1-5), the
      constants (7-10), the constructor (15-17), [request] (19-66) in
      [M] with the source's [try]/[catch] and the unawaited
      [return response.json()] and [return this.request(...)] kept as
      returned promises, the verbs (68-110) through [with_method] and
      [with_body].  The abstract contract [retry_contract] is a pure
      function of the attempts' outcomes; [request_refines] proves that
      [request] implements it.
    - [EventLoop] ([Module EventLoop]): many calls of [request] at once
      on one event loop (spec section 5).  A call is the [Frame] it is
      suspended in: the [await] of [fetch] (line 34), the adopted
      [response.json()] (line 50), the [await] of the retry delay
      (line 55), or settled.  The code between two [await]s is written
      as handlers in [M]: [begin_attempt] (lines 23-42), [on_response]
      (44-50), [on_error] (51-64), and [timer_task] (the abort callback
      of line 31, the recursive call of lines 56-59).  The event loop
      is the relation [step] on a [Sys]: the shared [World] and the
      calls in the order they were made.  A caller starts a call, the
      earliest timer fires, the earliest network answer arrives, or the
      clock moves on with nothing due.  [run] is the scheduler that
      always takes the earliest event, timers first at equal times.
    - [Unicode] ([Module Unicode]): JavaScript strings as UTF-16 code
      units.  It has the USVString conversion [usv] (surrogate pairs
      joined, lone surrogates replaced by U+FFFD) and the UTF-8 encoder
      of WHATWG Encoding, written with [Z.shiftr], [Z.land] and [Z.lor].
      It also has the inverses a server applies, a strict UTF-8 decoder
      and ECMA-262's UTF16EncodeCodePoint.  [utf8_roundtrip] and
      [to_well_formed_id] prove that they give the string back, as
      [toWellFormed()] makes it.
    - [UrlEncoding]: [new URLSearchParams(record)] ([url_search_params]:
      USVString conversion, then UTF-8), the serializer
      (application/x-www-form-urlencoded on byte strings) and the
      parser a server applies, with [parse_query_params].
    - [SubscriptionAPI] ([Module SubscriptionAPI]): [searchService] and
      [getItems] in [M]; the cookie jar is an argument, [BASE_URL] and
      [fetchNotiRequest] (outside [src/]) are section variables.
    - [Mypage] ([Module Mypage]): the state [ClientMypage] touches
      (props, store user, [hydrated], theme, alarm mutation pending
      flag, effects issued), one function per effect and handler,
      [step] over UI events (the switches, the dialogs' buttons, the
      settings [Link], and the settlements of the two mutations, whose
      callbacks outside [src/] may leave any user in the store),
      [render] with the hydration guard, and [reachable] from the first
      render.
    - [Register] ([Module Register]): the [useActionState] state,
      [render] (success screen or refilled form) and the submit cycle.

    ** What the theorems show

    - Client (C1-C13, C30, C32, C33): refinement of the retry contract with the exact
      number of [fetch] calls, elapsed time and an unchanged timer table
      (no leaked timer on any path); success on the first attempt; success
      after [N <= retries] failures with the waits; rejection after
      [retries + 1] failures with the last cause's message; bounds on
      calls and time (the timeout bounding the wait for headers, not the
      body); termination unless a body stalls; a timeout that wraps to
      a delay of 0 failing every call; the header merge; the requests
      [post] puts on the wire, retries included;
      and (C30) that every [fetch] of one call, retries included, puts
      the same request on the wire, read off the event log; (C32) that
      against a network that never answers within a timeout [t] below
      2^31 ms the call gives up after exactly
      [(R + 1) * t + R * retryDelay] ms; and (C33) that a
      2xx response whose body stalls leaves the call pending for ever,
      its timer cleared and no retry made.  The witnesses
      run the client with the [JsonText] codec on the spec's scenarios:
      500 then 200 with [{"id":1}] (A), the network down (B), the POST
      of [{name:"x"}] (C) and a 200 with the body [not-json] (D).
    - Concurrency (C35, C36): the invariant [inv] of the event loop,
      proved by rule induction on [reachable], says three things.  The
      timer table is, up to order, exactly the timers the suspended
      calls own, so none is leaked (C36).  The ids the calls hold are
      distinct, so a timer resumes only the call that armed it.  Every
      call is on course to settle as the retry contract of [Fetcher]
      says for the replies that call gets.  With the progress lemma
      [next_none] and the weight [measure] that every turn lowers, this
      gives C35: running the loop to the end settles every call with
      exactly the outcome [request] has when run alone.  The only
      exception is a call whose body stalls, which stays pending in
      both.  The witness runs the defaults' [get] next to a call whose
      first reply is a 500.
    - JSON (C31, C34): [JSON.parse(JSON.stringify(v)) = v] for every
      value without repeated object keys, through a parser lemma for any
      text that can follow a value and a bound of the nodes of a value
      by the length of its text; and every value [JSON.parse] returns is
      such a value.
    - Server actions (C14-C20): the query strings round-trip through the
      server's parser, the search name down to its UTF-16 code units
      (as [toWellFormed()] gives them); the outcome of each action for every reply; the
      session guard; the first [SESSION] cookie, alone, on the wire.
    - Pages (C21-C29): the store holding the current [initialData]
      after each mount or new props until a mutation's callbacks write
      it; the page's effects, which never include the store's
      [logout()] or [router.push] (the withdrawal is dead code);
      rendering null exactly until mount; the theme and alarm switches;
      the register page's render decision, the form refilled with the
      first value of each field, its pending invariant, and the screen
      a settled action leaves.
    - Findings, each proved: a body that fails to decode, or whose read
      fails, is neither retried nor wrapped; a body that stalls hangs
      the call for ever, the timeout covering the headers only; the final message always says "after 1
      retries"; a [Headers] instance given as [headers] is dropped; a
      lower-case [content-type] is joined to the default; a [timeout] of
      0, a negative one, or one of 2^31 ms wraps to a delay of 0; [get] with a body always fails; a lone
      surrogate in a search name reaches the server as U+FFFD; [getItems]
      logs the session token; the server actions have no timeout; the
      withdrawal button does nothing; failed registrations echo the
      password into the form; between two attempts a call holds the
      timer of its retry delay, which section 5 of the spec does not
      count among a call's resources.

    ** Fuel and bounds

    [Fetcher.request] recurses on its fuel; the retry budget is
    [Z.to_nat retries] and every theorem assumes fuel above it, which
    [request_settles] shows is enough: the call never stays pending,
    and [request_refines] that any such fuel gives the contract's
    result, which does not depend on the fuel.
    Fuel [Z.to_nat retries + 1] is the number of attempts.  Timer
    delays are [Z] converted as WebIDL does, so the bounds theorems are
    stated in [timer_delay].  [JsonText.parse_value] takes fuel for
    the nesting depth and the length of arrays and objects;
    [json_parse] gives it [length text + 1], which
    [json_size_length] shows is enough for every printed value, and
    [JsonParse.parse_value_fuel] that no larger fuel changes any result
    on any text.
    [EventLoop.run] takes the number of turns as fuel; [run_drains]
    shows that the system's [measure] is enough.  That measure is the
    sum over calls of 3 per retry left, plus 2 for a call awaiting
    [fetch] and 1 for one awaiting its body.

    ** Concurrency

    [EventLoop] models the concurrency the code has.  Calls made
    concurrently share only the runtime: the clock, the timer table,
    the fresh ids and the log.  Each call keeps its own locals
    ([controller], [timeoutId], [retries]) in its frame, and a
    [Fetcher] holds only [baseUrl].  The network is an oracle per call
    ([net i k] answers attempt [k] of the [i]-th call), so C35 compares
    each call with [request] run alone against the same replies.
    Within one call, retries are sequential by construction: each
    attempt's [fetch] is issued after the previous attempt's timer is
    cleared and the retry delay has run.  Other JavaScript running on
    the same loop is not modelled beyond its calls of [request] and
    the time it lets pass.

    ** Not modelled

    JSX markup and styling, React's scheduling beyond effect order, the
    hooks, stores, routes and actions of paths outside [src/] (their
    calls are recorded as effects, and what the two [ClientMypage]
    mutations' callbacks do to the store is left open: any user may
    result), the chunks of a response body (its
    read is one event: done, failed or stalled), the 4 ms clamp HTML
    puts on timers nested more than five deep (only a [retryDelay]
    below 4 ms after the fifth retry could feel it, and how the nesting
    is counted through promise jobs differs between engines), the strings other than the
    search name, which are kept as their UTF-8 bytes (a lone surrogate
    cannot occur in them), so [JSON.parse]'s [\uXXXX] escapes are
    decoded one code unit at a time, JavaScript's ordering of
    integer-like object keys, and non-integer JS numbers (timeouts,
    budgets and JSON numbers are integers [Z]; [json_parse] refuses
    fractions and exponents, and [stringify_json] prints every integer
    in decimal, where JavaScript rounds beyond 2^53 and switches to
    exponent form from 10^21).  The network is an oracle: replies
    are given per [fetch] call, so the theorems hold for every network
    behaviour. *)

From Stdlib Require Import ZArith Ascii String List Lia Bool DecimalString Permutation.
Import ListNotations.

Declare Scope gj_scope.
Delimit Scope gj_scope with gj.

(** JS nullish defaulting: [o ?? d] is [d] when [o] is [undefined]. *)
Definition option_default {A} (d : A) (o : option A) : A :=
  match o with Some x => x | None => d end.
Notation "o ?? d" := (option_default d o) (at level 40, left associativity) : gj_scope.

Open Scope gj_scope.

(** JS [String(n)] on an integer [n]. *)
Definition z_to_dec (z : Z) : string :=
  NilZero.string_of_int (Z.to_int z).

(** [l[i] = x] on a list updated in place; an index out of range
    leaves the list as it is. *)
Fixpoint set_nth {A} (i : nat) (x : A) (l : list A) : list A :=
  match l, i with
  | [], _ => []
  | _ :: l', O => x :: l'
  | y :: l', S i' => y :: set_nth i' x l'
  end.

(** The first element of [l] satisfying [p], with its index counted
    from [i]. *)
Fixpoint find_index_from {A} (p : A -> bool) (i : nat) (l : list A) : option (nat * A) :=
  match l with
  | [] => None
  | y :: l' => if p y then Some (i, y) else find_index_from p (S i) l'
  end.

Definition find_index {A} (p : A -> bool) (l : list A) : option (nat * A) :=
  find_index_from p 0 l.

Create HintDb gj discriminated.
Create Rewrite HintDb gj_rw.

(** ** Strings *)

Lemma str_app_assoc (a b c : string) :
  ((a ++ b) ++ c)%string = (a ++ (b ++ c))%string.
Proof. induction a as [|x a IH]; simpl; congruence. Qed.

Lemma str_app_nil_r (a : string) : (a ++ "")%string = a.
Proof. induction a as [|x a IH]; simpl; congruence. Qed.

Lemma str_length_app (a b : string) :
  String.length (a ++ b) = (String.length a + String.length b)%nat.
Proof. induction a as [|x a IH]; simpl; congruence. Qed.
Lemma str_app_inj_l (p a b : string) :
  (p ++ a)%string = (p ++ b)%string -> a = b.
Proof. induction p as [|x p IH]; simpl; [auto | intros H; injection H; auto]. Qed.

Lemma str_eqb_neq_iff (a b : string) : String.eqb a b = false <-> a <> b.
Proof. apply String.eqb_neq. Qed.

#[export] Hint Rewrite str_app_assoc str_app_nil_r : gj_rw.
#[export] Hint Resolve str_app_inj_l : gj.

(** ** Options *)

Lemma option_default_some {A} (d x : A) : Some x ?? d = x.
Proof. reflexivity. Qed.

Lemma option_default_none {A} (d : A) : None ?? d = d.
Proof. reflexivity. Qed.

#[export] Hint Rewrite @option_default_some @option_default_none : gj_rw.

(** ** Retry budgets: the [retries > 0] test and [retries - 1] on [Z]
    against the budget as a [nat]. *)

Lemma budget_pos (r : Z) (n : nat) :
  Z.to_nat r = S n -> (0 < r)%Z /\ Z.to_nat (r - 1) = n.
Proof. intros H. split; lia. Qed.

Lemma budget_zero (r : Z) : Z.to_nat r = O -> (r <= 0)%Z.
Proof. lia. Qed.

Lemma budget_ltb (r : Z) : (0 <? r)%Z = (0 <? Z.to_nat r)%nat.
Proof.
  destruct (Z.ltb_spec 0 r), (Nat.ltb_spec 0 (Z.to_nat r)); auto; lia.
Qed.

(** Sums over lists. *)
Lemma list_sum_in {A} (g : A -> nat) x l : In x l -> g x <= list_sum (map g l).
Proof. induction l as [|y l IH]; simpl; [tauto|]. intros [->|H]; [lia | specialize (IH H); lia]. Qed.

Lemma list_sum_length {A} (g : A -> nat) l : (forall x, 1 <= g x) -> List.length l <= list_sum (map g l).
Proof. intros H. induction l as [|y l IH]; simpl; [lia | specialize (H y); lia]. Qed.

Lemma list_sum_le {A} (g h : A -> nat) l :
  (forall x, In x l -> g x <= h x) -> list_sum (map g l) <= list_sum (map h l).
Proof.
  induction l as [|y l IH]; intros H; simpl; [lia|].
  specialize (H y (or_introl eq_refl)) as Hy. specialize (IH (fun x Hx => H x (or_intror Hx))). lia.
Qed.

(** ** Lists updated and searched by index *)

Lemma set_nth_length {A} i (x : A) l : List.length (set_nth i x l) = List.length l.
Proof. revert i. induction l as [|y l IH]; intros [|i]; simpl; auto. Qed.

Lemma nth_error_set_nth_eq {A} i (x : A) l :
  (i < List.length l)%nat -> nth_error (set_nth i x l) i = Some x.
Proof. revert i. induction l as [|y l IH]; intros [|i] H; simpl in *; [lia | lia | reflexivity | apply IH; lia]. Qed.

Lemma nth_error_set_nth_neq {A} i j (x : A) l :
  i <> j -> nth_error (set_nth i x l) j = nth_error l j.
Proof.
  revert i j. induction l as [|y l IH]; intros [|i] [|j] H; simpl; auto; congruence.
Qed.

Lemma find_index_from_some {A} (p : A -> bool) l : forall i j x,
  find_index_from p i l = Some (j, x) ->
  (i <= j)%nat /\ nth_error l (j - i) = Some x /\ p x = true.
Proof.
  induction l as [|y l IH]; intros i j x H; simpl in H; [discriminate|].
  destruct (p y) eqn:Hp.
  - injection H as <- <-. rewrite Nat.sub_diag. auto.
  - destruct (IH _ _ _ H) as (Hle & Hn & Hx). split; [lia|]. split; [|exact Hx].
    replace (j - i)%nat with (S (j - S i)) by lia. exact Hn.
Qed.

Lemma find_index_some {A} (p : A -> bool) l i x :
  find_index p l = Some (i, x) -> nth_error l i = Some x /\ p x = true.
Proof. intros H. apply find_index_from_some in H. now rewrite Nat.sub_0_r in H. Qed.

Lemma find_index_none {A} (p : A -> bool) l :
  find_index p l = None -> forall x, In x l -> p x = false.
Proof.
  unfold find_index. generalize 0%nat. induction l as [|y l IH]; intros i H x Hx; [destruct Hx|].
  simpl in H. destruct (p y) eqn:Hp; [discriminate|].
  destruct Hx as [<-|Hx]; [exact Hp | exact (IH _ H x Hx)].
Qed.

Lemma set_nth_app {A} (l1 l2 : list A) x y :
  set_nth (List.length l1) y (l1 ++ x :: l2) = l1 ++ y :: l2.
Proof. induction l1 as [|z l1 IH]; simpl; congruence. Qed.

Lemma NoDup_app_disj {A} (l1 l2 : list A) x :
  NoDup (l1 ++ l2) -> In x l1 -> In x l2 -> False.
Proof.
  induction l1 as [|y l1 IH]; simpl; [tauto|].
  intros Hnd Hx H2. apply NoDup_cons_iff in Hnd as [Hy Hnd].
  destruct Hx as [<-|Hx]; [apply Hy, in_or_app; now right | eauto].
Qed.

(** When the keys [g x] of the entries of a list are all distinct, two
    entries that share a key are one entry. *)
Lemma NoDup_flat_map_nth {A B} (g : A -> list B) l : forall i j x y b,
  NoDup (flat_map g l) -> nth_error l i = Some x -> nth_error l j = Some y ->
  In b (g x) -> In b (g y) -> i = j.
Proof.
  assert (Hout : forall a l x j b, NoDup (g a ++ flat_map g l) -> nth_error l j = Some x ->
                   In b (g a) -> In b (g x) -> False).
  { intros a l' x j b Hnd Hj Ha Hx. apply (NoDup_app_disj _ _ b Hnd Ha).
    apply in_flat_map. exists x. split; [eapply nth_error_In; eauto | exact Hx]. }
  induction l as [|a l IH]; intros [|i] [|j] x y b Hnd Hi Hj Hx Hy; simpl in *;
    try discriminate; auto.
  - injection Hi as <-. destruct (Hout _ _ _ _ _ Hnd Hj Hx Hy).
  - injection Hj as <-. destruct (Hout _ _ _ _ _ Hnd Hi Hy Hx).
  - f_equal. eapply IH; eauto. eapply NoDup_app_remove_l; eauto.
Qed.

(** Replacing the middle of a duplicate-free list by fresh elements. *)
Lemma NoDup_replace_mid {A} (l m m' r : list A) :
  NoDup (l ++ m ++ r) -> NoDup m' -> (forall x, In x m' -> In x (l ++ r) -> False) ->
  NoDup (l ++ m' ++ r).
Proof.
  intros H Hm' Hdisj.
  assert (Hlr : NoDup (l ++ r)).
  { apply (NoDup_app_remove_l m). exact (Permutation_NoDup (Permutation_app_swap_app l m r) H). }
  apply (Permutation_NoDup (Permutation_app_swap_app m' l r)).
  apply NoDup_app; auto.
Qed.

(** A boolean property of bytes holds of every byte when it holds of
    the 256 codes; the premise is closed by [vm_compute]. *)
Lemma ascii_forall (p : ascii -> bool) :
  forallb (fun n => p (ascii_of_nat n)) (seq 0 256) = true -> forall c, p c = true.
Proof.
  intros H c. rewrite forallb_forall in H. rewrite <- (ascii_nat_embedding c).
  apply H. apply in_seq. pose proof (nat_ascii_bounded c). lia.
Qed.

#[export] Hint Resolve budget_pos budget_zero : gj.

(** ** Tactics *)

(** Case on every boolean test and [match] that blocks reduction. *)
Ltac case_tests :=
  repeat match goal with
  | |- context [if ?b then _ else _] =>
      let E := fresh "E" in destruct b eqn:E
  | H : context [if ?b then _ else _] |- _ =>
      let E := fresh "E" in destruct b eqn:E
  end.

Ltac inv H := inversion H; subst; clear H.

(** Turn the boolean comparisons of [Z] and [nat] into propositions. *)
Ltac bool_to_prop :=
  repeat match goal with
  | H : (_ <? _)%Z = true |- _ => apply Z.ltb_lt in H
  | H : (_ <? _)%Z = false |- _ => apply Z.ltb_ge in H
  | H : (_ <=? _)%Z = true |- _ => apply Z.leb_le in H
  | H : (_ <=? _)%Z = false |- _ => apply Z.leb_gt in H
  | H : (_ =? _)%Z = true |- _ => apply Z.eqb_eq in H
  | H : (_ =? _)%Z = false |- _ => apply Z.eqb_neq in H
  | H : (_ =? _)%nat = true |- _ => apply Nat.eqb_eq in H
  | H : (_ =? _)%nat = false |- _ => apply Nat.eqb_neq in H
  | H : String.eqb _ _ = true |- _ => apply String.eqb_eq in H
  | H : String.eqb _ _ = false |- _ => apply String.eqb_neq in H
  | H : (_ && _)%bool = true |- _ => apply andb_true_iff in H; destruct H
  end.
