(* ===== verification/Async.v ===== *)
(** * The JavaScript runtime under [fetcher.ts]

    The platform facilities the client calls, modelled from their
    documented behaviour (none of this is code of the repository):
    thrown values, promises settled in a world with a clock, timers, an
    event log and a counter of [fetch] calls, [setTimeout] /
    [clearTimeout] with the WebIDL [long] conversion of the delay,
    [AbortController], and [fetch] racing a network oracle against the
    abort timer of its signal.  Also the object spread [{...a, ...b}] on
    string-keyed records and the [Headers] normalisation that [fetch]
    applies to a record of headers. *)

From Stdlib Require Import ZArith String List Lia Bool Ascii.
From S2P Require Import Prelude.
Import ListNotations.

Open Scope Z_scope.
Open Scope gj_scope.

(** ** Values *)

(** A thrown value: an [Error] object (its [name] and [message]) or
    anything else ([throw 42]). *)
Inductive Thrown :=
| JsError (name message : string)
| JsNonError.

(** A settled or unsettled promise.  [Pending] is a promise that does
    not settle (and, for fuel-bounded definitions, one whose fuel ran
    out). *)
Inductive Outcome (A : Type) :=
| Resolved (a : A)
| Rejected (e : Thrown)
| Pending.
Arguments Resolved {A} a.
Arguments Rejected {A} e.
Arguments Pending {A}.

Inductive HttpMethod := GET | POST | PUT | DELETE.
Inductive Credentials := CredOmit | CredSameOrigin | CredInclude.

(** The signal of the [AbortController] with the given id. *)
Inductive Signal := ControllerSignal (c : nat).

(** [HeadersInit]: a plain record, a [Headers] instance, or an array of
    pairs. *)
Inductive HeadersInit :=
| HRecord (l : list (string * string))
| HInstance (l : list (string * string))
| HPairs (l : list (string * string)).

(** The [RequestInit] fields the client passes; [ri_headers] is the
    record literal it builds. *)
Record RequestInit := mkInit {
  ri_method : option HttpMethod;
  ri_body : option string;
  ri_headers : list (string * string);
  ri_credentials : option Credentials;
  ri_signal : option Signal;
  ri_cache : option string }.

(** How reading a response's body ends, counted from the arrival of
    its headers: the stream completes after [latency] ms, fails after
    [latency] ms with [e], or never completes. *)
Inductive BodyRead :=
| BodyDone (latency : Z)
| BodyError (latency : Z) (e : Thrown)
| BodyStalled.

Record Response := mkResponse { status : Z; body : string; body_read : BodyRead }.

(** [response.ok]: a status in 200-299. *)
Definition resp_ok (r : Response) : bool :=
  (200 <=? status r) && (status r <=? 299).

(** ** JS objects with string keys, as association lists in property
    order *)

Fixpoint obj_get (o : list (string * string)) (k : string) : option string :=
  match o with
  | [] => None
  | (k', v) :: o' => if String.eqb k k' then Some v else obj_get o' k
  end.

(** [o[k] = v]: overwrite in place, or append a new property. *)
Fixpoint obj_set (o : list (string * string)) (k v : string) : list (string * string) :=
  match o with
  | [] => [(k, v)]
  | (k', v') :: o' =>
      if String.eqb k k' then (k, v) :: o' else (k', v') :: obj_set o' k v
  end.

(** [{...o, ...src}] *)
Definition obj_spread (o src : list (string * string)) : list (string * string) :=
  fold_left (fun acc kv => obj_set acc (fst kv) (snd kv)) src o.

(** The own enumerable properties of a [HeadersInit] value, which is
    what [...h] copies: a [Headers] instance has none, an array has its
    indices, each element converted to the string ["k,v"] when [fetch]
    reads it as a header value. *)
Fixpoint indexed_pairs (i : nat) (l : list (string * string)) : list (string * string) :=
  match l with
  | [] => []
  | (k, v) :: l' => (z_to_dec (Z.of_nat i), (k ++ "," ++ v)%string) :: indexed_pairs (S i) l'
  end.

Definition spread_source (h : option HeadersInit) : list (string * string) :=
  match h with
  | None => []
  | Some (HRecord l) => l
  | Some (HInstance _) => []
  | Some (HPairs l) => indexed_pairs 0 l
  end.

(** ** The [Headers] object [fetch] builds from a record *)

Definition ascii_lower (c : ascii) : ascii :=
  let n := nat_of_ascii c in
  if (65 <=? n)%nat && (n <=? 90)%nat then ascii_of_nat (n + 32) else c.

Fixpoint str_lower (s : string) : string :=
  match s with
  | EmptyString => EmptyString
  | String c s' => String (ascii_lower c) (str_lower s')
  end.

(** [headers.append(k, v)]: names are case-insensitive, a second value
    for a name is joined to the first with [", "]. *)
Definition headers_append (h : list (string * string)) (k v : string) : list (string * string) :=
  let k' := str_lower k in
  match obj_get h k' with
  | Some old => obj_set h k' (old ++ ", " ++ v)%string
  | None => obj_set h k' v
  end.

Definition headers_of_record (o : list (string * string)) : list (string * string) :=
  fold_left (fun h kv => headers_append h (fst kv) (snd kv)) o [].

(** What reaches the server. *)
Record WireRequest := mkWire {
  wr_url : string;
  wr_method : HttpMethod;
  wr_headers : list (string * string);
  wr_body : option string;
  wr_credentials : Credentials }.

Definition to_wire (url : string) (init : RequestInit) : WireRequest :=
  {| wr_url := url;
     wr_method := ri_method init ?? GET;
     wr_headers := headers_of_record (ri_headers init);
     wr_body := ri_body init;
     wr_credentials := ri_credentials init ?? CredSameOrigin |}.

(** ** Timers *)

(** WebIDL [long]: the delay of [setTimeout] is taken modulo 2^32 into
    the signed 32-bit range, then a negative delay becomes 0. *)
Definition to_int32 (z : Z) : Z :=
  let m := z mod 2 ^ 32 in
  if m <? 2 ^ 31 then m else m - 2 ^ 32.

Definition timer_delay (z : Z) : Z := Z.max 0 (to_int32 z).

Inductive TimerAction :=
| FireAbort (c : nat)       (** [() => controller.abort()] *)
| FireResolve.              (** [resolve] of a sleeping promise *)

Record Timer := mkTimer { t_id : nat; t_deadline : Z; t_action : TimerAction }.

Inductive Event :=
| EvSetTimer (id : nat) (delay : Z)
| EvClearTimer (id : nat)
| EvFire (id : nat)
| EvFetch (url : string) (init : RequestInit)
| EvConsole (line : string).

Record World := mkWorld {
  w_now : Z;
  w_calls : nat;
  w_timers : list Timer;
  w_next : nat;
  w_log : list Event }.

(** A world is well formed when every armed timer and every controller
    an armed timer aborts has an id below the next fresh id. *)
Definition action_below (n : nat) (a : TimerAction) : Prop :=
  match a with FireAbort c => (c < n)%nat | FireResolve => True end.

Definition wf_world (w : World) : Prop :=
  Forall (fun t => (t_id t < w_next w)%nat /\ action_below (w_next w) (t_action t)) (w_timers w).

(** ** The promise monad *)

Definition M (A : Type) : Type := World -> Outcome A * World.

Definition ret {A} (a : A) : M A := fun w => (Resolved a, w).

Definition bind {A B} (m : M A) (k : A -> M B) : M B :=
  fun w =>
    match m w with
    | (Resolved a, w') => k a w'
    | (Rejected e, w') => (Rejected e, w')
    | (Pending, w') => (Pending, w')
    end.

Definition throw {A} (e : Thrown) : M A := fun w => (Rejected e, w).

Definition pending {A} : M A := fun w => (Pending, w).

(** [try { m } catch (e) { h e }] *)
Definition try_catch {A} (m : M A) (h : Thrown -> M A) : M A :=
  fun w =>
    match m w with
    | (Rejected e, w') => h e w'
    | r => r
    end.

(** An [async] function that returns a promise adopts it. *)
Definition join {A} (m : M (M A)) : M A := bind m (fun p => p).

Declare Scope async_scope.
Delimit Scope async_scope with async.
Notation "x <- m ;; k" := (bind m (fun x => k))
  (at level 100, m at next level, right associativity) : async_scope.
Notation "m ;; k" := (bind m (fun _ => k))
  (at level 100, right associativity) : async_scope.
Open Scope async_scope.

(** ** Primitives *)

Definition emit (e : Event) (w : World) : World :=
  mkWorld (w_now w) (w_calls w) (w_timers w) (w_next w) (w_log w ++ [e]).

Definition advance (t : Z) (w : World) : World :=
  mkWorld (w_now w + Z.max 0 t) (w_calls w) (w_timers w) (w_next w) (w_log w).

Definition drop_timer (id : nat) (ts : list Timer) : list Timer :=
  filter (fun t => negb (Nat.eqb (t_id t) id)) ts.
Arguments drop_timer : simpl never.

(** The timer [t] fires: the clock moves to its deadline and it leaves
    the table. *)
Definition fire (t : Timer) (w : World) : World :=
  mkWorld (Z.max (w_now w) (t_deadline t)) (w_calls w)
          (drop_timer (t_id t) (w_timers w)) (w_next w) (w_log w ++ [EvFire (t_id t)]).

Definition new_AbortController : M nat :=
  fun w => (Resolved (w_next w),
            mkWorld (w_now w) (w_calls w) (w_timers w) (S (w_next w)) (w_log w)).

Definition setTimeout (a : TimerAction) (delay : Z) : M nat :=
  fun w =>
    let id := w_next w in
    let d := timer_delay delay in
    (Resolved id,
     mkWorld (w_now w) (w_calls w) (w_timers w ++ [mkTimer id (w_now w + d) a])
             (S id) (w_log w ++ [EvSetTimer id d])).

Definition clearTimeout (id : nat) : M unit :=
  fun w =>
    (Resolved tt,
     mkWorld (w_now w) (w_calls w) (drop_timer id (w_timers w)) (w_next w)
             (w_log w ++ [EvClearTimer id])).

(** Await the timer [id]: it fires at its deadline; a timer that is not
    armed never fires. *)
Definition await_timer (id : nat) : M unit :=
  fun w =>
    match find (fun t => Nat.eqb (t_id t) id) (w_timers w) with
    | Some t => (Resolved tt, fire t w)
    | None => (Pending, w)
    end.

(** [console.log(line)] *)
Definition console_log (line : string) : M unit :=
  fun w => (Resolved tt, emit (EvConsole line) w).

(** [await new Promise((resolve) => setTimeout(resolve, d))] *)
Definition sleep (d : Z) : M unit :=
  id <- setTimeout FireResolve d ;; await_timer id.

(** ** [fetch] *)

(** The network, as an oracle: the reply to the [n]-th [fetch] call. *)
Inductive Reply :=
| Respond (latency : Z) (r : Response)
| NetFail (latency : Z) (e : Thrown)
| NoReply.

Definition reply_latency (rp : Reply) : option Z :=
  match rp with
  | Respond lat _ | NetFail lat _ => Some (Z.max 0 lat)
  | NoReply => None
  end.

Definition abort_error : Thrown := JsError "AbortError" "This operation was aborted".

Definition get_with_body_error : Thrown :=
  JsError "TypeError" "Request with GET/HEAD method cannot have body.".

(** [fetch] rejects a GET with a body before any network access. *)
Definition fetch_precheck (init : RequestInit) : option Thrown :=
  match ri_method init ?? GET, ri_body init with
  | GET, Some _ => Some get_with_body_error
  | _, _ => None
  end.

Definition find_abort (ts : list Timer) (c : nat) : option Timer :=
  find (fun t => match t_action t with FireAbort c' => Nat.eqb c c' | FireResolve => false end) ts.

Definition signal_timer (init : RequestInit) (w : World) : option Timer :=
  match ri_signal init with
  | Some (ControllerSignal c) => find_abort (w_timers w) c
  | None => None
  end.

Section Fetch.
Variable net : nat -> WireRequest -> Reply.

Definition settle (rp : Reply) (w : World) : Outcome Response * World :=
  match rp with
  | Respond lat r => (Resolved r, advance lat w)
  | NetFail lat e => (Rejected e, advance lat w)
  | NoReply => (Pending, w)
  end.

(** The reply races the abort timer of the signal: the timer wins
    when its deadline is not later than the reply. *)
Definition fetch (url : string) (init : RequestInit) : M Response :=
  fun w0 =>
    let w := mkWorld (w_now w0) (S (w_calls w0)) (w_timers w0) (w_next w0)
                     (w_log w0 ++ [EvFetch url init]) in
    match fetch_precheck init with
    | Some e => (Rejected e, w)
    | None =>
        let rp := net (w_calls w0) (to_wire url init) in
        match signal_timer init w, reply_latency rp with
        | Some t, Some lat =>
            if t_deadline t <=? w_now w + lat then (Rejected abort_error, fire t w)
            else settle rp w
        | Some t, None => (Rejected abort_error, fire t w)
        | None, _ => settle rp w
        end
    end.
End Fetch.

(** The requests the [fetch] calls of a log put on the wire, in order. *)
Fixpoint fetched (log : list Event) : list WireRequest :=
  match log with
  | [] => []
  | EvFetch url init :: log' => to_wire url init :: fetched log'
  | _ :: log' => fetched log'
  end.

(** ** Lemmas *)

Lemma fetched_app l1 l2 : fetched (l1 ++ l2) = fetched l1 ++ fetched l2.
Proof. induction l1 as [|[] l1 IH]; simpl; rewrite ?IH; reflexivity. Qed.

Lemma bind_ret {A B} (a : A) (k : A -> M B) w : bind (ret a) k w = k a w.
Proof. reflexivity. Qed.

Lemma to_int32_range z : - 2 ^ 31 <= to_int32 z < 2 ^ 31.
Proof.
  unfold to_int32. pose proof (Z.mod_pos_bound z (2 ^ 32)) as H.
  destruct (Z.ltb_spec (z mod 2 ^ 32) (2 ^ 31)); lia.
Qed.

Lemma to_int32_small z : - 2 ^ 31 <= z < 2 ^ 31 -> to_int32 z = z.
Proof.
  intros H. unfold to_int32. destruct (Z.leb_spec 0 z).
  - rewrite Z.mod_small by lia. destruct (Z.ltb_spec z (2 ^ 31)); lia.
  - rewrite <- (Z.mod_unique_pos z (2 ^ 32) (-1) (z + 2 ^ 32)) by lia.
    destruct (Z.ltb_spec (z + 2 ^ 32) (2 ^ 31)); lia.
Qed.

Lemma timer_delay_range z : 0 <= timer_delay z < 2 ^ 31.
Proof. unfold timer_delay. pose proof (to_int32_range z). lia. Qed.

#[export] Hint Resolve timer_delay_range : gj.

(** ** Records and the spread *)

Lemma obj_get_set o k v k' :
  obj_get (obj_set o k v) k' = if String.eqb k' k then Some v else obj_get o k'.
Proof.
  induction o as [|[k0 v0] o IH]; simpl.
  - destruct (String.eqb k' k); reflexivity.
  - destruct (String.eqb_spec k k0) as [<-|Hne]; simpl.
    + destruct (String.eqb k' k); reflexivity.
    + rewrite IH. destruct (String.eqb_spec k' k0), (String.eqb_spec k' k); congruence.
Qed.

Lemma obj_get_app o1 o2 k :
  obj_get (o1 ++ o2) k = match obj_get o1 k with Some v => Some v | None => obj_get o2 k end.
Proof.
  induction o1 as [|[k0 v0] o1 IH]; simpl; [reflexivity|].
  destruct (String.eqb k k0); [reflexivity | exact IH].
Qed.

(** A lookup finds the first property named [k]: [FormData.get] and
    [cookies().get] read the first entry. *)
Lemma obj_get_first pre k v post :
  ~ In k (map fst pre) -> obj_get (pre ++ (k, v) :: post) k = Some v.
Proof.
  intros Hk. rewrite obj_get_app. simpl. rewrite String.eqb_refl.
  induction pre as [|[k0 v0] pre IH]; [reflexivity|]. simpl in *.
  destruct (String.eqb_spec k k0) as [->|_]; [tauto | apply IH; tauto].
Qed.

(** In [{...o, ...src}] the last property of [src] named [k] wins, and
    [o] supplies the rest. *)
Lemma obj_get_spread o src k :
  obj_get (obj_spread o src) k =
  match obj_get (rev src) k with Some v => Some v | None => obj_get o k end.
Proof.
  unfold obj_spread. revert o. induction src as [|[k0 v0] src IH]; intros o; simpl; [reflexivity|].
  rewrite IH, obj_get_app, obj_get_set. simpl.
  destruct (obj_get (rev src) k); [reflexivity|]. destruct (String.eqb k k0); reflexivity.
Qed.

(** ** The timer table *)

Lemma drop_timer_absent ts i :
  Forall (fun t => (t_id t < i)%nat) ts -> drop_timer i ts = ts.
Proof.
  unfold drop_timer. induction 1 as [|t ts' Ht _ IH]; [reflexivity|].
  cbn in *. destruct (Nat.eqb_spec (t_id t) i); [lia|]. simpl. now rewrite IH.
Qed.

Lemma drop_timer_fresh ts i d a :
  Forall (fun t => (t_id t < i)%nat) ts -> drop_timer i (ts ++ [mkTimer i d a]) = ts.
Proof.
  intros H. unfold drop_timer. rewrite filter_app. simpl. rewrite Nat.eqb_refl. simpl.
  rewrite app_nil_r. now apply drop_timer_absent.
Qed.

Lemma find_id_fresh ts i d a :
  Forall (fun t => (t_id t < i)%nat) ts ->
  find (fun t => Nat.eqb (t_id t) i) (ts ++ [mkTimer i d a]) = Some (mkTimer i d a).
Proof.
  induction 1 as [|t ts' Ht _ IH]; simpl.
  - now rewrite Nat.eqb_refl.
  - cbn in Ht. destruct (Nat.eqb_spec (t_id t) i); [lia | exact IH].
Qed.

Lemma find_abort_fresh ts c i d :
  Forall (fun t => action_below c (t_action t)) ts ->
  find_abort (ts ++ [mkTimer i d (FireAbort c)]) c = Some (mkTimer i d (FireAbort c)).
Proof.
  unfold find_abort. induction 1 as [|t ts' Ht _ IH]; simpl.
  - now rewrite Nat.eqb_refl.
  - destruct (t_action t) as [c'|]; simpl in Ht; [|exact IH].
    destruct (Nat.eqb_spec c c'); [lia | exact IH].
Qed.

Lemma wf_world_ids w : wf_world w -> Forall (fun t => (t_id t < w_next w)%nat) (w_timers w).
Proof. apply Forall_impl. tauto. Qed.

Lemma wf_world_actions w :
  wf_world w -> Forall (fun t => action_below (w_next w) (t_action t)) (w_timers w).
Proof. apply Forall_impl. tauto. Qed.

(** Raising the next fresh id keeps a table well formed. *)
Lemma wf_timers_mono ts n n' :
  (n <= n')%nat ->
  Forall (fun t => (t_id t < n)%nat /\ action_below n (t_action t)) ts ->
  Forall (fun t => (t_id t < n')%nat /\ action_below n' (t_action t)) ts.
Proof.
  intros Hle. apply Forall_impl. intros [id dl [c|]]; simpl; lia.
Qed.

Lemma Forall_ids_lt ts n n' :
  (n <= n')%nat -> Forall (fun t => (t_id t < n)%nat) ts -> Forall (fun t => (t_id t < n')%nat) ts.
Proof. intros Hle. apply Forall_impl. lia. Qed.

(** [sleep d] from a world whose timer ids are below the next fresh id:
    the clock moves by the converted delay and the table is unchanged. *)
Lemma sleep_fresh d w :
  Forall (fun t => (t_id t < w_next w)%nat) (w_timers w) ->
  sleep d w =
  (Resolved tt,
   mkWorld (w_now w + timer_delay d) (w_calls w) (w_timers w) (S (w_next w))
           (w_log w ++ [EvSetTimer (w_next w) (timer_delay d); EvFire (w_next w)])).
Proof.
  intros H. unfold sleep, bind, setTimeout, await_timer, fire. cbn.
  rewrite find_id_fresh by exact H. cbn. rewrite drop_timer_fresh by exact H.
  pose proof (timer_delay_range d). rewrite <- app_assoc. f_equal. f_equal. lia.
Qed.

#[export] Hint Resolve wf_world_ids wf_world_actions wf_timers_mono Forall_ids_lt : gj.
