(* ===== verification/Json.v ===== *)
(** * JSON values and the codec the client is parameterised by

    [JSON.stringify] and [response.json()] are platform functions; the
    client is verified for every codec, given as an instance of
    [JsonCodec]; [decode_body] is [response.json()] over the codec.  Numbers are the integer ones ([Z]). *)

From Stdlib Require Import ZArith String List Lia.
From S2P Require Import Prelude.
From S2P Require Import Async.
Import ListNotations.

#[local] Set Warnings "-register-all".
Inductive Json :=
| JNull
| JBool (b : bool)
| JNum (n : Z)
| JStr (s : string)
| JArr (l : list Json)
| JObj (l : list (string * Json)).

(** Induction on values, with the hypothesis on every member of an
    array or object. *)
Section JsonInd.
Variable P : Json -> Prop.
Hypothesis Hnull : P JNull.
Hypothesis Hbool : forall b, P (JBool b).
Hypothesis Hnum : forall n, P (JNum n).
Hypothesis Hstr : forall s, P (JStr s).
Hypothesis Harr : forall l, Forall P l -> P (JArr l).
Hypothesis Hobj : forall l, Forall (fun kv => P (snd kv)) l -> P (JObj l).

Fixpoint json_ind' (v : Json) : P v :=
  match v with
  | JNull => Hnull
  | JBool b => Hbool b
  | JNum n => Hnum n
  | JStr s => Hstr s
  | JArr l =>
      Harr l ((fix go (l : list Json) : Forall P l :=
                 match l with
                 | [] => Forall_nil _
                 | x :: l' => Forall_cons x (json_ind' x) (go l')
                 end) l)
  | JObj l =>
      Hobj l ((fix go (l : list (string * Json)) : Forall (fun kv => P (snd kv)) l :=
                 match l with
                 | [] => Forall_nil _
                 | kv :: l' => Forall_cons kv (json_ind' (snd kv)) (go l')
                 end) l)
  end.
End JsonInd.

(** [stringify] is [JSON.stringify]; [parse] is the body decoding of
    [response.json()], returning the [SyntaxError] message on failure. *)
Class JsonCodec := {
  stringify : Json -> string;
  parse : string -> string + Json }.

Section Decode.
Context {codec : JsonCodec}.

(** [response.json()]: the decoded body, or the [SyntaxError] of the
    decoder. *)
Definition decode_body (s : string) : Outcome Json :=
  match parse s with
  | inr v => Resolved v
  | inl msg => Rejected (JsError "SyntaxError" msg)
  end.

(** [response.json()]: the body is read to its end, then decoded; a
    failed read rejects with the stream's error, a stalled one never
    settles. *)
Definition read_json (r : Response) : Outcome Json :=
  match body_read r with
  | BodyDone _ => decode_body (body r)
  | BodyError _ e => Rejected e
  | BodyStalled => Pending
  end.

(** The time the body read takes, after the headers. *)
Definition body_wait (r : Response) : Z :=
  match body_read r with
  | BodyDone lat | BodyError lat _ => Z.max 0 lat
  | BodyStalled => 0
  end.

Definition response_json (r : Response) : M Json :=
  fun w => (read_json r, advance (body_wait r) w).

Lemma decode_body_inr s v : parse s = inr v -> decode_body s = Resolved v.
Proof. unfold decode_body. now intros ->. Qed.

Lemma decode_body_inl s m : parse s = inl m -> decode_body s = Rejected (JsError "SyntaxError" m).
Proof. unfold decode_body. now intros ->. Qed.

Lemma decode_body_settled s : decode_body s <> Pending.
Proof. unfold decode_body. destruct (parse s); discriminate. Qed.

Lemma body_wait_nonneg r : (0 <= body_wait r)%Z.
Proof. unfold body_wait. destruct (body_read r); lia. Qed.

Lemma read_json_done r lat : body_read r = BodyDone lat -> read_json r = decode_body (body r).
Proof. unfold read_json. now intros ->. Qed.

(** Only a stalled body leaves [response.json()] pending. *)
Lemma read_json_settled r : body_read r <> BodyStalled -> read_json r <> Pending.
Proof.
  unfold read_json. destruct (body_read r); intros H; try discriminate.
  - apply decode_body_settled.
  - now destruct H.
Qed.
End Decode.
