(* ===== verification/JsonText.v ===== *)
(** * JSON text: [JSON.stringify] and [JSON.parse] as a [JsonCodec]

    The client serialises request bodies with [JSON.stringify]
    ([fetcher.ts], lines 86 and 98) and decodes responses with
    [response.json()], which is [JSON.parse] of the body.  Both are
    platform functions, modelled here from ECMA-262 (SerializeJSONProperty,
    QuoteJSONString) and the JSON grammar of RFC 8259 on byte strings:
    [stringify_json] prints a [Json] value without white space, escaping
    the quote, the backslash and the control bytes; [json_parse] parses
    a text with white space, escapes and nesting, and fails on anything
    else.  [js_json] is the [JsonCodec] instance they form.

    The main theorem is the round trip [parse (stringify v) = inr v] for
    every value a JavaScript program can build ([wf_json]: no object has
    two properties of the same name). *)

From Stdlib Require Import ZArith Ascii String List Lia Bool Arith DecimalString DecimalFacts DecimalZ.
From S2P Require Import Prelude.
From S2P Require Import Async.
From S2P Require Import Json.
Import ListNotations.
Open Scope string_scope.
Open Scope nat_scope.

Module JsonText.

(** ** Printing *)

Definition quote : ascii := ascii_of_nat 34.
Definition backslash : ascii := ascii_of_nat 92.

(** The lower-case hexadecimal digit of [k < 16] (UnicodeEscape). *)
Definition hex_lower (k : nat) : ascii :=
  if (k <? 10)%nat then ascii_of_nat (48 + k) else ascii_of_nat (87 + k).

(** QuoteJSONString on one code unit: the short escapes of its table,
    [\u00XX] for the other control characters, the unit itself else. *)
Definition escape_char (c : ascii) : string :=
  let n := nat_of_ascii c in
  if (n =? 8)%nat then String backslash "b"
  else if (n =? 9)%nat then String backslash "t"
  else if (n =? 10)%nat then String backslash "n"
  else if (n =? 12)%nat then String backslash "f"
  else if (n =? 13)%nat then String backslash "r"
  else if (n =? 34)%nat then String backslash (String quote "")
  else if (n =? 92)%nat then String backslash (String backslash "")
  else if (n <? 32)%nat then
    String backslash ("u00" ++ String (hex_lower (n / 16)) (String (hex_lower (n mod 16)) ""))
  else String c "".

Fixpoint escape (s : string) : string :=
  match s with
  | "" => ""
  | String c s' => escape_char c ++ escape s'
  end.

Definition quote_json (s : string) : string := String quote (escape s ++ String quote "").

(** [list.join(sep)] *)
Fixpoint join_with (sep : string) (l : list string) : string :=
  match l with
  | [] => ""
  | [x] => x
  | x :: l' => x ++ sep ++ join_with sep l'
  end.

(** SerializeJSONProperty without a replacer or indentation: numbers are
    printed by Number::toString, here [z_to_dec]; arrays and objects
    join their members with commas, keys quoted, in property order. *)
Fixpoint stringify_json (v : Json) : string :=
  match v with
  | JNull => "null"
  | JBool true => "true"
  | JBool false => "false"
  | JNum n => z_to_dec n
  | JStr s => quote_json s
  | JArr l => "[" ++ join_with "," (map stringify_json l) ++ "]"
  | JObj l =>
      "{" ++ join_with "," (map (fun kv => quote_json (fst kv) ++ ":" ++ stringify_json (snd kv)) l)
      ++ "}"
  end.

(** ** Parsing *)

(** JSON white space: space, tab, line feed, carriage return. *)
Definition is_ws (c : ascii) : bool :=
  let n := nat_of_ascii c in ((n =? 32) || (n =? 9) || (n =? 10) || (n =? 13))%nat.

Fixpoint skip_ws (s : string) : string :=
  match s with
  | "" => ""
  | String c s' => if is_ws c then skip_ws s' else s
  end.

Definition is_digit (c : ascii) : bool :=
  let n := nat_of_ascii c in ((48 <=? n) && (n <=? 57))%nat.

Definition hex_val (c : ascii) : option nat :=
  let n := nat_of_ascii c in
  if ((48 <=? n) && (n <=? 57))%nat then Some (n - 48)
  else if ((97 <=? n) && (n <=? 102))%nat then Some (n - 87)
  else if ((65 <=? n) && (n <=? 70))%nat then Some (n - 55)
  else None.

(** The byte an escape [\e] stands for, [u] apart. *)
Definition simple_escape (e : ascii) : option ascii :=
  let n := nat_of_ascii e in
  if (n =? 34)%nat then Some quote
  else if (n =? 92)%nat then Some backslash
  else if (n =? 47)%nat then Some e
  else if (n =? 98)%nat then Some (ascii_of_nat 8)
  else if (n =? 102)%nat then Some (ascii_of_nat 12)
  else if (n =? 110)%nat then Some (ascii_of_nat 10)
  else if (n =? 114)%nat then Some (ascii_of_nat 13)
  else if (n =? 116)%nat then Some (ascii_of_nat 9)
  else None.

(** The UTF-8 bytes of a code unit [u < 65536] given as [\uXXXX]. *)
Definition utf8_unit (u : nat) : string :=
  if (u <? 128)%nat then String (ascii_of_nat u) ""
  else if (u <? 2048)%nat then
    String (ascii_of_nat (192 + u / 64)) (String (ascii_of_nat (128 + u mod 64)) "")
  else String (ascii_of_nat (224 + u / 4096))
         (String (ascii_of_nat (128 + (u / 64) mod 64)) (String (ascii_of_nat (128 + u mod 64)) "")).

(** The body of a string literal after its opening quote: its value and
    the text after the closing quote; [None] on an unterminated string,
    a bad escape or a raw control byte. *)
Fixpoint parse_str (s : string) : option (string * string) :=
  match s with
  | "" => None
  | String c s1 =>
      if Ascii.eqb c quote then Some ("", s1)
      else if Ascii.eqb c backslash then
        match s1 with
        | "" => None
        | String e s2 =>
            if Ascii.eqb e "u" then
              match s2 with
              | String h1 (String h2 (String h3 (String h4 s3))) =>
                  match hex_val h1, hex_val h2, hex_val h3, hex_val h4 with
                  | Some a, Some b, Some c', Some d =>
                      match parse_str s3 with
                      | Some (x, rest) => Some (utf8_unit (((a * 16 + b) * 16 + c') * 16 + d) ++ x, rest)
                      | None => None
                      end
                  | _, _, _, _ => None
                  end
              | _ => None
              end
            else
              match simple_escape e with
              | Some d =>
                  match parse_str s2 with
                  | Some (x, rest) => Some (String d x, rest)
                  | None => None
                  end
              | None => None
              end
        end
      else if (nat_of_ascii c <? 32)%nat then None
      else
        match parse_str s1 with
        | Some (x, rest) => Some (String c x, rest)
        | None => None
        end
  end.

(** The maximal run of decimal digits at the head of [s]. *)
Fixpoint span_digits (s : string) : string * string :=
  match s with
  | "" => ("", "")
  | String c s' =>
      if is_digit c then let (ds, r) := span_digits s' in (String c ds, r) else ("", s)
  end.

Definition leading_zero (ds : string) : bool :=
  match ds with
  | String c (String _ _) => Ascii.eqb c "0"
  | _ => false
  end.

(** A fraction or an exponent follows the integer part. *)
Definition non_integer (rest : string) : bool :=
  match rest with
  | String c _ => Ascii.eqb c "." || Ascii.eqb c "e" || Ascii.eqb c "E"
  | "" => false
  end.

(** A number: an optional minus sign, then [0] or digits not led by
    [0]; its value and the text after it.
    Fractions and exponents are refused, [Json] holding integers. *)
Definition parse_number (s : string) : option (Json * string) :=
  let '(sign, s1) :=
    match s with
    | String c s' => if Ascii.eqb c "-" then ("-", s') else ("", s)
    | "" => ("", s)
    end in
  let '(ds, rest) := span_digits s1 in
  if String.eqb ds "" || leading_zero ds || non_integer rest then None
  else
    match NilZero.int_of_string (sign ++ ds) with
    | Some i => Some (JNum (Z.of_int i), rest)
    | None => None
    end.

Fixpoint strip_prefix (p s : string) : option string :=
  match p, s with
  | "", _ => Some s
  | String a p', String b s' => if Ascii.eqb a b then strip_prefix p' s' else None
  | String _ _, "" => None
  end.

(** [obj[k] = v] on the object being built (CreateDataProperty):
    a repeated name keeps its first place and takes the last value. *)
Fixpoint json_set (o : list (string * Json)) (k : string) (v : Json) : list (string * Json) :=
  match o with
  | [] => [(k, v)]
  | (k', v') :: o' => if String.eqb k k' then (k, v) :: o' else (k', v') :: json_set o' k v
  end.

Definition build_object (kvs : list (string * Json)) : list (string * Json) :=
  fold_left (fun o kv => json_set o (fst kv) (snd kv)) kvs [].

(** The elements of a non-empty array after its [[], read by [pv], up to
    and including the closing []]; at most [g] of them. *)
Fixpoint parse_elems (pv : string -> option (Json * string)) (g : nat) (s : string)
  : option (list Json * string) :=
  match g with
  | O => None
  | S g' =>
      match pv s with
      | Some (v, r1) =>
          match skip_ws r1 with
          | String c r2 =>
              if Ascii.eqb c "," then
                match parse_elems pv g' r2 with
                | Some (vs, r3) => Some (v :: vs, r3)
                | None => None
                end
              else if Ascii.eqb c "]" then Some ([v], r2)
              else None
          | "" => None
          end
      | None => None
      end
  end.

(** The members of a non-empty object after its [{], up to and
    including the closing [}]. *)
Fixpoint parse_members (pv : string -> option (Json * string)) (g : nat) (s : string)
  : option (list (string * Json) * string) :=
  match g with
  | O => None
  | S g' =>
      match skip_ws s with
      | String q s1 =>
          if Ascii.eqb q quote then
            match parse_str s1 with
            | Some (k, r1) =>
                match skip_ws r1 with
                | String c r2 =>
                    if Ascii.eqb c ":" then
                      match pv r2 with
                      | Some (v, r3) =>
                          match skip_ws r3 with
                          | String d r4 =>
                              if Ascii.eqb d "," then
                                match parse_members pv g' r4 with
                                | Some (kvs, r5) => Some ((k, v) :: kvs, r5)
                                | None => None
                                end
                              else if Ascii.eqb d "}" then Some ([(k, v)], r4)
                              else None
                          | "" => None
                          end
                      | None => None
                      end
                    else None
                | "" => None
                end
            | None => None
            end
          else None
      | "" => None
      end
  end.

(** A value after optional white space, and the text after it, the
    values nested in it read by [pv], arrays and objects of at most [f]
    members. *)
Definition parse_value_body (pv : string -> option (Json * string)) (f : nat) (s : string)
  : option (Json * string) :=
  match skip_ws s with
  | "" => None
  | String c r =>
      if Ascii.eqb c quote then
        match parse_str r with
        | Some (x, r') => Some (JStr x, r')
        | None => None
        end
      else if Ascii.eqb c "[" then
        match skip_ws r with
        | String d r' =>
            if Ascii.eqb d "]" then Some (JArr [], r')
            else match parse_elems pv f r with
                 | Some (vs, r'') => Some (JArr vs, r'')
                 | None => None
                 end
        | "" => None
        end
      else if Ascii.eqb c "{" then
        match skip_ws r with
        | String d r' =>
            if Ascii.eqb d "}" then Some (JObj [], r')
            else match parse_members pv f r with
                 | Some (kvs, r'') => Some (JObj (build_object kvs), r'')
                 | None => None
                 end
        | "" => None
        end
      else if Ascii.eqb c "-" || is_digit c then parse_number (String c r)
      else
        match strip_prefix "null" (String c r) with
        | Some r' => Some (JNull, r')
        | None =>
            match strip_prefix "true" (String c r) with
            | Some r' => Some (JBool true, r')
            | None =>
                match strip_prefix "false" (String c r) with
                | Some r' => Some (JBool false, r')
                | None => None
                end
            end
        end
  end.

(** [parse_value_body] with fuel: the fuel bounds the nesting depth
    and the length of each array and object. *)
Fixpoint parse_value (fuel : nat) (s : string) : option (Json * string) :=
  match fuel with
  | O => None
  | S f => parse_value_body (parse_value f) f s
  end.

(** [JSON.parse(text)]: one value, surrounded by white space only; every
    value of the text takes at least one byte, so [length text + 1]
    bounds its depth and the length of its arrays and objects. *)
Definition json_parse (text : string) : string + Json :=
  match parse_value (S (String.length text)) text with
  | Some (v, r) =>
      match skip_ws r with
      | "" => inr v
      | _ => inl "Unexpected non-whitespace character after JSON"
      end
  | None => inl "Unexpected token"
  end.

#[export] Instance js_json : JsonCodec := { stringify := stringify_json; parse := json_parse }.

(** The values a JavaScript program can build: no object with two
    properties of the same name. *)
Fixpoint keys_distinct (l : list (string * Json)) : bool :=
  match l with
  | [] => true
  | (k, _) :: l' => negb (existsb (String.eqb k) (map fst l')) && keys_distinct l'
  end.

Fixpoint wf_json (v : Json) : bool :=
  match v with
  | JArr l => forallb wf_json l
  | JObj l => keys_distinct l && forallb (fun kv => wf_json (snd kv)) l
  | _ => true
  end.

Fixpoint json_size (v : Json) : nat :=
  match v with
  | JArr l => S (list_sum (map json_size l))
  | JObj l => S (list_sum (map (fun kv => json_size (snd kv)) l))
  | _ => 1
  end.

Fixpoint all_digits (s : string) : bool :=
  match s with
  | "" => true
  | String c s' => is_digit c && all_digits s'
  end.

(** A body with every kind of value, escapes included. *)
Definition demo_body : Json :=
  JObj [("name", JStr "x");
        ("tags", JArr [JNum (-3); JBool true; JNull; JObj [];
                       JStr (String quote (String backslash (String (ascii_of_nat 10) "")))])].

(** The texts that can follow a value inside a larger text. *)
Definition ends_value (r : string) : bool :=
  match r with
  | "" => true
  | String c _ => Ascii.eqb c "," || Ascii.eqb c "]" || Ascii.eqb c "}"
  end.

(** ** Strings *)

(** Each byte's escape reads back as the byte: checked on the 256
    bytes. *)
Lemma parse_escape_char c x y r :
  parse_str x = Some (y, r) -> parse_str (escape_char c ++ x) = Some (String c y, r).
Proof.
  intros H. destruct c as [[] [] [] [] [] [] [] []];
  unfold escape_char, hex_lower; simpl; rewrite ?H; reflexivity.
Qed.

Lemma parse_str_escape s r : parse_str (escape s ++ String quote r) = Some (s, r).
Proof.
  induction s as [|c s IH]; [reflexivity|].
  cbn [escape]. rewrite str_app_assoc. now apply parse_escape_char.
Qed.

(** ** Numbers *)

Lemma to_int_norm n : Decimal.norm (Z.to_int n) = Z.to_int n.
Proof. now rewrite <- DecimalZ.to_of, DecimalZ.of_to. Qed.

Lemma uint_digits u : all_digits (NilEmpty.string_of_uint u) = true.
Proof. induction u; simpl; auto. Qed.

Lemma uint_head u : u <> Decimal.Nil ->
  NilZero.string_of_uint u = NilEmpty.string_of_uint u /\
  exists c t, NilEmpty.string_of_uint u = String c t /\ is_digit c = true.
Proof. destruct u; intros H; [congruence|..]; (split; [reflexivity | eexists _, _; split; reflexivity]). Qed.

Lemma uint_leading_zero u :
  (u = Decimal.D0 Decimal.Nil \/ forall u', u <> Decimal.D0 u') ->
  leading_zero (NilEmpty.string_of_uint u) = false.
Proof.
  intros [-> | H]; [reflexivity|].
  destruct u as [|u|u|u|u|u|u|u|u|u|u]; [reflexivity| now destruct (H u) |..];
    simpl; destruct (NilEmpty.string_of_uint u); reflexivity.
Qed.

(** The decimal digits [Z.to_int] gives have no leading zero. *)
Lemma to_int_canonical n :
  exists (neg : bool) u, Z.to_int n = (if neg then Decimal.Neg u else Decimal.Pos u) /\ u <> Decimal.Nil /\
    (u = Decimal.D0 Decimal.Nil \/ forall u', u <> Decimal.D0 u').
Proof.
  pose proof (to_int_norm n) as Hn. destruct (Z.to_int n) as [u|u].
  - injection Hn as Hu. exists false, u. split; [reflexivity|].
    split; [rewrite <- Hu; apply unorm_nonnil|].
    destruct u as [|u|u|u|u|u|u|u|u|u|u]; try (right; intros u' Hd; discriminate Hd).
    destruct (Decimal.uint_eq_dec u Decimal.Nil) as [->|Hnil]; [now left|].
    exfalso. pose proof (nb_digits_unorm u Hnil) as Hle.
    rewrite <- unorm_D0, Hu in Hle. simpl in Hle. lia.
  - simpl in Hn. exists true, u. split; [reflexivity|].
    destruct (Decimal.nzhead u) as [|d|d|d|d|d|d|d|d|d|d] eqn:Hz; try discriminate Hn.
    { now destruct (nzhead_nonzero u d). }
    all: injection Hn as <-; split; [discriminate | right; intros u' Hd; discriminate Hd].
Qed.

Lemma z_to_dec_shape n :
  exists sign ds, z_to_dec n = (sign ++ ds)%string /\ (sign = "" \/ sign = "-") /\
    (exists c t, ds = String c t /\ is_digit c = true) /\ all_digits ds = true /\
    leading_zero ds = false /\ NilZero.int_of_string (sign ++ ds) = Some (Z.to_int n).
Proof.
  destruct (to_int_canonical n) as (neg & u & E & Hnil & Hc).
  destruct (uint_head u Hnil) as [Hs Hh].
  pose proof (NilZero.isi (Z.to_int n)) as Hi. unfold z_to_dec. rewrite E in *.
  exists (if neg then "-" else ""), (NilEmpty.string_of_uint u).
  destruct neg; simpl in *; rewrite Hs in *;
    (split; [reflexivity|]); (split; [auto|]); (split; [exact Hh|]);
    (split; [apply uint_digits|]); (split; [now apply uint_leading_zero|]);
    apply Hi; congruence.
Qed.

Lemma ends_value_head r c t : ends_value r = true -> r = String c t ->
  is_digit c = false /\ is_ws c = false /\ non_integer r = false.
Proof.
  intros H ->. simpl in *.
  pose proof (ascii_forall (fun c => implb (Ascii.eqb c "," || Ascii.eqb c "]" || Ascii.eqb c "}")
     (negb (is_digit c) && negb (is_ws c) && negb (Ascii.eqb c "." || Ascii.eqb c "e" || Ascii.eqb c "E")))
     ltac:(vm_compute; reflexivity) c) as Hc.
  cbv beta in Hc. rewrite H in Hc. simpl in Hc.
  destruct (is_digit c), (is_ws c), (Ascii.eqb c "." || Ascii.eqb c "e" || Ascii.eqb c "E"); easy.
Qed.

Lemma digit_not_minus c : is_digit c = true -> Ascii.eqb c "-" = false.
Proof.
  intros H. pose proof (ascii_forall (fun c => implb (is_digit c) (negb (Ascii.eqb c "-")))
     ltac:(vm_compute; reflexivity) c) as Hc.
  cbv beta in Hc. rewrite H in Hc. now destruct (Ascii.eqb c "-").
Qed.

Lemma span_digits_app ds r : all_digits ds = true -> ends_value r = true ->
  span_digits (ds ++ r) = (ds, r).
Proof.
  intros Hd He. induction ds as [|c ds IH]; cbn [all_digits span_digits append] in *.
  - destruct r as [|c t]; [reflexivity|]. cbn [span_digits].
    now rewrite (proj1 (ends_value_head _ c t He eq_refl)).
  - apply andb_prop in Hd as [-> Hd]. now rewrite IH.
Qed.

Lemma parse_number_app sign ds r :
  (sign = "" \/ sign = "-") -> (exists c t, ds = String c t /\ is_digit c = true) ->
  all_digits ds = true -> leading_zero ds = false -> ends_value r = true ->
  parse_number (sign ++ ds ++ r) =
  match NilZero.int_of_string (sign ++ ds) with
  | Some i => Some (JNum (Z.of_int i), r)
  | None => None
  end.
Proof.
  intros Hs (c & t & -> & Hc) Hd Hl He.
  assert (Hn : non_integer r = false)
    by (destruct r as [|c' t']; [reflexivity | exact (proj2 (proj2 (ends_value_head _ c' t' He eq_refl)))]).
  pose proof (span_digits_app _ _ Hd He) as Hsp. cbn [String.append] in Hsp.
  unfold parse_number. destruct Hs as [-> | ->].
  - cbn [String.append]. rewrite (digit_not_minus c Hc). cbv iota beta.
    rewrite Hsp, Hl, Hn. reflexivity.
  - cbn [String.append]. rewrite Ascii.eqb_refl. cbv iota beta.
    rewrite Hsp, Hl, Hn. reflexivity.
Qed.

Lemma parse_number_print n r : ends_value r = true ->
  parse_number (z_to_dec n ++ r) = Some (JNum n, r).
Proof.
  intros He. destruct (z_to_dec_shape n) as (sign & ds & -> & Hs & Hh & Hd & Hl & Hi).
  rewrite str_app_assoc, (parse_number_app sign ds r Hs Hh Hd Hl He), Hi, DecimalZ.of_to.
  reflexivity.
Qed.

(** ** Nesting *)

Lemma skip_ws_head c t : is_ws c = false -> skip_ws (String c t) = String c t.
Proof. intros H. cbn [skip_ws]. now rewrite H. Qed.

(** A printed value starts with a byte that is neither white space nor
    a closing bracket. *)
Lemma stringify_head v : exists c t, stringify_json v = String c t /\
  is_ws c = false /\ Ascii.eqb c "]" = false /\ Ascii.eqb c "}" = false.
Proof.
  destruct v as [| [] | n | s | l | l]; try (eexists _, _; split; [reflexivity | now split]).
  destruct (z_to_dec_shape n) as (sign & ds & E & [-> | ->] & (c & t & -> & Hc) & _).
  - exists c, t. cbn [stringify_json]. rewrite E. split; [reflexivity|].
    pose proof (ascii_forall (fun c => implb (is_digit c)
       (negb (is_ws c) && negb (Ascii.eqb c "]") && negb (Ascii.eqb c "}")))
       ltac:(vm_compute; reflexivity) c) as Hd.
    cbv beta in Hd. rewrite Hc in Hd. simpl in Hd.
    destruct (is_ws c), (Ascii.eqb c "]"), (Ascii.eqb c "}"); easy.
  - eexists _, _. cbn [stringify_json]. rewrite E. split; [reflexivity | now split].
Qed.

Lemma quote_json_app k t : quote_json k ++ t = String quote (escape k ++ String quote t).
Proof. unfold quote_json. cbn [String.append]. now rewrite str_app_assoc. Qed.

Section Members.
Variable pv : string -> option (Json * string).

Lemma parse_elems_print (l : list Json) g r :
  (forall x r', In x l -> ends_value r' = true -> pv (stringify_json x ++ r') = Some (x, r')) ->
  l <> [] -> length l <= g -> ends_value r = true ->
  parse_elems pv g (join_with "," (map stringify_json l) ++ String "]" r) = Some (l, r).
Proof.
  revert g. induction l as [|x l IH]; intros g Hpv Hne Hg Hr; [congruence|].
  destruct g as [|g]; [simpl in Hg; lia|]. cbn [parse_elems].
  destruct l as [|y l].
  - cbn [map join_with]. rewrite (Hpv x (String "]" r) (or_introl eq_refl) eq_refl). reflexivity.
  - change (join_with "," (map stringify_json (x :: y :: l)))
      with (stringify_json x ++ String "," (join_with "," (map stringify_json (y :: l)))).
    rewrite str_app_assoc. cbn [String.append].
    rewrite (Hpv x (String "," _) (or_introl eq_refl) eq_refl).
    cbv iota beta. rewrite skip_ws_head by reflexivity. cbv iota beta.
    rewrite (IH g); [reflexivity | | discriminate | simpl in *; lia | exact Hr].
    intros z r' Hz. apply Hpv. now right.
Qed.

Lemma parse_members_print (l : list (string * Json)) g r :
  (forall kv r', In kv l -> ends_value r' = true ->
     pv (stringify_json (snd kv) ++ r') = Some (snd kv, r')) ->
  l <> [] -> length l <= g -> ends_value r = true ->
  parse_members pv g
    (join_with "," (map (fun kv => quote_json (fst kv) ++ ":" ++ stringify_json (snd kv)) l)
     ++ String "}" r) = Some (l, r).
Proof.
  revert g. induction l as [|[k x] l IH]; intros g Hpv Hne Hg Hr; [congruence|].
  destruct g as [|g]; [simpl in Hg; lia|]. cbn [parse_members].
  destruct l as [|kv' l].
  - cbn [map join_with fst snd]. rewrite !str_app_assoc, quote_json_app. cbn [String.append].
    rewrite skip_ws_head by reflexivity. cbv iota beta. rewrite Ascii.eqb_refl, parse_str_escape.
    rewrite skip_ws_head by reflexivity. cbv iota beta.
    pose proof (Hpv (k, x) (String "}" r) (or_introl eq_refl) eq_refl) as H. cbn [snd] in H.
    rewrite H. reflexivity.
  - change (join_with "," (map (fun kv => quote_json (fst kv) ++ ":" ++ stringify_json (snd kv))
                               ((k, x) :: kv' :: l)))
      with ((quote_json k ++ ":" ++ stringify_json x) ++ ","
              ++ (join_with "," (map (fun kv => quote_json (fst kv) ++ ":" ++ stringify_json (snd kv))
                                  (kv' :: l)))).
    rewrite !str_app_assoc, quote_json_app. cbn [String.append].
    rewrite skip_ws_head by reflexivity. cbv iota beta. rewrite Ascii.eqb_refl, parse_str_escape.
    rewrite skip_ws_head by reflexivity. cbv iota beta.
    assert (Hx : forall t, ends_value t = true -> pv (stringify_json x ++ t) = Some (x, t))
      by (intros t; apply (Hpv (k, x) t (or_introl eq_refl))).
    rewrite Hx by reflexivity. cbv iota beta. rewrite skip_ws_head by reflexivity. cbv iota beta.
    cbn [String.append] in IH. rewrite (IH g); [reflexivity | | discriminate | simpl in *; lia | exact Hr].
    intros kv r' Hkv. apply Hpv. now right.
Qed.
End Members.

(** ** Objects *)

Lemma json_set_fresh o k v : ~ In k (map fst o) -> json_set o k v = (o ++ [(k, v)])%list.
Proof.
  induction o as [|[k' v'] o IH]; intros H; [reflexivity|]. cbn in *.
  destruct (String.eqb_spec k k') as [->|]; [tauto|]. rewrite IH; tauto.
Qed.

Lemma keys_distinct_cons k v l :
  keys_distinct ((k, v) :: l) = true <-> ~ In k (map fst l) /\ keys_distinct l = true.
Proof.
  cbn. rewrite andb_true_iff, negb_true_iff, <- not_true_iff_false, existsb_exists.
  split; intros [H1 H2]; split; auto.
  - intros Hin. apply H1. exists k. now rewrite String.eqb_refl.
  - intros (k' & Hin & Hk). apply String.eqb_eq in Hk as <-. auto.
Qed.

Lemma fold_json_set l acc :
  keys_distinct l = true -> (forall k, In k (map fst l) -> ~ In k (map fst acc)) ->
  fold_left (fun o kv => json_set o (fst kv) (snd kv)) l acc = (acc ++ l)%list.
Proof.
  revert acc. induction l as [|[k v] l IH]; intros acc Hd Hacc; cbn [fold_left fst snd].
  - now rewrite List.app_nil_r.
  - apply keys_distinct_cons in Hd as [Hk Hd].
    rewrite json_set_fresh by (apply Hacc; now left).
    rewrite IH; [now rewrite <- List.app_assoc | exact Hd |].
    intros k' Hin. rewrite map_app, in_app_iff. intros [H | [H | []]].
    + apply (Hacc k'); [now right | exact H].
    + cbn in H. subst. contradiction.
Qed.

(** Parsed members with distinct names build the object in their order. *)
Lemma build_object_distinct l : keys_distinct l = true -> build_object l = l.
Proof. intros H. unfold build_object. rewrite fold_json_set; auto. Qed.

(** ** Values *)

Lemma number_head c : Ascii.eqb c "-" || is_digit c = true ->
  is_ws c = false /\ Ascii.eqb c quote = false /\ Ascii.eqb c "[" = false /\ Ascii.eqb c "{" = false.
Proof.
  intros H. pose proof (ascii_forall (fun c => implb (Ascii.eqb c "-" || is_digit c)
     (negb (is_ws c) && negb (Ascii.eqb c quote) && negb (Ascii.eqb c "[") && negb (Ascii.eqb c "{")))
     ltac:(vm_compute; reflexivity) c) as Hc.
  cbv beta in Hc. rewrite H in Hc. simpl in Hc.
  destruct (is_ws c), (Ascii.eqb c quote), (Ascii.eqb c "["), (Ascii.eqb c "{"); easy.
Qed.

Lemma parse_value_number f n r : ends_value r = true ->
  parse_value (S f) (z_to_dec n ++ r) = Some (JNum n, r).
Proof.
  intros Hr. pose proof (parse_number_print n r Hr) as Hp.
  destruct (z_to_dec_shape n) as (sign & ds & E & Hs & (c & t & -> & Hc) & _).
  assert (Hh : exists c' t', z_to_dec n ++ r = String c' t' /\ Ascii.eqb c' "-" || is_digit c' = true)
    by (rewrite E; destruct Hs as [-> | ->]; eexists _, _; split; [reflexivity | rewrite ?Hc, ?orb_true_r; reflexivity | reflexivity | reflexivity]).
  destruct Hh as (c' & t' & Ht & Hc'). rewrite Ht in *.
  destruct (number_head c' Hc') as (Hw & Hq & Hb & Hbr).
  cbn [parse_value]; unfold parse_value_body. rewrite skip_ws_head by exact Hw. rewrite Hq, Hb, Hbr, Hc'. exact Hp.
Qed.

Lemma json_size_pos v : 1 <= json_size v.
Proof. destruct v; simpl; lia. Qed.

Lemma join_head {A} (p : A -> string) x l : exists t, join_with "," (map p (x :: l)) = p x ++ t.
Proof.
  destruct l as [|y l]; [exists ""; now rewrite str_app_nil_r|].
  eexists. reflexivity.
Qed.

(** The array and object cases of [parse_value_print], given the
    property for every member. *)
Section Print_compound.
Variables (f : nat) (r : string).
Hypothesis Hr : ends_value r = true.

Lemma parse_value_print_array x l' :
  Forall (fun v => wf_json v = true -> forall f r, json_size v <= f -> ends_value r = true ->
            parse_value f (stringify_json v ++ r) = Some (v, r)) (x :: l') ->
  wf_json (JArr (x :: l')) = true -> json_size (JArr (x :: l')) <= S f ->
  parse_value (S f) (stringify_json (JArr (x :: l')) ++ r) = Some (JArr (x :: l'), r).
Proof.
  intros IH Hwf Hf.
  cbn [stringify_json]. rewrite !str_app_assoc. cbn [String.append parse_value]; unfold parse_value_body.
  rewrite skip_ws_head by reflexivity. cbv iota beta.
  replace (Ascii.eqb "[" quote) with false by reflexivity. rewrite Ascii.eqb_refl.
  assert (He : parse_elems (parse_value f) f
                 (join_with "," (map stringify_json (x :: l')) ++ String "]" r) = Some (x :: l', r)).
  { change (forallb wf_json (x :: l') = true) in Hwf.
    change (S (list_sum (map json_size (x :: l'))) <= S f) in Hf.
    apply parse_elems_print; [| discriminate | | exact Hr].
    - intros y r' Hy Hr'. apply (proj1 (Forall_forall _ _) IH y Hy); [| | exact Hr'].
      + rewrite forallb_forall in Hwf. now apply Hwf.
      + pose proof (list_sum_in json_size y (x :: l') Hy). lia.
    - pose proof (list_sum_length json_size (x :: l') json_size_pos). lia. }
  destruct (join_head stringify_json x l') as [t Ht].
  destruct (stringify_head x) as (c & t0 & Hx & Hw & Hb & _).
  rewrite Ht, Hx in He |- *. cbn [String.append] in He |- *.
  rewrite skip_ws_head by exact Hw. rewrite Hb, He. reflexivity.
Qed.

Lemma parse_value_print_object k x l' :
  Forall (fun kv => (fun v => wf_json v = true -> forall f r, json_size v <= f -> ends_value r = true ->
            parse_value f (stringify_json v ++ r) = Some (v, r)) (snd kv)) ((k, x) :: l') ->
  wf_json (JObj ((k, x) :: l')) = true -> json_size (JObj ((k, x) :: l')) <= S f ->
  parse_value (S f) (stringify_json (JObj ((k, x) :: l')) ++ r) = Some (JObj ((k, x) :: l'), r).
Proof.
  intros IH Hwf Hf.
  change (keys_distinct ((k, x) :: l') && forallb (fun kv => wf_json (snd kv)) ((k, x) :: l') = true)
    in Hwf.
  apply andb_prop in Hwf as [Hd Hwf].
  change (S (list_sum (map (fun kv => json_size (snd kv)) ((k, x) :: l'))) <= S f) in Hf.
  cbn [stringify_json].
  set (p := fun kv : string * Json => quote_json (fst kv) ++ ":" ++ stringify_json (snd kv)).
  rewrite !str_app_assoc. cbn [String.append parse_value]; unfold parse_value_body.
  rewrite skip_ws_head by reflexivity. cbv iota beta.
  replace (Ascii.eqb "{" quote) with false by reflexivity.
  replace (Ascii.eqb "{" "[") with false by reflexivity. rewrite Ascii.eqb_refl.
  assert (He : parse_members (parse_value f) f
                 (join_with "," (map p ((k, x) :: l')) ++ String "}" r) = Some ((k, x) :: l', r)).
  { apply parse_members_print; [| discriminate | | exact Hr].
    - intros kv r' Hkv Hr'. apply (proj1 (Forall_forall _ _) IH kv Hkv); [| | exact Hr'].
      + rewrite forallb_forall in Hwf. now apply Hwf.
      + pose proof (list_sum_in (fun kv => json_size (snd kv)) kv _ Hkv). cbn beta in *. lia.
    - pose proof (list_sum_length (fun kv => json_size (snd kv)) ((k, x) :: l')
                    (fun kv => json_size_pos (snd kv))). lia. }
  destruct (join_head p (k, x) l') as [t Ht].
  rewrite Ht in He |- *. subst p. cbn beta in He |- *. rewrite quote_json_app in He |- *.
  cbn [String.append] in He |- *.
  rewrite skip_ws_head by reflexivity.
  replace (Ascii.eqb quote "}") with false by reflexivity. rewrite He, build_object_distinct by exact Hd.
  reflexivity.
Qed.

End Print_compound.

Theorem parse_value_print v : wf_json v = true -> forall f r, json_size v <= f -> ends_value r = true ->
  parse_value f (stringify_json v ++ r) = Some (v, r).
Proof.
  induction v as [| b | n | s | l IH | l IH] using json_ind'; intros Hwf f r Hf Hr;
    (destruct f as [|f]; [cbn in Hf; lia|]).
  - reflexivity.
  - destruct b; reflexivity.
  - now apply parse_value_number.
  - cbn [stringify_json]. rewrite quote_json_app. cbn [parse_value]; unfold parse_value_body.
    rewrite skip_ws_head by reflexivity. cbv iota beta. rewrite Ascii.eqb_refl, parse_str_escape. reflexivity.
  - destruct l as [|x l']; [reflexivity|]. now apply parse_value_print_array.
  - destruct l as [|[k x] l']; [reflexivity|]. now apply parse_value_print_object.
Qed.

Lemma join_length l : list_sum (map String.length l) <= String.length (join_with "," l).
Proof.
  induction l as [|x [|y l] IH]; [simpl; lia | simpl; lia |].
  change (join_with "," (x :: y :: l)) with (x ++ "," ++ join_with "," (y :: l)).
  rewrite !str_length_app. cbn [map list_sum] in *. change (String.length ",") with 1. cbn [list_sum fold_right] in *. lia.
Qed.

(** Every value takes at least one byte per node of its text, so the
    fuel [json_parse] gives is enough. *)
Lemma json_size_length v : json_size v <= String.length (stringify_json v).
Proof.
  induction v as [| b | n | s | l IH | l IH] using json_ind'.
  - simpl; lia.
  - destruct b; simpl; lia.
  - destruct (z_to_dec_shape n) as (sign & ds & E & _ & (c & t & -> & _) & _).
    cbn [stringify_json json_size]. rewrite E, str_length_app. simpl. lia.
  - simpl. lia.
  - change (S (list_sum (map json_size l)) <= String.length ("[" ++ join_with "," (map stringify_json l) ++ "]")).
    rewrite !str_length_app.
    pose proof (join_length (map stringify_json l)) as Hj. rewrite map_map in Hj.
    pose proof (list_sum_le json_size (fun x => String.length (stringify_json x)) l
                  (fun x Hx => proj1 (Forall_forall _ _) IH x Hx)). simpl. lia.
  - change (S (list_sum (map (fun kv => json_size (snd kv)) l)) <=
            String.length ("{" ++ join_with "," (map (fun kv => quote_json (fst kv) ++ ":" ++ stringify_json (snd kv)) l) ++ "}")).
    rewrite !str_length_app.
    pose proof (join_length (map (fun kv => quote_json (fst kv) ++ ":" ++ stringify_json (snd kv)) l)) as Hj.
    rewrite map_map in Hj.
    assert (Hm : forall kv, In kv l -> json_size (snd kv) <=
                   String.length (quote_json (fst kv) ++ ":" ++ stringify_json (snd kv))).
    { intros kv Hkv. rewrite !str_length_app. pose proof (proj1 (Forall_forall _ _) IH kv Hkv) as H.
      cbv beta in H. lia. }
    pose proof (list_sum_le _ _ l Hm). cbn [String.length]. lia.
Qed.

Lemma stringify_parse v : wf_json v = true -> json_parse (stringify_json v) = inr v.
Proof.
  intros Hwf. unfold json_parse.
  pose proof (parse_value_print v Hwf (S (String.length (stringify_json v))) ""
                ltac:(pose proof (json_size_length v); lia) eq_refl) as H.
  rewrite str_app_nil_r in H. now rewrite H.
Qed.

(** C31 (roundtrip).  [JSON.parse(JSON.stringify(v))] gives [v] back
    for every value a program can build: the body [post] and [put] send
    is read by the server as the value the caller passed. *)
Theorem json_roundtrip v : wf_json v = true -> parse (stringify v) = inr v.
Proof. exact (stringify_parse v). Qed.

(** ** Witnesses *)

Lemma json_roundtrip_witness :
  wf_json demo_body = true /\ parse (stringify demo_body) = inr demo_body.
Proof. split; [reflexivity | apply json_roundtrip; reflexivity]. Defined.

End JsonText.
