(* ===== verification/JsonParse.v ===== *)
(** * What [JSON.parse] returns, and why its fuel is enough

    Two properties of [JsonText.json_parse] on every text, not only on
    printed ones: the values it returns are ones a JavaScript program
    can build ([wf_json]: a name repeated in an object's text keeps its
    first place and takes its last value, as CreateDataProperty does);
    and the fuel of [parse_value] is not observable: every step of the
    parser leaves a strictly shorter text, so any fuel above the
    length of the text gives the result [json_parse] computes with
    [length text + 1].  A parse that fails therefore fails on the
    grammar, never on the fuel. *)

From Stdlib Require Import ZArith Ascii String List Lia Bool Arith DecimalString.
From S2P Require Import Prelude.
From S2P Require Import Async.
From S2P Require Import Json.
From S2P Require Import JsonText.
Import ListNotations.
Open Scope string_scope.
Open Scope nat_scope.

Module JsonParse.
Import JsonText.

(** An object text that names [a] twice: [{"a":1,"a":2}]. *)
Definition dup_text : string :=
  let q := String quote "" in
  "{" ++ q ++ "a" ++ q ++ ":1," ++ q ++ "a" ++ q ++ ":2}".

(** Case analysis on the matches of a hypothesis. *)
Ltac destruct_matches H :=
  repeat match type of H with
         | context [match ?x with _ => _ end] => destruct x eqn:?
         | context [if ?x then _ else _] => destruct x eqn:?
         end.

(** ** Names of a parsed object *)

Lemma json_set_keys o k v x :
  In x (map fst (json_set o k v)) -> In x (map fst o) \/ x = k.
Proof.
  induction o as [|[k' v'] o IH]; cbn; [intuition|].
  destruct (String.eqb k k'); cbn; intuition.
Qed.

Lemma json_set_distinct o k v : keys_distinct o = true -> keys_distinct (json_set o k v) = true.
Proof.
  induction o as [|[k' v'] o IH]; intros H; [reflexivity|]. cbn [json_set].
  apply keys_distinct_cons in H as [Hk Hd].
  destruct (String.eqb_spec k k') as [->|Hne]; apply keys_distinct_cons; split; auto.
  intros Hin. apply json_set_keys in Hin as [Hin | ->]; auto.
Qed.

Lemma json_set_values (P : Json -> Prop) o k v :
  Forall (fun kv => P (snd kv)) o -> P v -> Forall (fun kv => P (snd kv)) (json_set o k v).
Proof.
  induction o as [|[k' v'] o IH]; intros Ho Hv; cbn; [auto|].
  inversion Ho; subst. destruct (String.eqb k k'); auto.
Qed.

Lemma build_object_wf (P : Json -> Prop) kvs :
  Forall (fun kv => P (snd kv)) kvs ->
  keys_distinct (build_object kvs) = true /\ Forall (fun kv => P (snd kv)) (build_object kvs).
Proof.
  unfold build_object.
  enough (H : forall acc, keys_distinct acc = true -> Forall (fun kv => P (snd kv)) acc ->
            Forall (fun kv => P (snd kv)) kvs ->
            let o := fold_left (fun o kv => json_set o (fst kv) (snd kv)) kvs acc in
            keys_distinct o = true /\ Forall (fun kv => P (snd kv)) o)
    by (intros Hkv; apply H; auto).
  induction kvs as [|[k v] kvs IH]; intros acc Hd Hacc Hkv; cbn; [auto|].
  inversion Hkv; subst. apply IH; auto using json_set_distinct, json_set_values.
Qed.

(** ** Parsed values are well formed *)

Section Members.
Variable pv : string -> option (Json * string).
Hypothesis pv_wf : forall t x t', pv t = Some (x, t') -> wf_json x = true.

Lemma parse_elems_wf g s vs r : parse_elems pv g s = Some (vs, r) -> forallb wf_json vs = true.
Proof.
  revert s vs r. induction g as [|g IH]; intros s vs r H; cbn [parse_elems] in H; [discriminate|].
  destruct_matches H; inversion H; subst; cbn; rewrite (pv_wf _ _ _ Heqo); cbn; eauto.
Qed.

Lemma parse_members_wf g s kvs r :
  parse_members pv g s = Some (kvs, r) -> Forall (fun kv => wf_json (snd kv) = true) kvs.
Proof.
  revert s kvs r. induction g as [|g IH]; intros s kvs r H; cbn [parse_members] in H; [discriminate|].
  destruct_matches H; inversion H; subst; constructor; eauto.
Qed.
End Members.

Lemma parse_number_num s v r : parse_number s = Some (v, r) -> exists n, v = JNum n.
Proof. unfold parse_number. intros H. destruct_matches H; inversion H; eauto. Qed.

Lemma parse_value_wf f s v r : parse_value f s = Some (v, r) -> wf_json v = true.
Proof.
  revert s v r. induction f as [|f IH]; intros s v r H; cbn [parse_value] in H; [discriminate|].
  unfold parse_value_body in H.
  destruct_matches H; inversion H; subst; try reflexivity.
  - eapply parse_elems_wf; eauto.
  - apply andb_true_intro. destruct (build_object_wf (fun x => wf_json x = true) l) as [Hd Hf].
    + eapply parse_members_wf; eauto.
    + split; [exact Hd|]. apply forallb_forall. intros kv Hkv. exact (proj1 (Forall_forall _ _) Hf kv Hkv).
  - destruct (parse_number_num _ _ _ H) as [n ->]. reflexivity.
Qed.

(** ** A parse consumes text *)

Lemma skip_ws_length s : String.length (skip_ws s) <= String.length s.
Proof. induction s as [|c s IH]; cbn; [lia|]. destruct (is_ws c); cbn; lia. Qed.

(** [skip_ws] followed by a byte leaves a shorter text. *)
Lemma skip_ws_cons s c t : skip_ws s = String c t -> String.length t < String.length s.
Proof. intros H. pose proof (skip_ws_length s) as Hl. rewrite H in Hl. cbn in Hl. lia. Qed.

Lemma parse_str_shorter n : forall s x r, String.length s <= n ->
  parse_str s = Some (x, r) -> String.length r < String.length s.
Proof.
  induction n as [|n IH]; intros s x r Hn H; (destruct s as [|c s1]; [discriminate|]); cbn in Hn; [lia|].
  cbn [parse_str] in H. destruct_matches H; inversion H; subst; cbn; try lia;
    match goal with E : parse_str ?t = Some _ |- _ => apply IH in E; cbn in *; lia end.
Qed.

Lemma span_digits_length s :
  String.length (fst (span_digits s)) + String.length (snd (span_digits s)) = String.length s.
Proof.
  induction s as [|c s IH]; cbn; [reflexivity|].
  destruct (is_digit c); [destruct (span_digits s) as [ds r]|]; cbn in *; lia.
Qed.

Lemma parse_digits_shorter s1 sign v r :
  (let '(ds, rest) := span_digits s1 in
   if String.eqb ds "" || leading_zero ds || non_integer rest then None
   else match NilZero.int_of_string (sign ++ ds) with
        | Some i => Some (JNum (Z.of_int i), rest)
        | None => None
        end) = Some (v, r) ->
  String.length r < String.length s1.
Proof.
  pose proof (span_digits_length s1) as Hl. destruct (span_digits s1) as [[|d ds] rest]; cbn in *;
    [discriminate|]. intros H. destruct_matches H; inversion H; subst. lia.
Qed.

Lemma parse_number_shorter s v r : parse_number s = Some (v, r) -> String.length r < String.length s.
Proof.
  unfold parse_number. destruct s as [|c s1]; cbn [String.length].
  - intros H. apply parse_digits_shorter in H. cbn in H. lia.
  - destruct (Ascii.eqb c "-"); intros H; apply parse_digits_shorter in H; cbn in *; lia.
Qed.

Lemma strip_prefix_length p s r :
  strip_prefix p s = Some r -> String.length r + String.length p = String.length s.
Proof.
  revert s. induction p as [|a p IH]; intros [|b s] H; cbn in H; try discriminate.
  - injection H as <-. cbn. lia.
  - injection H as <-. cbn. lia.
  - destruct (Ascii.eqb a b); [apply IH in H; cbn; lia | discriminate].
Qed.

Section Consume.
Variable pv : string -> option (Json * string).
Hypothesis pv_shorter : forall t x t', pv t = Some (x, t') -> String.length t' < String.length t.

Lemma parse_elems_shorter g s vs r :
  parse_elems pv g s = Some (vs, r) -> String.length r < String.length s.
Proof.
  revert s vs r. induction g as [|g IH]; intros s vs r H; cbn [parse_elems] in H; [discriminate|].
  destruct_matches H; inversion H; subst;
    repeat match goal with
           | E : pv _ = Some _ |- _ => apply pv_shorter in E
           | E : skip_ws _ = String _ _ |- _ => apply skip_ws_cons in E
           | E : parse_elems _ _ _ = Some _ |- _ => apply IH in E
           end; lia.
Qed.

Lemma parse_members_shorter g s kvs r :
  parse_members pv g s = Some (kvs, r) -> String.length r < String.length s.
Proof.
  revert s kvs r. induction g as [|g IH]; intros s kvs r H; cbn [parse_members] in H; [discriminate|].
  destruct_matches H; inversion H; subst;
    repeat match goal with
           | E : pv _ = Some _ |- _ => apply pv_shorter in E
           | E : skip_ws _ = String _ _ |- _ => apply skip_ws_cons in E
           | E : parse_str _ = Some _ |- _ => apply (parse_str_shorter _ _ _ _ (le_n _)) in E
           | E : parse_members _ _ _ = Some _ |- _ => apply IH in E
           end; lia.
Qed.
End Consume.

Lemma parse_value_shorter f s v r :
  parse_value f s = Some (v, r) -> String.length r < String.length s.
Proof.
  revert s v r. induction f as [|f IH]; intros s v r H; cbn [parse_value] in H; [discriminate|].
  unfold parse_value_body in H.
  pose proof (skip_ws_length s) as Hs.
  destruct_matches H; inversion H; subst;
    repeat match goal with
           | E : skip_ws _ = String _ _ |- _ => apply skip_ws_cons in E
           | E : parse_str _ = Some _ |- _ => apply (parse_str_shorter _ _ _ _ (le_n _)) in E
           | E : parse_elems _ _ _ = Some _ |- _ => apply (parse_elems_shorter _ IH) in E
           | E : parse_members _ _ _ = Some _ |- _ => apply (parse_members_shorter _ IH) in E
           | E : strip_prefix _ _ = Some _ |- _ => apply strip_prefix_length in E
           | E : parse_number _ = Some _ |- _ => apply parse_number_shorter in E
           end; cbn in *; try lia.
Qed.

(** ** The fuel is not observable *)

Section Agree.
Variables pv1 pv2 : string -> option (Json * string).
Hypothesis pv1_shorter : forall t x t', pv1 t = Some (x, t') -> String.length t' < String.length t.

Lemma parse_elems_fuel g1 g2 s :
  (forall t, String.length t <= String.length s -> pv1 t = pv2 t) ->
  String.length s < g1 -> String.length s < g2 ->
  parse_elems pv1 g1 s = parse_elems pv2 g2 s.
Proof.
  revert g2 s. induction g1 as [|g1 IH]; intros [|g2] s Hag H1 H2; try lia. cbn [parse_elems].
  rewrite <- (Hag s (le_n _)).
  destruct (pv1 s) as [[v r1]|] eqn:E; [|reflexivity]. apply pv1_shorter in E.
  destruct (skip_ws r1) as [|c r2] eqn:Es; [reflexivity|]. apply skip_ws_cons in Es.
  rewrite (IH g2 r2); [reflexivity | | lia | lia]. intros t Ht. apply Hag. lia.
Qed.

Lemma parse_members_fuel g1 g2 s :
  (forall t, String.length t <= String.length s -> pv1 t = pv2 t) ->
  String.length s < g1 -> String.length s < g2 ->
  parse_members pv1 g1 s = parse_members pv2 g2 s.
Proof.
  revert g2 s. induction g1 as [|g1 IH]; intros [|g2] s Hag H1 H2; try lia. cbn [parse_members].
  destruct (skip_ws s) as [|q s1] eqn:Es; [reflexivity|]. apply skip_ws_cons in Es.
  destruct (Ascii.eqb q quote); [|reflexivity].
  destruct (parse_str s1) as [[k r1]|] eqn:Ek; [|reflexivity].
  apply (parse_str_shorter _ _ _ _ (le_n _)) in Ek.
  destruct (skip_ws r1) as [|c r2] eqn:Ec; [reflexivity|]. apply skip_ws_cons in Ec.
  destruct (Ascii.eqb c ":"); [|reflexivity].
  rewrite <- (Hag r2) by lia.
  destruct (pv1 r2) as [[v r3]|] eqn:Ev; [|reflexivity]. apply pv1_shorter in Ev.
  destruct (skip_ws r3) as [|d r4] eqn:Ed; [reflexivity|]. apply skip_ws_cons in Ed.
  rewrite (IH g2 r4); [reflexivity | | lia | lia]. intros t Ht. apply Hag. lia.
Qed.

(** Two value parsers that agree on the shorter texts read a value
    alike, given fuel for the arrays and objects in the text. *)
Lemma parse_value_body_agree f1 f2 s :
  (forall t, String.length t < String.length s -> pv1 t = pv2 t) ->
  String.length s <= f1 -> String.length s <= f2 ->
  parse_value_body pv1 f1 s = parse_value_body pv2 f2 s.
Proof.
  intros Hag H1 H2. unfold parse_value_body.
  destruct (skip_ws s) as [|c r] eqn:Es; [reflexivity|]. apply skip_ws_cons in Es.
  rewrite (parse_elems_fuel f1 f2 r), (parse_members_fuel f1 f2 r)
    by (try (intros t Ht; apply Hag); lia).
  reflexivity.
Qed.
End Agree.

(** One more unit of fuel than the length of the text changes nothing. *)
Lemma parse_value_step f s :
  String.length s < f -> parse_value (S f) s = parse_value f s.
Proof.
  revert s. induction f as [|f IH]; intros s Hs; [lia|].
  change (parse_value_body (parse_value (S f)) (S f) s = parse_value_body (parse_value f) f s).
  apply parse_value_body_agree; [apply parse_value_shorter | | lia | lia].
  intros t Ht. apply IH. lia.
Qed.

(** ** Properties of [JSON.parse] *)

(** C34 (type).  Every value [JSON.parse] returns is well formed: no
    object in it has two properties of the same name, whatever the
    text repeats, so it is a value a JavaScript program can build and
    [JSON.stringify] prints back ([JsonText.json_roundtrip]). *)
Theorem json_parse_wf s v : json_parse s = inr v -> wf_json v = true.
Proof.
  unfold json_parse. intros H.
  destruct (parse_value _ s) as [[v' r]|] eqn:E; [|discriminate].
  destruct (skip_ws r); [injection H as <- | discriminate].
  exact (parse_value_wf _ _ _ _ E).
Qed.

(** ** Adequacy of the fuel *)

(** The fuel of the parser is not observable: on every text, any fuel
    above its length gives the result that [json_parse] computes with
    [length + 1]. *)
Lemma parse_value_fuel s f :
  String.length s < f -> parse_value f s = parse_value (S (String.length s)) s.
Proof.
  induction f as [|f IH]; intros H; [lia|].
  destruct (Nat.eq_dec f (String.length s)) as [->|Hne]; [reflexivity|].
  rewrite parse_value_step by lia. apply IH. lia.
Qed.

(** ** Witnesses *)

Lemma json_parse_wf_witness :
  json_parse dup_text = inr (JObj [("a", JNum 2)]) /\ wf_json (JObj [("a", JNum 2)]) = true.
Proof.
  assert (H : json_parse dup_text = inr (JObj [("a", JNum 2)])) by (vm_compute; reflexivity).
  split; [exact H | exact (json_parse_wf _ _ H)].
Defined.

End JsonParse.
