(* ===== verification/Fetcher.v ===== *)
(** * The request client of [src/src/apis/fetcher.ts]

    [Module Fetcher] models the class [Fetcher]: its options record,
    constants, constructor, the private [request] with its timeout,
    [try]/[catch] and retry, and the four public verbs.  [request] is
    written in the promise monad of [Async]; the promise that the [try]
    block returns ([response.json()]) and the one the [catch] block
    returns ([this.request(...)]) are values of [M Json] that the call
    adopts after the [try]/[catch], as in the source, where neither is
    awaited inside the [try].

    The abstract contract [retry_contract] is a pure function of the
    outcomes of the successive attempts; [request_refines] proves that
    [request] implements it, with the number of [fetch] calls, the time
    spent and the timer table. *)

From Stdlib Require Import ZArith String List Lia Bool.
From Stdlib Require Import Morphisms.
From S2P Require Import Prelude.
From S2P Require Import Async.
From S2P Require Import Json.
From S2P Require Import JsonText.
Import ListNotations.

Open Scope string_scope.
Open Scope Z_scope.
Open Scope gj_scope.
Open Scope async_scope.

Module Fetcher.

(** [interface FetchOptions extends RequestInit] (lines 1-5): the three
    fields of the client, then the [RequestInit] fields it passes on. *)
Record FetchOptions := mkOptions {
  timeout : option Z;
  retries : option Z;
  retryDelay : option Z;
  method : option HttpMethod;
  req_body : option string;
  headers : option HeadersInit;
  credentials : option Credentials;
  signal : option Signal;
  cache : option string }.

(** [{}] *)
Definition no_options : FetchOptions :=
  mkOptions None None None None None None None None None.

Definition BASE_URL : string := "/api".
Definition DEFAULT_TIMEOUT : Z := 10000.
Definition DEFAULT_RETRIES : Z := 1.
Definition DEFAULT_RETRY_DELAY : Z := 500.

Record Fetcher := mkFetcher { baseUrl : string }.

(** [constructor(baseUrl = '')] *)
Definition new_Fetcher (baseUrl : option string) : Fetcher :=
  mkFetcher (BASE_URL ++ (baseUrl ?? "")).

(** [{ ...options, retries: r }] *)
Definition with_retries (o : FetchOptions) (r : Z) : FetchOptions :=
  mkOptions (timeout o) (Some r) (retryDelay o) (method o) (req_body o)
            (headers o) (credentials o) (signal o) (cache o).

(** [{ ...options, method: m }] *)
Definition with_method (o : FetchOptions) (m : HttpMethod) : FetchOptions :=
  mkOptions (timeout o) (retries o) (retryDelay o) (Some m) (req_body o)
            (headers o) (credentials o) (signal o) (cache o).

(** [{ ...options, body: b }] *)
Definition with_body (o : FetchOptions) (b : string) : FetchOptions :=
  mkOptions (timeout o) (retries o) (retryDelay o) (method o) (Some b)
            (headers o) (credentials o) (signal o) (cache o).

(** The init of the [fetch] call (lines 34-42): the rest of the options
    ([timeout], [retries] and [retryDelay] taken out), then [signal],
    [credentials] and [headers] overriding; the headers record is the
    default [Content-Type] spread over by the caller's [headers]. *)
Definition request_init (fetchOptions : FetchOptions) (controller : nat) : RequestInit :=
  mkInit (method fetchOptions) (req_body fetchOptions)
         (obj_spread [("Content-Type", "application/json")] (spread_source (headers fetchOptions)))
         (Some CredInclude) (Some (ControllerSignal controller)) (cache fetchOptions).

(** [new Error(`HTTP error! status: ${response.status}`)] *)
Definition http_error (st : Z) : Thrown :=
  JsError "Error" ("HTTP error! status: " ++ z_to_dec st).

(** [error instanceof Error ? error.message : 'Unknown error'] *)
Definition error_message_or_unknown (e : Thrown) : string :=
  match e with
  | JsError _ m => m
  | JsNonError => "Unknown error"
  end.

(** The error of lines 62-64. *)
Definition final_error (e : Thrown) : Thrown :=
  JsError "Error" ("Request failed after " ++ z_to_dec DEFAULT_RETRIES ++ " retries: "
                   ++ error_message_or_unknown e).

(** The outcome of one attempt: a response, or a thrown value (network
    error, abort, or the [TypeError] of a GET with a body). *)
Inductive Attempt :=
| AResp (r : Response)
| AFail (e : Thrown).

Section Client.
Context {codec : JsonCodec}.
Variable net : nat -> WireRequest -> Reply.

(** [private async request<T>(url, options = {})], lines 19-66.  The
    fuel bounds the recursion of line 56. *)
Fixpoint request (fuel : nat) (self : Fetcher) (url : string) (options : FetchOptions)
  : M Json :=
  match fuel with
  | O => pending
  | S fuel' =>
      let timeout := timeout options ?? DEFAULT_TIMEOUT in
      let retries := retries options ?? DEFAULT_RETRIES in
      let retryDelay := retryDelay options ?? DEFAULT_RETRY_DELAY in
      controller <- new_AbortController ;;
      timeoutId <- setTimeout (FireAbort controller) timeout ;;
      join (try_catch
        (response <- fetch net (baseUrl self ++ url) (request_init options controller) ;;
         clearTimeout timeoutId ;;
         if negb (resp_ok response) then throw (http_error (status response))
         else ret (response_json response))
        (fun error =>
         clearTimeout timeoutId ;;
         if 0 <? retries then
           sleep retryDelay ;;
           ret (request fuel' self url (with_retries options (retries - 1)))
         else throw (final_error error)))
  end.

(** The verbs, lines 68-110: the method (and for [post]/[put] the
    serialised body) override the caller's options. *)
Definition get (fuel : nat) (self : Fetcher) (url : string) (options : FetchOptions) : M Json :=
  request fuel self url (with_method options GET).

Definition post (fuel : nat) (self : Fetcher) (url : string) (b : Json) (options : FetchOptions)
  : M Json :=
  request fuel self url (with_body (with_method options POST) (stringify b)).

Definition put (fuel : nat) (self : Fetcher) (url : string) (b : Json) (options : FetchOptions)
  : M Json :=
  request fuel self url (with_body (with_method options PUT) (stringify b)).

Definition delete (fuel : nat) (self : Fetcher) (url : string) (options : FetchOptions)
  : M Json :=
  request fuel self url (with_method options DELETE).

(** ** The abstract contract *)

(** What one attempt produced once the race with the abort timer is
    decided, and the time it took. *)
Definition race (d : Z) (pre : option Thrown) (rp : Reply) : Attempt * Z :=
  match pre with
  | Some e => (AFail e, 0)
  | None =>
      match reply_latency rp with
      | None => (AFail abort_error, d)
      | Some lat =>
          if d <=? lat then (AFail abort_error, d)
          else match rp with
               | Respond _ r => (AResp r, lat)
               | NetFail _ e => (AFail e, lat)
               | NoReply => (AFail abort_error, d)
               end
      end
  end.

(** The retry contract of section 4.1 of the spec, as the code has it:
    attempt [k] either succeeds with a 2xx response, whose body is
    read and decoded by [response.json()] outside the [try] and ends the
    call with that outcome (after the body's read time), or fails; a failure with budget [n] left
    ends the call with the wrapped error when [n = 0], and otherwise
    waits [dr] and makes attempt [k + 1] with budget [n - 1].  The
    result is the outcome, the number of attempts and the time spent. *)
Fixpoint retry_contract (att : nat -> Attempt * Z) (dr : Z) (n k : nat)
  : Outcome Json * nat * Z :=
  let fail e t :=
    match n with
    | O => (Rejected (final_error e), 1%nat, t)
    | S n' =>
        let '(o, c, t') := retry_contract att dr n' (S k) in (o, S c, t + dr + t')
    end in
  match att k with
  | (AResp r, t) =>
      if resp_ok r then (read_json r, 1%nat, t + body_wait r)
      else fail (http_error (status r)) t
  | (AFail e, t) => fail e t
  end.

Definition attempt_outcome (a : Attempt) : Outcome Response :=
  match a with AResp r => Resolved r | AFail e => Rejected e end.

(** The error an attempt fails with, if it fails. *)
Definition attempt_error (a : Attempt) : option Thrown :=
  match a with
  | AResp r => if resp_ok r then None else Some (http_error (status r))
  | AFail e => Some e
  end.

(** Time spent by attempts [k .. k + N - 1] and the waits after them. *)
Fixpoint failed_time (att : nat -> Attempt * Z) (dr : Z) (k N : nat) : Z :=
  match N with
  | O => 0
  | S N' => snd (att k) + dr + failed_time att dr (S k) N'
  end.

(** The request every attempt of a call puts on the wire. *)
Definition wire_of (self : Fetcher) (url : string) (o : FetchOptions) : WireRequest :=
  to_wire (baseUrl self ++ url) (request_init o 0).

(** Attempt [k] of a call whose first [fetch] is call number [n0]. *)
Definition attempt_of (n0 : nat) (self : Fetcher) (url : string) (o : FetchOptions)
  (k : nat) : Attempt * Z :=
  race (timer_delay (timeout o ?? DEFAULT_TIMEOUT)) (fetch_precheck (request_init o 0))
       (net (n0 + k) (wire_of self url o)).

Definition contract_of (w : World) (self : Fetcher) (url : string) (o : FetchOptions)
  : Outcome Json * nat * Z :=
  retry_contract (attempt_of (w_calls w) self url o)
                 (timer_delay (retryDelay o ?? DEFAULT_RETRY_DELAY))
                 (Z.to_nat (retries o ?? DEFAULT_RETRIES)) 0.

End Client.

(** ** Concrete environments for the witnesses *)

(** The JSON values of the spec's scenarios A and C, and the text of
    the first as the server sends it. *)
Definition id_value : Json := JObj [("id", JNum 1)].
Definition id_body : string := JsonText.stringify_json id_value.
Definition name_value : Json := JObj [("name", JStr "x")].

Definition w0 : World := mkWorld 0 0 [] 0 [].
Definition api : Fetcher := new_Fetcher (Some "/subscriptions").

(** The response of scenario A: its body is read 15 ms after the
    headers. *)
Definition id_response : Response := mkResponse 200 id_body (BodyDone 15).

Definition net_ok (n : nat) (wr : WireRequest) : Reply := Respond 40 id_response.
Definition net_500_then_ok (n : nat) (wr : WireRequest) : Reply :=
  match n with O => Respond 30 (mkResponse 500 "" (BodyDone 0)) | _ => Respond 40 id_response end.
Definition net_down (n : nat) (wr : WireRequest) : Reply :=
  NetFail 20 (JsError "TypeError" "network error").
Definition net_not_json (n : nat) (wr : WireRequest) : Reply :=
  Respond 40 (mkResponse 200 "not-json" (BodyDone 5)).

(** Options with a huge timeout, a GET body, a [Headers] instance, and a
    lower-case content type. *)
(** Headers arrive, the body never does. *)
Definition net_stalled (n : nat) (wr : WireRequest) : Reply :=
  Respond 40 (mkResponse 200 id_body BodyStalled).
Definition net_silent (n : nat) (wr : WireRequest) : Reply := NoReply.
Definition short_timeout_options : FetchOptions :=
  mkOptions (Some 3000) (Some 2) (Some 100) None None None None None None.

Definition huge_timeout_options : FetchOptions :=
  mkOptions (Some (2 ^ 31)) None None None None None None None None.

Definition body_options : FetchOptions :=
  mkOptions None None None None (Some "q") None None None None.

Definition instance_options : FetchOptions :=
  mkOptions None None None None None (Some (HInstance [("Authorization", "t")])) None None None.

Definition lower_ct_options : FetchOptions :=
  mkOptions None None None None None (Some (HRecord [("content-type", "text/plain")])) None None None.

Section Proofs.
Context {codec : JsonCodec}.
Variable net : nat -> WireRequest -> Reply.

(** One step of the contract. *)
Lemma contract_ok att dr n k r t :
  att k = (AResp r, t) -> resp_ok r = true ->
  retry_contract att dr n k = (read_json r, 1%nat, t + body_wait r).
Proof. intros Ha Hok. destruct n; simpl; now rewrite Ha, Hok. Qed.

Lemma contract_fail_last att dr k e :
  attempt_error (fst (att k)) = Some e ->
  retry_contract att dr 0 k = (Rejected (final_error e), 1%nat, snd (att k)).
Proof.
  simpl. destruct (att k) as [[r|e'] t]; simpl; [|congruence].
  destruct (resp_ok r); congruence.
Qed.

Lemma contract_fail_step att dr n k e :
  attempt_error (fst (att k)) = Some e ->
  retry_contract att dr (S n) k =
  let '(o, c, t') := retry_contract att dr n (S k) in (o, S c, snd (att k) + dr + t').
Proof.
  intros H. cbn [retry_contract]. destruct (att k) as [[r|e'] t]; simpl in *; [|reflexivity].
  destruct (resp_ok r); [discriminate | reflexivity].
Qed.

Lemma contract_success_after att dr N : forall n k r t,
  (N <= n)%nat ->
  (forall j, (j < N)%nat -> attempt_error (fst (att (k + j)%nat)) <> None) ->
  att (k + N)%nat = (AResp r, t) -> resp_ok r = true ->
  retry_contract att dr n k = (read_json r, S N, failed_time att dr k N + (t + body_wait r)).
Proof.
  induction N as [|N IH]; intros n k r t Hle Hfail Hatt Hok.
  - rewrite Nat.add_0_r in Hatt. rewrite (contract_ok _ _ _ _ _ _ Hatt Hok). reflexivity.
  - destruct n as [|n]; [lia|].
    specialize (Hfail 0%nat ltac:(lia)) as H0. rewrite Nat.add_0_r in H0.
    destruct (attempt_error (fst (att k))) as [e|] eqn:He; [|congruence].
    rewrite (contract_fail_step _ _ _ _ _ He).
    rewrite (IH n (S k) r t); [| lia | | now replace (S k + N)%nat with (k + S N)%nat by lia | exact Hok].
    2: { intros j Hj. replace (S k + j)%nat with (k + S j)%nat by lia. apply Hfail. lia. }
    simpl. f_equal. lia.
Qed.

Lemma contract_all_fail att dr n : forall k,
  (forall j, (j <= n)%nat -> attempt_error (fst (att (k + j)%nat)) <> None) ->
  exists e, attempt_error (fst (att (k + n)%nat)) = Some e /\
    retry_contract att dr n k = (Rejected (final_error e), S n, failed_time att dr k n + snd (att (k + n)%nat)).
Proof.
  induction n as [|n IH]; intros k Hfail.
  - specialize (Hfail 0%nat ltac:(lia)). rewrite Nat.add_0_r in *.
    destruct (attempt_error (fst (att k))) as [e|] eqn:He; [|congruence].
    exists e. split; [reflexivity|]. now rewrite (contract_fail_last _ _ _ _ He).
  - specialize (Hfail 0%nat ltac:(lia)) as H0. rewrite Nat.add_0_r in H0.
    destruct (attempt_error (fst (att k))) as [e0|] eqn:He0; [|congruence].
    destruct (IH (S k)) as (e & He & Hc).
    { intros j Hj. replace (S k + j)%nat with (k + S j)%nat by lia. apply Hfail. lia. }
    replace (S k + n)%nat with (k + S n)%nat in * by lia.
    exists e. split; [exact He|].
    rewrite (contract_fail_step _ _ _ _ _ He0), Hc. simpl. f_equal. lia.
Qed.

Lemma failed_time_const att dr a c k N :
  (forall j, att j = (a, c)) -> failed_time att dr k N = Z.of_nat N * (c + dr).
Proof.
  intros H. revert k. induction N as [|N IH]; intros k; [reflexivity|].
  simpl failed_time. rewrite H, IH, Nat2Z.inj_succ. simpl. ring.
Qed.

(** A call whose attempts all fail alike: the last cause is the one
    reported, after every wait. *)
Lemma contract_const att dr n k e c :
  (forall j, att j = (AFail e, c)) ->
  retry_contract att dr n k = (Rejected (final_error e), S n, Z.of_nat n * (c + dr) + c).
Proof.
  intros H. destruct (contract_all_fail att dr n k) as (e' & He & Hc).
  { intros j _. now rewrite H. }
  rewrite H in He. injection He as <-. rewrite Hc, (failed_time_const att dr (AFail e) c), H by exact H.
  reflexivity.
Qed.

Lemma contract_bounds att dr d b n : forall k,
  0 <= dr -> 0 <= b -> (forall j, 0 <= snd (att j) <= d) ->
  (forall j r t, att j = (AResp r, t) -> body_wait r <= b) ->
  let '(o, c, t) := retry_contract att dr n k in
  (1 <= c <= S n)%nat /\ 0 <= t <= Z.of_nat (S n) * d + Z.of_nat n * dr + b.
Proof.
  induction n as [|n IH]; intros k Hdr Hb Hatt Hbody; cbn [retry_contract];
    specialize (Hatt k) as Hk; specialize (Hbody k) as Hbk;
    destruct (att k) as [[r|e] t]; simpl in Hk;
    try (destruct (resp_ok r); [pose proof (body_wait_nonneg r); specialize (Hbk r t eq_refl)|]);
    try (split; [lia | nia]).
  all: specialize (IH (S k) Hdr Hb Hatt Hbody); destruct (retry_contract att dr n (S k)) as [[o c] t'];
       destruct IH; split; [lia | nia].
Qed.

(** Unless a response body stalls, the contract settles. *)
Lemma contract_settles att dr n k :
  (forall j r t, att j = (AResp r, t) -> body_read r <> BodyStalled) ->
  fst (fst (retry_contract att dr n k)) <> Pending.
Proof.
  intros Hbody. revert k. induction n as [|n IH]; intros k; cbn [retry_contract];
    specialize (Hbody k) as Hk; destruct (att k) as [[r|e] t]; try destruct (resp_ok r) eqn:Hok;
    try discriminate; try (exact (read_json_settled r (Hk r t eq_refl))).
  all: specialize (IH (S k)); destruct (retry_contract att dr n (S k)) as [[o c] t']; exact IH.
Qed.

Lemma contract_calls_pos att dr n k : (1 <= snd (fst (retry_contract att dr n k)))%nat.
Proof.
  revert k. induction n as [|n IH]; intros k; cbn [retry_contract];
    destruct (att k) as [[r|e] t]; try destruct (resp_ok r); simpl; try lia;
    specialize (IH (S k)); destruct (retry_contract att dr n (S k)) as [[o c] t']; simpl in *; lia.
Qed.

Lemma race_elapsed d pre rp : 0 <= d -> 0 <= snd (race d pre rp) <= d.
Proof.
  intros Hd. unfold race. destruct pre; simpl; [lia|].
  destruct rp as [lat r|lat e|]; simpl; try lia;
  destruct (Z.leb_spec d (Z.max 0 lat)); simpl; lia.
Qed.

(** ** The refinement *)

(** [fetch] in a world where the call's controller is the last fresh id
    and its abort timer was just armed: the outcome and the time are
    those [race] computes, and clearing the timer restores the table. *)
Lemma fetch_armed url init w d L a t :
  wf_world w -> 0 <= d ->
  ri_signal init = Some (ControllerSignal (w_next w)) ->
  race d (fetch_precheck init) (net (w_calls w) (to_wire url init)) = (a, t) ->
  exists w3,
    fetch net url init
      (mkWorld (w_now w) (w_calls w)
         (w_timers w ++ [mkTimer (S (w_next w)) (w_now w + d) (FireAbort (w_next w))])
         (S (S (w_next w))) L) = (attempt_outcome a, w3) /\
    w_now w3 = w_now w + t /\ w_calls w3 = S (w_calls w) /\
    w_next w3 = S (S (w_next w)) /\
    drop_timer (S (w_next w)) (w_timers w3) = w_timers w /\
    fetched (w_log w3) = (fetched L ++ [to_wire url init])%list.
Proof.
  intros Hwf Hd Hsig Hrace.
  assert (Hids : Forall (fun t => (t_id t < S (w_next w))%nat) (w_timers w)) by eauto with gj.
  unfold fetch, signal_timer. rewrite Hsig. cbn [w_timers w_now w_calls w_next].
  rewrite find_abort_fresh by eauto with gj.
  destruct (fetch_precheck init) as [e|]; cbn in Hrace.
  - inv Hrace. eexists; split; [reflexivity|]. cbn. rewrite drop_timer_fresh by exact Hids.
    repeat split; try lia. now rewrite fetched_app.
  - destruct (net (w_calls w) (to_wire url init)) as [lat r|lat e|]; cbn in Hrace |- *;
    [destruct (Z.leb_spec d (Z.max 0 lat)), (Z.leb_spec (w_now w + d) (w_now w + Z.max 0 lat));
       try lia .. |];
    inv Hrace; eexists; (split; [reflexivity|]); cbn;
    rewrite ?drop_timer_fresh, ?drop_timer_absent by exact Hids;
    repeat split; try lia; rewrite ?fetched_app; simpl; now rewrite ?app_nil_r, ?fetched_app.
Qed.

(** The contract depends on the attempts only through their values. *)
Lemma retry_contract_ext att1 att2 dr n k1 k2 :
  (forall j, att1 (k1 + j)%nat = att2 (k2 + j)%nat) ->
  retry_contract att1 dr n k1 = retry_contract att2 dr n k2.
Proof.
  revert k1 k2. induction n as [|n IH]; intros k1 k2 H; simpl;
    specialize (H O) as H0; rewrite !Nat.add_0_r in H0; rewrite H0; [reflexivity|].
  rewrite (IH (S k1) (S k2)); [reflexivity|].
  intros j. simpl. rewrite <- !Nat.add_succ_r. apply H.
Qed.

(** The contract of the recursive call is the tail of the caller's. *)
Lemma contract_of_retry w w6 self url o n :
  Z.to_nat (retries o ?? DEFAULT_RETRIES) = S n -> w_calls w6 = S (w_calls w) ->
  contract_of net w6 self url (with_retries o (retries o ?? DEFAULT_RETRIES - 1)) =
  retry_contract (attempt_of net (w_calls w) self url o)
                 (timer_delay (retryDelay o ?? DEFAULT_RETRY_DELAY)) n 1.
Proof.
  intros Hn Hc. unfold contract_of. cbn [retries with_retries option_default].
  rewrite (proj2 (budget_pos _ _ Hn)). apply retry_contract_ext. intros j.
  unfold attempt_of. rewrite Hc. now replace (S (w_calls w) + (0 + j))%nat with (w_calls w + (1 + j))%nat by lia.
Qed.

Lemma request_simulates fuel self url o w :
  wf_world w -> (Z.to_nat (retries o ?? DEFAULT_RETRIES) < fuel)%nat ->
  let '(out, c, t) := contract_of net w self url o in
  exists w', request net fuel self url o w = (out, w') /\
    w_calls w' = (w_calls w + c)%nat /\ w_now w' = w_now w + t /\
    w_timers w' = w_timers w /\ wf_world w' /\
    fetched (w_log w') = (fetched (w_log w) ++ repeat (wire_of self url o) c)%list.
Proof.
  revert self url o w. induction fuel as [|fuel IH]; intros self url o w Hwf Hfuel; [lia|].
  unfold contract_of.
  destruct (attempt_of net (w_calls w) self url o 0) as [a t] eqn:Hatt.
  assert (Hr : race (timer_delay (timeout o ?? DEFAULT_TIMEOUT))
                 (fetch_precheck (request_init o (w_next w)))
                 (net (w_calls w) (to_wire (baseUrl self ++ url) (request_init o (w_next w)))) = (a, t))
    by (rewrite <- Hatt; unfold attempt_of, wire_of; now rewrite Nat.add_0_r).
  destruct (fetch_armed (baseUrl self ++ url) (request_init o (w_next w)) w _ (w_log w ++ [EvSetTimer (S (w_next w)) (timer_delay (timeout o ?? DEFAULT_TIMEOUT))]) _ _ Hwf
              ltac:(apply timer_delay_range) eq_refl Hr) as (w3 & Hf & Hnow & Hcalls & Hnext & Hdrop & Hlog).
  rewrite fetched_app in Hlog. simpl in Hlog. rewrite app_nil_r in Hlog.
  cbn [request]. unfold join, bind at 1, new_AbortController. cbn -[fetch].
  cbv [bind try_catch]. rewrite Hf.
  destruct (Z.to_nat (retries o ?? DEFAULT_RETRIES)) as [|n] eqn:Hn.
  all: cbn [retry_contract]; rewrite Hatt.
  all: rewrite budget_ltb, Hn.
  all: destruct a as [r|e]; [destruct (resp_ok r) eqn:Hok|]; cbn -[fetch request sleep].
  all: rewrite ?Hdrop, ?(drop_timer_absent (w_timers w)) by eauto with gj.
  all: rewrite ?Hok; cbn -[fetch request sleep].
  all: rewrite ?Hdrop, ?(drop_timer_absent (w_timers w)) by eauto with gj.
  all: rewrite ?sleep_fresh by (cbn; rewrite Hnext; eauto with gj); cbn -[request].
  all: try (pose proof (body_wait_nonneg r)).
  all: try (eexists; (split; [reflexivity|]); cbn;
            repeat split; [lia | lia | |];
            [ unfold wf_world; cbn; rewrite Hnext; eapply wf_timers_mono; [|exact Hwf]; lia
            | rewrite ?fetched_app, Hlog; simpl; now rewrite ?app_nil_r ]).
  all: match goal with |- context [request _ _ ?s ?u ?o' ?w6] =>
         specialize (IH s u o' w6) end.
  all: rewrite (contract_of_retry w _ _ _ _ n Hn) in IH by (cbn; lia).
  all: destruct (retry_contract _ _ n 1) as [[o' c'] t'].
  all: destruct IH as (w' & Hreq & H1 & H2 & H3 & H4 & H5);
         [unfold wf_world; cbn; rewrite Hnext; eapply wf_timers_mono; [|exact Hwf]; lia
         | cbn; pose proof (budget_pos _ _ Hn); lia |].
  all: exists w'; rewrite Hreq; cbn in *; repeat split; auto; try lia.
  all: rewrite H5, !fetched_app, Hlog; simpl; now rewrite ?app_nil_r, <- app_assoc.
Qed.

(** The result of [request] read off its contract. *)
Lemma request_outcome fuel self url o w out c t :
  wf_world w -> (Z.to_nat (retries o ?? DEFAULT_RETRIES) < fuel)%nat ->
  contract_of net w self url o = (out, c, t) ->
  exists w', request net fuel self url o w = (out, w') /\
    w_calls w' = (w_calls w + c)%nat /\ w_now w' = w_now w + t /\ w_timers w' = w_timers w.
Proof.
  intros Hwf Hf Hc. pose proof (request_simulates fuel self url o w Hwf Hf) as H.
  rewrite Hc in H. destruct H as (w' & H1 & H2 & H3 & H4 & _). eauto.
Qed.

Lemma reply_latency_nonneg rp lat : reply_latency rp = Some lat -> 0 <= lat.
Proof. destruct rp; simpl; intros H; inversion H; lia. Qed.

(** Every call makes at least one attempt. *)
Lemma contract_of_calls_pos w self url o : (1 <= snd (fst (contract_of net w self url o)))%nat.
Proof. unfold contract_of. apply contract_calls_pos. Qed.

(** A call whose attempts all fail alike rejects with the wrapped error
    after every attempt of its budget and every wait. *)
Lemma request_const_failure fuel self url o w e d :
  wf_world w -> (Z.to_nat (retries o ?? DEFAULT_RETRIES) < fuel)%nat ->
  (forall j, attempt_of net (w_calls w) self url o j = (AFail e, d)) ->
  exists w', request net fuel self url o w = (Rejected (final_error e), w') /\
    w_calls w' = (w_calls w + S (Z.to_nat (retries o ?? DEFAULT_RETRIES)))%nat /\
    w_now w' = w_now w + Z.of_nat (S (Z.to_nat (retries o ?? DEFAULT_RETRIES))) * d
                       + Z.of_nat (Z.to_nat (retries o ?? DEFAULT_RETRIES))
                         * timer_delay (retryDelay o ?? DEFAULT_RETRY_DELAY).
Proof.
  intros Hwf Hf Ha.
  pose proof (contract_const _ (timer_delay (retryDelay o ?? DEFAULT_RETRY_DELAY))
                (Z.to_nat (retries o ?? DEFAULT_RETRIES)) 0 _ _ Ha) as Hc.
  destruct (request_outcome fuel self url o w _ _ _ Hwf Hf Hc) as (w' & H1 & H2 & H3 & _).
  exists w'. split; [exact H1|]. split; [exact H2|]. rewrite H3, Nat2Z.inj_succ. ring.
Qed.

(** A [timeout] that [setTimeout]'s 32-bit conversion turns into a
    delay of 0 loses the race against any reply. *)
Lemma huge_timeout_attempt n0 self url o k t :
  timeout o = Some t -> (t mod 2 ^ 32 = 0 \/ 2 ^ 31 <= t mod 2 ^ 32) ->
  fetch_precheck (request_init o 0) = None ->
  attempt_of net n0 self url o k = (AFail abort_error, 0).
Proof.
  intros Ht Hw Hpre. unfold attempt_of, race. rewrite Ht, Hpre. cbn [option_default].
  replace (timer_delay t) with 0
    by (unfold timer_delay, to_int32; destruct (Z.ltb_spec (t mod 2 ^ 32) (2 ^ 31));
        pose proof (Z.mod_pos_bound t (2 ^ 32)); lia).
  destruct (reply_latency (net (n0 + k) (wire_of self url o))) as [lat|] eqn:Hl; [|reflexivity].
  apply reply_latency_nonneg in Hl. destruct (Z.leb_spec 0 lat); [reflexivity | lia].
Qed.

(** The request [post] puts on the wire when the caller gives no
    headers. *)
Lemma post_wire_of self url o s :
  headers o = None ->
  wire_of self url (with_body (with_method o POST) s) =
  mkWire (baseUrl self ++ url) POST [("content-type", "application/json")] (Some s) CredInclude.
Proof. intros H. unfold wire_of, request_init, to_wire. cbn. now rewrite H. Qed.

(** ** Properties of the client *)

(** C1 (refinement).  From a well-formed world and with fuel above the
    retry budget, [request] settles with the outcome of the abstract
    retry contract, after exactly the contract's number of [fetch]
    calls and time, and leaves the timer table as it found it: no
    abort or sleep timer is leaked on any path. *)
Theorem request_refines fuel self url o w :
  wf_world w -> (Z.to_nat (retries o ?? DEFAULT_RETRIES) < fuel)%nat ->
  let '(out, c, t) := contract_of net w self url o in
  exists w', request net fuel self url o w = (out, w') /\
    w_calls w' = (w_calls w + c)%nat /\ w_now w' = w_now w + t /\
    w_timers w' = w_timers w /\ wf_world w'.
Proof.
  intros Hwf Hf. pose proof (request_simulates fuel self url o w Hwf Hf) as H.
  destruct (contract_of net w self url o) as [[out c] t].
  destruct H as (w' & H1 & H2 & H3 & H4 & H5 & _). eauto 6.
Qed.

(** C2 (functional).  When the first attempt returns, after [t] ms, a
    2xx response whose body is read in [b] ms and decodes to [v], the
    call resolves with [v] after one [fetch] call and [t + b] ms, with
    no retry delay and the timer table as it was. *)
Theorem request_first_success fuel self url o w r t b v :
  wf_world w -> (Z.to_nat (retries o ?? DEFAULT_RETRIES) < fuel)%nat ->
  attempt_of net (w_calls w) self url o 0 = (AResp r, t) -> resp_ok r = true ->
  body_read r = BodyDone b -> parse (body r) = inr v ->
  exists w', request net fuel self url o w = (Resolved v, w') /\
    w_calls w' = S (w_calls w) /\ w_now w' = w_now w + t + Z.max 0 b /\ w_timers w' = w_timers w.
Proof.
  intros Hwf Hf Ha Hok Hb Hp.
  edestruct (request_outcome fuel self url o w) as (w' & H1 & H2 & H3 & H4); [exact Hwf | exact Hf | |].
  - unfold contract_of. rewrite (contract_ok _ _ _ _ _ _ Ha Hok), (read_json_done _ _ Hb).
    now rewrite (decode_body_inr _ _ Hp).
  - exists w'. unfold body_wait in H3. rewrite Hb in H3. repeat split; auto; lia.
Qed.

(** C3 (functional).  When attempts [0 .. N-1] fail (transport error,
    timeout or non-2xx status) and attempt [N <= retries] returns a 2xx
    response whose body decodes to [v], the call resolves with [v]
    after [N + 1] [fetch] calls, having waited the retry delay after
    each failed attempt. *)
Theorem request_retry_success fuel self url o w N r t b v :
  wf_world w -> (Z.to_nat (retries o ?? DEFAULT_RETRIES) < fuel)%nat ->
  (N <= Z.to_nat (retries o ?? DEFAULT_RETRIES))%nat ->
  (forall j, (j < N)%nat -> attempt_error (fst (attempt_of net (w_calls w) self url o j)) <> None) ->
  attempt_of net (w_calls w) self url o N = (AResp r, t) -> resp_ok r = true ->
  body_read r = BodyDone b -> parse (body r) = inr v ->
  exists w', request net fuel self url o w = (Resolved v, w') /\
    w_calls w' = (w_calls w + S N)%nat /\
    w_now w' = w_now w + failed_time (attempt_of net (w_calls w) self url o)
                           (timer_delay (retryDelay o ?? DEFAULT_RETRY_DELAY)) 0 N + t + Z.max 0 b.
Proof.
  intros Hwf Hf HN Hfail Ha Hok Hb Hp.
  edestruct (request_outcome fuel self url o w) as (w' & H1 & H2 & H3 & _); [exact Hwf | exact Hf | |].
  - unfold contract_of. rewrite (contract_success_after _ _ N _ 0 r t HN Hfail Ha Hok).
    now rewrite (read_json_done _ _ Hb), (decode_body_inr _ _ Hp).
  - exists w'. unfold body_wait in H3. rewrite Hb in H3. repeat split; auto. rewrite H3. ring.
Qed.

(** C4 (error).  When every attempt up to the budget fails, the call
    rejects after [retries + 1] [fetch] calls with an [Error] whose
    message embeds the last cause's message ("Unknown error" for a
    thrown non-[Error]) behind the fixed text "Request failed after 1
    retries: ", whatever the budget was. *)
Theorem request_exhausted fuel self url o w :
  wf_world w -> (Z.to_nat (retries o ?? DEFAULT_RETRIES) < fuel)%nat ->
  (forall j, (j <= Z.to_nat (retries o ?? DEFAULT_RETRIES))%nat ->
     attempt_error (fst (attempt_of net (w_calls w) self url o j)) <> None) ->
  exists e w',
    attempt_error (fst (attempt_of net (w_calls w) self url o
                          (Z.to_nat (retries o ?? DEFAULT_RETRIES)))) = Some e /\
    request net fuel self url o w =
      (Rejected (JsError "Error" ("Request failed after 1 retries: " ++ error_message_or_unknown e)), w') /\
    w_calls w' = (w_calls w + S (Z.to_nat (retries o ?? DEFAULT_RETRIES)))%nat.
Proof.
  intros Hwf Hf Hfail.
  destruct (contract_all_fail (attempt_of net (w_calls w) self url o)
              (timer_delay (retryDelay o ?? DEFAULT_RETRY_DELAY)) _ 0 Hfail) as (e & He & Hc).
  destruct (request_outcome fuel self url o w _ _ _ Hwf Hf Hc) as (w' & H1 & H2 & _).
  exists e, w'. auto.
Qed.

(** C5 (error).  A 2xx response whose [response.json()] rejects, with
    the decoder's [SyntaxError] on a body that is not JSON or with the
    stream's error on a body read that fails, rejects the call with
    that error after one [fetch] call, unwrapped and not retried,
    whatever the retry budget: the promise of [response.json()] is
    returned from the [try] block, so the [catch] never sees its
    rejection. *)
Theorem request_decode_error_not_retried fuel self url o w r t e :
  wf_world w -> (Z.to_nat (retries o ?? DEFAULT_RETRIES) < fuel)%nat ->
  attempt_of net (w_calls w) self url o 0 = (AResp r, t) -> resp_ok r = true ->
  read_json r = Rejected e ->
  exists w', request net fuel self url o w = (Rejected e, w') /\
    w_calls w' = S (w_calls w).
Proof.
  intros Hwf Hf Ha Hok Hp.
  edestruct (request_outcome fuel self url o w) as (w' & H1 & H2 & _); [exact Hwf | exact Hf | |].
  - unfold contract_of. rewrite (contract_ok _ _ _ _ _ _ Ha Hok), Hp. reflexivity.
  - exists w'. split; [exact H1 | lia].
Qed.

(** C6 (bounds).  A call makes between 1 and [max 0 retries + 1]
    [fetch] calls and takes at most
    [(R + 1) * timer_delay timeout + R * timer_delay retryDelay + B] ms,
    with [R = max 0 retries] and [B] a bound on the time the body of a
    2xx response takes to read: the timeout bounds the wait for the
    headers only. *)
Theorem request_bounds fuel self url o w B :
  wf_world w -> (Z.to_nat (retries o ?? DEFAULT_RETRIES) < fuel)%nat -> 0 <= B ->
  (forall j r t, attempt_of net (w_calls w) self url o j = (AResp r, t) -> body_wait r <= B) ->
  exists out w', request net fuel self url o w = (out, w') /\
    (w_calls w < w_calls w' <= w_calls w + S (Z.to_nat (retries o ?? DEFAULT_RETRIES)))%nat /\
    w_now w <= w_now w' <=
      w_now w + Z.of_nat (S (Z.to_nat (retries o ?? DEFAULT_RETRIES)))
                  * timer_delay (timeout o ?? DEFAULT_TIMEOUT)
              + Z.of_nat (Z.to_nat (retries o ?? DEFAULT_RETRIES))
                  * timer_delay (retryDelay o ?? DEFAULT_RETRY_DELAY) + B.
Proof.
  intros Hwf Hf HB Hbody.
  pose proof (contract_bounds (attempt_of net (w_calls w) self url o)
                (timer_delay (retryDelay o ?? DEFAULT_RETRY_DELAY))
                (timer_delay (timeout o ?? DEFAULT_TIMEOUT)) B
                (Z.to_nat (retries o ?? DEFAULT_RETRIES)) 0
                ltac:(apply timer_delay_range) HB
                ltac:(intros j; apply race_elapsed, timer_delay_range) Hbody) as Hb.
  destruct (contract_of net w self url o) as [[out c] t] eqn:Hc.
  unfold contract_of in Hc. rewrite Hc in Hb.
  destruct (request_outcome fuel self url o w out c t Hwf Hf Hc) as (w' & H1 & H2 & H3 & _).
  exists out, w'. split; [exact H1|]. lia.
Qed.

(** C7 (termination).  With fuel above the retry budget, and unless
    the body of a 2xx response stalls, the call always settles: it
    resolves or rejects, it is never left pending. *)
Theorem request_settles fuel self url o w :
  wf_world w -> (Z.to_nat (retries o ?? DEFAULT_RETRIES) < fuel)%nat ->
  (forall j r t, attempt_of net (w_calls w) self url o j = (AResp r, t) -> body_read r <> BodyStalled) ->
  exists out w', request net fuel self url o w = (out, w') /\ out <> Pending.
Proof.
  intros Hwf Hf Hbody.
  pose proof (contract_settles (attempt_of net (w_calls w) self url o)
                (timer_delay (retryDelay o ?? DEFAULT_RETRY_DELAY))
                (Z.to_nat (retries o ?? DEFAULT_RETRIES)) 0 Hbody) as Hs.
  destruct (contract_of net w self url o) as [[out c] t] eqn:Hc.
  unfold contract_of in Hc. rewrite Hc in Hs.
  destruct (request_outcome fuel self url o w out c t Hwf Hf Hc) as (w' & H1 & _).
  eauto.
Qed.

(** C8 (bounds).  A [timeout] that [setTimeout]'s 32-bit conversion
    turns into a delay of 0 (zero, a negative value down to -2^31, or one
    whose residue mod 2^32 is at least 2^31, such as 2^31 ms, about
    24.8 days) makes the call fail whatever the network does: every
    attempt is aborted at once, and the call rejects with the wrapped
    [AbortError] after [retries + 1] [fetch] calls, having spent only
    the retry delays. *)
Theorem huge_timeout_aborts fuel self url o w t :
  wf_world w -> (Z.to_nat (retries o ?? DEFAULT_RETRIES) < fuel)%nat ->
  timeout o = Some t -> (t mod 2 ^ 32 = 0 \/ 2 ^ 31 <= t mod 2 ^ 32) ->
  fetch_precheck (request_init o 0) = None ->
  exists w', request net fuel self url o w = (Rejected (final_error abort_error), w') /\
    w_calls w' = (w_calls w + S (Z.to_nat (retries o ?? DEFAULT_RETRIES)))%nat /\
    w_now w' = w_now w + Z.of_nat (Z.to_nat (retries o ?? DEFAULT_RETRIES))
                         * timer_delay (retryDelay o ?? DEFAULT_RETRY_DELAY).
Proof.
  intros Hwf Hf Ht Hw Hpre.
  destruct (request_const_failure fuel self url o w abort_error 0 Hwf Hf
              (fun j => huge_timeout_attempt _ self url o j t Ht Hw Hpre)) as (w' & H1 & H2 & H3).
  exists w'. repeat split; auto. rewrite H3. ring.
Qed.

(** C9 (error).  [get] accepts options with a [body] (its type only
    omits [method]); [fetch] then rejects every attempt with a
    [TypeError] before any network access, and the call rejects with
    that message after [retries + 1] calls to [fetch]. *)
Theorem get_with_body_rejected fuel self url o w s :
  wf_world w -> (Z.to_nat (retries o ?? DEFAULT_RETRIES) < fuel)%nat -> req_body o = Some s ->
  exists w', get net fuel self url o w = (Rejected (final_error get_with_body_error), w') /\
    w_calls w' = (w_calls w + S (Z.to_nat (retries o ?? DEFAULT_RETRIES)))%nat /\
    w_now w' = w_now w + Z.of_nat (Z.to_nat (retries o ?? DEFAULT_RETRIES))
                           * timer_delay (retryDelay o ?? DEFAULT_RETRY_DELAY).
Proof.
  intros Hwf Hf Hb.
  assert (Ha : forall j, attempt_of net (w_calls w) self url (with_method o GET) j
                        = (AFail get_with_body_error, 0))
    by (intros j; unfold attempt_of, race, fetch_precheck; cbn; now rewrite Hb).
  destruct (request_const_failure fuel self url (with_method o GET) w _ _ Hwf Hf Ha) as (w' & H1 & H2 & H3).
  exists w'. split; [exact H1|]. split; [exact H2|]. rewrite H3. cbn [retries retryDelay with_method]. ring.
Qed.

(** C10 (functional).  The headers record of every attempt is the
    default [Content-Type: application/json] spread over by the
    caller's headers: for each name, the caller's last value wins, and
    the default remains only for [Content-Type] spelled exactly so. *)
Theorem request_headers_merge o c k :
  obj_get (ri_headers (request_init o c)) k =
  match obj_get (rev (spread_source (headers o))) k with
  | Some v => Some v
  | None => if String.eqb k "Content-Type" then Some "application/json" else None
  end.
Proof. unfold request_init. cbn [ri_headers]. now rewrite obj_get_spread. Qed.

(** C11 (functional).  Headers passed as a [Headers] instance are
    lost: the spread copies no property of it, so the wire carries
    only the default content type. *)
Theorem headers_instance_dropped self url o l :
  headers o = Some (HInstance l) ->
  wr_headers (wire_of self url o) = [("content-type", "application/json")].
Proof. intros H. unfold wire_of, request_init, to_wire. cbn. now rewrite H. Qed.

(** C12 (functional).  A caller's [content-type] in another letter
    case does not replace the default: the two record properties name
    the same header, whose value on the wire joins both. *)
Theorem content_type_case_joined self url o v :
  headers o = Some (HRecord [("content-type", v)]) ->
  wr_headers (wire_of self url o) = [("content-type", "application/json, " ++ v)].
Proof. intros H. unfold wire_of, request_init, to_wire. cbn. now rewrite H. Qed.

(** C13 (functional).  [post] with no caller headers makes at least one
    [fetch] call, and every [fetch] it makes, retries included, puts on
    the wire a POST to [baseUrl + url] carrying [JSON.stringify(data)],
    the JSON content type and credentials included (scenario C of the
    spec): the method and body of the caller's options are overridden. *)
Theorem post_wire fuel self url b o w :
  wf_world w -> (Z.to_nat (retries o ?? DEFAULT_RETRIES) < fuel)%nat -> headers o = None ->
  exists out w', post net fuel self url b o w = (out, w') /\ (w_calls w < w_calls w')%nat /\
    fetched (w_log w') = (fetched (w_log w) ++
      repeat (mkWire (baseUrl self ++ url) POST [("content-type", "application/json")]
                     (Some (stringify b)) CredInclude) (w_calls w' - w_calls w))%list.
Proof.
  intros Hwf Hf Hh. unfold post.
  set (o' := with_body (with_method o POST) (stringify b)).
  pose proof (request_simulates fuel self url o' w Hwf Hf) as H.
  pose proof (contract_of_calls_pos w self url o') as Hc.
  destruct (contract_of net w self url o') as [[out c] t]. simpl in Hc.
  destruct H as (w' & H1 & H2 & _ & _ & _ & H6). exists out, w'.
  rewrite <- (post_wire_of self url o (stringify b) Hh). split; [exact H1|]. split; [lia|].
  now rewrite H6, H2, Nat.add_comm, Nat.add_sub.
Qed.

(** C30 (safety).  Every [fetch] one call issues, the first one and each
    retry, puts the same request on the wire: [baseUrl + url] with the
    method, body, headers, credentials and cache of the caller's
    options; the retries change nothing but the retry budget.  The log
    gains exactly one such request per [fetch] call counted. *)
Theorem request_same_wire fuel self url o w :
  wf_world w -> (Z.to_nat (retries o ?? DEFAULT_RETRIES) < fuel)%nat ->
  exists out w', request net fuel self url o w = (out, w') /\
    fetched (w_log w') = (fetched (w_log w) ++ repeat (wire_of self url o) (w_calls w' - w_calls w)%nat)%list.
Proof.
  intros Hwf Hf. pose proof (request_simulates fuel self url o w Hwf Hf) as H.
  destruct (contract_of net w self url o) as [[out c] t].
  destruct H as (w' & H1 & H2 & _ & _ & _ & H6). exists out, w'.
  split; [exact H1|]. now rewrite H2, Nat.add_comm, Nat.add_sub.
Qed.

(** C32 (liveness).  The timeout bounds a call against a network that
    never answers in time: with a [timeout] [t] below 2^31 ms and no
    reply arriving within [t] ms of any of the call's [fetch] calls,
    the call rejects with the wrapped [AbortError] after exactly
    [retries + 1] calls and [(R + 1) * t + R * retryDelay] ms, with
    [R = max 0 retries]. *)
Theorem request_hung_network fuel self url o w t :
  wf_world w -> (Z.to_nat (retries o ?? DEFAULT_RETRIES) < fuel)%nat ->
  timeout o = Some t -> 0 <= t < 2 ^ 31 -> fetch_precheck (request_init o 0) = None ->
  (forall j, match reply_latency (net (w_calls w + j) (wire_of self url o)) with
             | Some lat => t <= lat
             | None => True
             end) ->
  exists w', request net fuel self url o w = (Rejected (final_error abort_error), w') /\
    w_calls w' = (w_calls w + S (Z.to_nat (retries o ?? DEFAULT_RETRIES)))%nat /\
    w_now w' = w_now w + Z.of_nat (S (Z.to_nat (retries o ?? DEFAULT_RETRIES))) * t
                       + Z.of_nat (Z.to_nat (retries o ?? DEFAULT_RETRIES))
                         * timer_delay (retryDelay o ?? DEFAULT_RETRY_DELAY).
Proof.
  intros Hwf Hf Ht Hrange Hpre Hnet.
  assert (Hd : timer_delay t = t)
    by (unfold timer_delay; rewrite to_int32_small by lia; lia).
  assert (Ha : forall j, attempt_of net (w_calls w) self url o j = (AFail abort_error, t)).
  { intros j. specialize (Hnet j). unfold attempt_of, race. rewrite Ht, Hpre. cbn [option_default].
    rewrite Hd. destruct (reply_latency _) as [lat|]; [|reflexivity].
    destruct (Z.leb_spec t lat); [reflexivity | lia]. }
  exact (request_const_failure fuel self url o w _ _ Hwf Hf Ha).
Qed.

(** C33 (liveness).  The timeout does not cover the body: when the
    first attempt's 2xx response arrives in time and its body never
    completes, the call stays pending for ever.  Its abort timer is
    already cleared (the timer table is the one the call started with)
    and no retry is made: nothing of the call is left to end it. *)
Theorem request_body_stall_hangs fuel self url o w r t :
  wf_world w -> (Z.to_nat (retries o ?? DEFAULT_RETRIES) < fuel)%nat ->
  attempt_of net (w_calls w) self url o 0 = (AResp r, t) -> resp_ok r = true ->
  body_read r = BodyStalled ->
  exists w', request net fuel self url o w = (Pending, w') /\
    w_calls w' = S (w_calls w) /\ w_timers w' = w_timers w.
Proof.
  intros Hwf Hf Ha Hok Hb.
  edestruct (request_outcome fuel self url o w) as (w' & H1 & H2 & _ & H4); [exact Hwf | exact Hf | |].
  - unfold contract_of. rewrite (contract_ok _ _ _ _ _ _ Ha Hok). unfold read_json. now rewrite Hb.
  - exists w'. repeat split; auto. lia.
Qed.
End Proofs.


(** ** Witnesses *)

Lemma request_refines_witness :
  let '(out, c, t) := @contract_of JsonText.js_json net_500_then_ok w0 api "/user" no_options in
  exists w', @request JsonText.js_json net_500_then_ok 3 api "/user" no_options w0 = (out, w') /\
    w_calls w' = (w_calls w0 + c)%nat /\ w_now w' = w_now w0 + t /\
    w_timers w' = w_timers w0 /\ wf_world w'.
Proof. apply (@request_refines JsonText.js_json net_500_then_ok 3 api "/user" no_options w0); [constructor | vm_compute; lia]. Defined.

Lemma request_first_success_witness :
  exists w', @request JsonText.js_json net_ok 3 api "/user" no_options w0 = (Resolved id_value, w') /\
    w_calls w' = S (w_calls w0) /\ w_now w' = w_now w0 + 40 + Z.max 0 15 /\ w_timers w' = w_timers w0.
Proof.
  apply (@request_first_success JsonText.js_json net_ok 3 api "/user" no_options w0 id_response 40 15 id_value);
    [constructor | vm_compute; lia | reflexivity ..].
Defined.

(** Scenario A: HTTP 500, then 200 with a decodable body. *)
Lemma request_retry_success_witness :
  exists w', @request JsonText.js_json net_500_then_ok 3 api "/user" no_options w0 = (Resolved id_value, w') /\
    w_calls w' = (w_calls w0 + 2)%nat /\
    w_now w' = w_now w0 + failed_time (@attempt_of net_500_then_ok (w_calls w0) api "/user" no_options)
                            (timer_delay (retryDelay no_options ?? DEFAULT_RETRY_DELAY)) 0 1 + 40 + Z.max 0 15.
Proof.
  apply (@request_retry_success JsonText.js_json net_500_then_ok 3 api "/user" no_options w0 1
           id_response 40 15 id_value);
    [constructor | vm_compute; lia | vm_compute; lia | | reflexivity ..].
  intros j Hj. assert (j = 0%nat) as -> by lia. vm_compute. discriminate.
Defined.

(** Scenario B, with the default budget: the network is down. *)
Lemma request_exhausted_witness :
  exists e w',
    attempt_error (fst (@attempt_of net_down (w_calls w0) api "/user" no_options
                          (Z.to_nat (retries no_options ?? DEFAULT_RETRIES)))) = Some e /\
    @request JsonText.js_json net_down 3 api "/user" no_options w0 =
      (Rejected (JsError "Error" ("Request failed after 1 retries: " ++ error_message_or_unknown e)), w') /\
    w_calls w' = (w_calls w0 + S (Z.to_nat (retries no_options ?? DEFAULT_RETRIES)))%nat.
Proof.
  apply (@request_exhausted JsonText.js_json net_down 3 api "/user" no_options w0);
    [constructor | vm_compute; lia |].
  intros j Hj. vm_compute. discriminate.
Defined.

(** Scenario D: status 200 with the body [not-json]; the budget of 1 is
    not used. *)
Lemma request_decode_error_not_retried_witness :
  exists w', @request JsonText.js_json net_not_json 3 api "/user" no_options w0 =
    (Rejected (JsError "SyntaxError" "Unexpected token"), w') /\ w_calls w' = S (w_calls w0).
Proof.
  apply (@request_decode_error_not_retried JsonText.js_json net_not_json 3 api "/user" no_options w0
           (mkResponse 200 "not-json" (BodyDone 5)) 40 (JsError "SyntaxError" "Unexpected token"));
    [constructor | vm_compute; lia | reflexivity ..].
Defined.

Lemma request_bounds_witness :
  exists out w', @request JsonText.js_json net_500_then_ok 3 api "/user" no_options w0 = (out, w') /\
    (w_calls w0 < w_calls w' <= w_calls w0 + S (Z.to_nat (retries no_options ?? DEFAULT_RETRIES)))%nat /\
    w_now w0 <= w_now w' <=
      w_now w0 + Z.of_nat (S (Z.to_nat (retries no_options ?? DEFAULT_RETRIES)))
                   * timer_delay (timeout no_options ?? DEFAULT_TIMEOUT)
               + Z.of_nat (Z.to_nat (retries no_options ?? DEFAULT_RETRIES))
                   * timer_delay (retryDelay no_options ?? DEFAULT_RETRY_DELAY) + 15.
Proof.
  apply (@request_bounds JsonText.js_json net_500_then_ok 3 api "/user" no_options w0 15);
    [constructor | vm_compute; lia | lia |].
  intros [|j] r t H; vm_compute in H; injection H as <- <-; vm_compute; discriminate.
Defined.

Lemma request_settles_witness :
  exists out w', @request JsonText.js_json net_500_then_ok 3 api "/user" no_options w0 = (out, w') /\ out <> Pending.
Proof.
  apply (@request_settles JsonText.js_json net_500_then_ok 3 api "/user" no_options w0);
    [constructor | vm_compute; lia |].
  intros [|j] r t H; vm_compute in H; injection H as <- <-; discriminate.
Defined.

(** A timeout of 2^31 ms against a network that answers in 40 ms. *)
Lemma huge_timeout_aborts_witness :
  exists w', @request JsonText.js_json net_ok 3 api "/user" huge_timeout_options w0 =
    (Rejected (final_error abort_error), w') /\
    w_calls w' = (w_calls w0 + S (Z.to_nat (retries huge_timeout_options ?? DEFAULT_RETRIES)))%nat /\
    w_now w' = w_now w0 + Z.of_nat (Z.to_nat (retries huge_timeout_options ?? DEFAULT_RETRIES))
                            * timer_delay (retryDelay huge_timeout_options ?? DEFAULT_RETRY_DELAY).
Proof.
  apply (@huge_timeout_aborts JsonText.js_json net_ok 3 api "/user" huge_timeout_options w0 (2 ^ 31));
    [constructor | vm_compute; lia | reflexivity | right; reflexivity | reflexivity].
Defined.

Lemma get_with_body_rejected_witness :
  exists w', @get JsonText.js_json net_ok 3 api "/user" body_options w0 =
    (Rejected (final_error get_with_body_error), w') /\
    w_calls w' = (w_calls w0 + S (Z.to_nat (retries body_options ?? DEFAULT_RETRIES)))%nat /\
    w_now w' = w_now w0 + Z.of_nat (Z.to_nat (retries body_options ?? DEFAULT_RETRIES))
                            * timer_delay (retryDelay body_options ?? DEFAULT_RETRY_DELAY).
Proof.
  apply (@get_with_body_rejected JsonText.js_json net_ok 3 api "/user" body_options w0 "q");
    [constructor | vm_compute; lia | reflexivity].
Defined.

Lemma headers_instance_dropped_witness :
  wr_headers (wire_of api "/user" instance_options) = [("content-type", "application/json")].
Proof. apply (headers_instance_dropped api "/user" instance_options [("Authorization", "t")]). reflexivity. Defined.

Lemma content_type_case_joined_witness :
  wr_headers (wire_of api "/user" lower_ct_options) = [("content-type", "application/json, text/plain")].
Proof. apply (content_type_case_joined api "/user" lower_ct_options "text/plain"). reflexivity. Defined.

(** Scenario C: POST with the body {name:"x"}. *)
Lemma post_wire_witness :
  exists out w', @post JsonText.js_json net_500_then_ok 3 api "/user" name_value no_options w0 = (out, w') /\
    (w_calls w0 < w_calls w')%nat /\
    fetched (w_log w') = (fetched (w_log w0) ++
      repeat (mkWire (baseUrl api ++ "/user") POST [("content-type", "application/json")]
                     (Some (@stringify JsonText.js_json name_value)) CredInclude) (w_calls w' - w_calls w0))%list.
Proof. apply (@post_wire JsonText.js_json net_500_then_ok 3 api "/user" name_value no_options w0); [constructor | vm_compute; lia | reflexivity]. Defined.

Lemma request_same_wire_witness :
  exists out w', @request JsonText.js_json net_500_then_ok 3 api "/user" no_options w0 = (out, w') /\
    fetched (w_log w') = (fetched (w_log w0) ++ repeat (wire_of api "/user" no_options) (w_calls w' - w_calls w0)%nat)%list.
Proof. apply (@request_same_wire JsonText.js_json net_500_then_ok 3 api "/user" no_options w0); [constructor | vm_compute; lia]. Defined.

Lemma request_hung_network_witness :
  exists w', @request JsonText.js_json net_silent 3 api "/user" short_timeout_options w0 =
    (Rejected (final_error abort_error), w') /\
    w_calls w' = (w_calls w0 + S (Z.to_nat (retries short_timeout_options ?? DEFAULT_RETRIES)))%nat /\
    w_now w' = w_now w0 + Z.of_nat (S (Z.to_nat (retries short_timeout_options ?? DEFAULT_RETRIES))) * 3000
                       + Z.of_nat (Z.to_nat (retries short_timeout_options ?? DEFAULT_RETRIES))
                         * timer_delay (retryDelay short_timeout_options ?? DEFAULT_RETRY_DELAY).
Proof.
  apply (@request_hung_network JsonText.js_json net_silent 3 api "/user" short_timeout_options w0 3000);
    [constructor | vm_compute; lia | reflexivity | lia | reflexivity | intros j; exact I].
Defined.

Lemma request_body_stall_hangs_witness :
  exists w', @request JsonText.js_json net_stalled 3 api "/user" no_options w0 = (Pending, w') /\
    w_calls w' = S (w_calls w0) /\ w_timers w' = w_timers w0.
Proof.
  apply (@request_body_stall_hangs JsonText.js_json net_stalled 3 api "/user" no_options w0
           (mkResponse 200 id_body BodyStalled) 40);
    [constructor | vm_compute; lia | reflexivity ..].
Defined.

End Fetcher.
