(* ===== verification/EventLoop.v ===== *)
(** * Concurrent calls of [request] on the event loop

    Section 5 of the spec: each call of [Fetcher.request]
    (src/src/apis/fetcher.ts, lines 19-66) is an asynchronous operation
    that yields at the [await] of [fetch] (line 34) and at the [await]
    of the retry delay (line 55), and the [promise] it returns adopts
    the one of [response.json()] (line 50); many calls run at once on
    one event loop and share only the runtime: the clock, the timer
    table, the fresh ids and the log of [Async.World].

    [Module EventLoop] writes a call as the frame it is suspended in
    ([Frame]), the code that runs when it resumes as the handlers
    [begin_attempt], [on_response] and [on_error] in the promise monad
    of [Async] (the lines between two [await]s, with the microtasks of a
    [fetch] that rejects at once), and the event loop as a step
    relation [step] on a system of calls ([Sys]): a caller starts a
    call, the earliest timer fires, the earliest network reply or body
    read arrives, or the clock moves on to a time before every pending
    event.  Timers go first when a timer and a reply are due at the same
    time, as in [Async.fetch].  [run] is the deterministic scheduler
    that takes the earliest event each time.

    The invariant [inv] is kept by every step and holds of every
    [reachable] system.  It says the timer table is the timers of the
    suspended calls, the calls hold distinct ids, and each call is on
    course to settle as [Fetcher.retry_contract] says.  Every turn of
    [run] lowers [measure], and when no event is left every call has
    settled or waits on a stalled body ([next_none]).  The claims are
    [concurrent_calls_refine] and [timer_table_exact]. *)

From Stdlib Require Import ZArith String List Lia Bool Permutation Morphisms.
From S2P Require Import Prelude.
From S2P Require Import Async.
From S2P Require Import Json.
From S2P Require Import JsonText.
From S2P Require Import Fetcher.
Import ListNotations.

Open Scope string_scope.
Open Scope Z_scope.
Open Scope gj_scope.
Open Scope async_scope.

Module EventLoop.
Import Fetcher.

(** Where a call of [request] is suspended, with what it resumes with:
    - [AwaitFetch]: at line 34, attempt [k] with [options], its
      [controller] and abort timer [timeoutId], the [fetch] issued at
      time [t0] and the network's reply [rp] to it;
    - [AwaitRetry]: at line 55, after attempt [k - 1] failed, the retry
      timer [timerId] armed at time [t1];
    - [AwaitBody]: the promise of [response.json()] (line 50) adopted,
      the body of [r] read from time [t0];
    - [Settled]: the promise of the call has settled with [o]. *)
Inductive Frame :=
| AwaitFetch (options : FetchOptions) (k : nat) (controller timeoutId : nat) (t0 : Z) (rp : Reply)
| AwaitRetry (options : FetchOptions) (k : nat) (timerId : nat) (t1 : Z)
| AwaitBody (r : Response) (t0 : Z)
| Settled (o : Outcome Json).

(** A call: the receiver and arguments it was made with, and its frame. *)
Record Call := mkCall {
  c_self : Fetcher;
  c_url : string;
  c_options : FetchOptions;
  c_frame : Frame }.

(** The runtime shared by the calls, and the calls in the order they
    were made. *)
Record Sys := mkSys { s_world : World; s_calls : list Call }.

(** The time at which the call's code runs (it is the time of the
    event that resumed it). *)
Definition clock : M Z := fun w => (Resolved (w_now w), w).

(** ** The code between two [await]s *)

Section Handlers.
(** The network as this call sees it: the reply to its attempt [k]. *)
Variable nt : nat -> WireRequest -> Reply.

(** [fetch(url, init)] issued: the request goes on the wire, or the
    promise rejects at once for a GET with a body. *)
Definition start_fetch (url : string) (init : RequestInit) (k : nat) : M Reply :=
  fun w0 =>
    let w := mkWorld (w_now w0) (S (w_calls w0)) (w_timers w0) (w_next w0)
                     (w_log w0 ++ [EvFetch url init]) in
    match fetch_precheck init with
    | Some e => (Rejected e, w)
    | None => (Resolved (nt k (to_wire url init)), w)
    end.

(** Lines 51-64, the [catch] block up to the [await] of the retry
    delay: attempt [k] failed with [error]. *)
Definition on_error (options : FetchOptions) (k timeoutId : nat) (error : Thrown) : M Frame :=
  let retries := retries options ?? DEFAULT_RETRIES in
  let retryDelay := retryDelay options ?? DEFAULT_RETRY_DELAY in
  clearTimeout timeoutId ;;
  if 0 <? retries then
    t1 <- clock ;;
    id <- setTimeout FireResolve retryDelay ;;
    ret (AwaitRetry options (S k) id t1)
  else throw (final_error error).

(** Lines 44-50: the [fetch] of attempt [k] resolved with [response];
    the [throw] of line 47 goes to the [catch]. *)
Definition on_response (options : FetchOptions) (k timeoutId : nat) (response : Response)
  : M Frame :=
  try_catch
    (clearTimeout timeoutId ;;
     if negb (resp_ok response) then throw (http_error (status response))
     else t0 <- clock ;; ret (AwaitBody response t0))
    (on_error options k timeoutId).

(** Lines 23-42: attempt [k] up to the [await] of [fetch]. *)
Definition begin_attempt (self : Fetcher) (url : string) (options : FetchOptions) (k : nat)
  : M Frame :=
  let timeout := timeout options ?? DEFAULT_TIMEOUT in
  controller <- new_AbortController ;;
  timeoutId <- setTimeout (FireAbort controller) timeout ;;
  try_catch
    (t0 <- clock ;;
     rp <- start_fetch (baseUrl self ++ url) (request_init options controller) k ;;
     ret (AwaitFetch options k controller timeoutId t0 rp))
    (on_error options k timeoutId).
End Handlers.

(** An [async] function's code ran to its next [await] or to its end:
    a value it returns is its new frame, a value it throws settles its
    promise. *)
Definition resume (m : M Frame) (w : World) : Frame * World :=
  match m w with
  | (Resolved f, w') => (f, w')
  | (Rejected e, w') => (Settled (Rejected e), w')
  | (Pending, w') => (Settled Pending, w')
  end.

(** ** What a frame waits for *)

(** The timers a suspended call owns. *)
Definition timers_of (f : Frame) : list Timer :=
  match f with
  | AwaitFetch o _ c tid t0 _ =>
      [mkTimer tid (t0 + timer_delay (timeout o ?? DEFAULT_TIMEOUT)) (FireAbort c)]
  | AwaitRetry o _ id t1 =>
      [mkTimer id (t1 + timer_delay (retryDelay o ?? DEFAULT_RETRY_DELAY)) FireResolve]
  | _ => []
  end.

(** The ids (controllers and timers) a suspended call holds. *)
Definition frame_ids (f : Frame) : list nat :=
  match f with
  | AwaitFetch _ _ c tid _ _ => [c; tid]
  | AwaitRetry _ _ id _ => [id]
  | _ => []
  end.

(** When the network answers the frame: the reply to its [fetch], or
    the end of its body read. *)
Definition due (f : Frame) : option Z :=
  match f with
  | AwaitFetch _ _ _ _ t0 rp => option_map (Z.add t0) (reply_latency rp)
  | AwaitBody r t0 =>
      match body_read r with BodyStalled => None | _ => Some (t0 + body_wait r) end
  | _ => None
  end.

(** The timer [t] settles the promise the frame awaits: the abort of
    its controller, or the resolve of its retry delay. *)
Definition waits_on (t : Timer) (f : Frame) : bool :=
  match t_action t, f with
  | FireAbort c, AwaitFetch _ _ c' _ _ _ => Nat.eqb c c'
  | FireResolve, AwaitRetry _ _ id _ => Nat.eqb (t_id t) id
  | _, _ => false
  end.

(** The code the network's answer resumes. *)
Definition io_task {codec : JsonCodec} (f : Frame) : M Frame :=
  match f with
  | AwaitFetch o k _ tid _ (Respond _ r) => on_response o k tid r
  | AwaitFetch o k _ tid _ (NetFail _ e) => on_error o k tid e
  | AwaitBody r _ => ret (Settled (read_json r))
  | f => ret f
  end.

Definition set_clock (tm : Z) (w : World) : World := advance (tm - w_now w) w.

Section Loop.
(** The network: the reply to attempt [k] of the [i]-th call. *)
Context {codec : JsonCodec}.
Variable net : nat -> nat -> WireRequest -> Reply.

(** The code a timer resumes in the [i]-th call: the abort rejects the
    pending [fetch] (line 51), the retry delay ends and line 56 calls
    [request] again with one retry less. *)
Definition timer_task (i : nat) (t : Timer) (c : Call) : M Frame :=
  match t_action t, c_frame c with
  | FireAbort _, AwaitFetch o k _ tid _ _ => on_error o k tid abort_error
  | FireResolve, AwaitRetry o k _ _ =>
      begin_attempt (net i) (c_self c) (c_url c)
                    (with_retries o (retries o ?? DEFAULT_RETRIES - 1)) k
  | _, f => ret f
  end.

(** The [i]-th call resumes with [m]. *)
Definition run_call (i : nat) (c : Call) (m : M Frame) (w : World) (cs : list Call) : Sys :=
  let '(f, w') := resume m w in
  mkSys w' (set_nth i (mkCall (c_self c) (c_url c) (c_options c) f) cs).

(** A caller calls [request(url, options)] on [self]: the call runs to
    its first [await]. *)
Definition call_request (self : Fetcher) (url : string) (options : FetchOptions) (s : Sys)
  : Sys :=
  let '(f, w') := resume (begin_attempt (net (List.length (s_calls s))) self url options 0)
                         (s_world s) in
  mkSys w' (s_calls s ++ [mkCall self url options f]).

(** The timer [t] fires and resumes the call that waits on it. *)
Definition on_timer (t : Timer) (s : Sys) : Sys :=
  let w := fire t (s_world s) in
  match find_index (fun c => waits_on t (c_frame c)) (s_calls s) with
  | Some (i, c) => run_call i c (timer_task i t c) w (s_calls s)
  | None => mkSys w (s_calls s)
  end.

(** The network answers the [i]-th call at time [tm]. *)
Definition on_io (i : nat) (c : Call) (tm : Z) (s : Sys) : Sys :=
  run_call i c (io_task (c_frame c)) (set_clock tm (s_world s)) (s_calls s).

(** [t] is the earliest pending event (timers first at equal times). *)
Definition first_timer (t : Timer) (s : Sys) : Prop :=
  In t (w_timers (s_world s)) /\
  (forall t', In t' (w_timers (s_world s)) -> t_deadline t <= t_deadline t') /\
  (forall c d, In c (s_calls s) -> due (c_frame c) = Some d -> t_deadline t <= d).

(** An answer at [tm] is the earliest pending event. *)
Definition first_io (tm : Z) (s : Sys) : Prop :=
  (forall t, In t (w_timers (s_world s)) -> tm < t_deadline t) /\
  (forall c d, In c (s_calls s) -> due (c_frame c) = Some d -> tm <= d).

(** No event is pending before [tm]. *)
Definition quiet_until (tm : Z) (s : Sys) : Prop :=
  w_now (s_world s) <= tm /\
  (forall t, In t (w_timers (s_world s)) -> tm <= t_deadline t) /\
  (forall c d, In c (s_calls s) -> due (c_frame c) = Some d -> tm <= d).

Inductive step : Sys -> Sys -> Prop :=
| step_call self url o s :
    step s (call_request self url o s)
| step_timer t s :
    first_timer t s -> step s (on_timer t s)
| step_io i c tm s :
    nth_error (s_calls s) i = Some c -> due (c_frame c) = Some tm -> first_io tm s ->
    step s (on_io i c tm s)
| step_idle tm s :
    quiet_until tm s -> step s (mkSys (set_clock tm (s_world s)) (s_calls s)).

(** The systems the event loop reaches from a world with no timer
    armed and no call made. *)
Inductive reachable : Sys -> Prop :=
| reach_init w : w_timers w = [] -> reachable (mkSys w [])
| reach_step s s' : reachable s -> step s s' -> reachable s'.

(** ** The scheduler *)

(** The first timer of the table with the earliest deadline. *)
Fixpoint earliest_timer (ts : list Timer) : option Timer :=
  match ts with
  | [] => None
  | t :: ts' =>
      match earliest_timer ts' with
      | Some t' => if t_deadline t <=? t_deadline t' then Some t else Some t'
      | None => Some t
      end
  end.

Fixpoint earliest_io_from (i : nat) (cs : list Call) : option (nat * Call * Z) :=
  match cs with
  | [] => None
  | c :: cs' =>
      let rest := earliest_io_from (S i) cs' in
      match due (c_frame c), rest with
      | Some d, Some (j, c', d') => if d <=? d' then Some (i, c, d) else rest
      | Some d, None => Some (i, c, d)
      | None, _ => rest
      end
  end.

(** The first call with the earliest answer due. *)
Definition earliest_io (cs : list Call) : option (nat * Call * Z) := earliest_io_from 0 cs.

(** One turn of the event loop: the earliest event, if any. *)
Definition next (s : Sys) : option Sys :=
  match earliest_timer (w_timers (s_world s)), earliest_io (s_calls s) with
  | Some t, Some (i, c, d) => if t_deadline t <=? d then Some (on_timer t s) else Some (on_io i c d s)
  | Some t, None => Some (on_timer t s)
  | None, Some (i, c, d) => Some (on_io i c d s)
  | None, None => None
  end.

Fixpoint run (fuel : nat) (s : Sys) : Sys :=
  match fuel with
  | O => s
  | S f => match next s with Some s' => run f s' | None => s end
  end.

(** ** The invariant *)

(** The outcome the retry contract gives the rest of a call of [url] on
    [self] made with [o], from attempt [k] on. *)
Definition remaining (nt : nat -> WireRequest -> Reply) (self : Fetcher) (url : string)
  (o : FetchOptions) (k : nat) : Outcome Json :=
  fst (fst (retry_contract (attempt_of nt 0 self url o)
                           (timer_delay (retryDelay o ?? DEFAULT_RETRY_DELAY))
                           (Z.to_nat (retries o ?? DEFAULT_RETRIES)) k)).

(** The outcome a frame is bound to settle with. *)
Definition frame_expected (nt : nat -> WireRequest -> Reply) (self : Fetcher) (url : string)
  (f : Frame) : Outcome Json :=
  match f with
  | AwaitFetch o k _ _ _ _ => remaining nt self url o k
  | AwaitRetry o k _ _ =>
      remaining nt self url (with_retries o (retries o ?? DEFAULT_RETRIES - 1)) k
  | AwaitBody r _ => read_json r
  | Settled out => out
  end.

(** The [fetch] a frame awaits went out as attempt [k] of the call. *)
Definition frame_ok (nt : nat -> WireRequest -> Reply) (self : Fetcher) (url : string)
  (f : Frame) : Prop :=
  match f with
  | AwaitFetch o k c _ _ rp =>
      fetch_precheck (request_init o c) = None /\ rp = nt k (wire_of self url o)
  | AwaitRetry o _ _ _ => 0 < retries o ?? DEFAULT_RETRIES
  | _ => True
  end.

Definition call_ok (nt : nat -> WireRequest -> Reply) (c : Call) : Prop :=
  frame_ok nt (c_self c) (c_url c) (c_frame c) /\
  frame_expected nt (c_self c) (c_url c) (c_frame c) =
  remaining nt (c_self c) (c_url c) (c_options c) 0.

(** The timers and the ids the calls hold. *)
Definition owned (cs : list Call) : list Timer := flat_map (fun c => timers_of (c_frame c)) cs.
Definition held (cs : list Call) : list nat := flat_map (fun c => frame_ids (c_frame c)) cs.

(** The invariant of the event loop: the timer table holds exactly the
    timers of the suspended calls, the ids the calls hold are distinct
    and below the next fresh id, and every call is on course to settle
    as its retry contract says. *)
Record inv (s : Sys) : Prop := {
  inv_table : Permutation (w_timers (s_world s)) (owned (s_calls s));
  inv_held : NoDup (held (s_calls s));
  inv_fresh : Forall (fun y => (y < w_next (s_world s))%nat) (held (s_calls s));
  inv_calls : forall i c, nth_error (s_calls s) i = Some c -> call_ok (net i) c }.

(** The retry budget of a call made with [o], and a bound on the
    events a frame still waits for. *)
Definition budget (o : FetchOptions) : nat := Z.to_nat (retries o ?? DEFAULT_RETRIES).

Definition weight (f : Frame) : nat :=
  match f with
  | AwaitFetch o _ _ _ _ _ => 3 * budget o + 2
  | AwaitRetry o _ _ _ => 3 * budget o
  | AwaitBody _ _ => 1
  | Settled _ => 0
  end.

Definition measure (cs : list Call) : nat := list_sum (map (fun c => weight (c_frame c)) cs).

(** The frames the handlers return. *)
Definition err_frame (o : FetchOptions) (k : nat) (e : Thrown) (id : nat) (t1 : Z) : Frame :=
  if 0 <? (retries o ?? DEFAULT_RETRIES) then AwaitRetry o (S k) id t1
  else Settled (Rejected (final_error e)).

Definition resp_frame (o : FetchOptions) (k : nat) (r : Response) (id : nat) (t : Z) : Frame :=
  if resp_ok r then AwaitBody r t else err_frame o k (http_error (status r)) id t.

Definition att_frame (nt : nat -> WireRequest -> Reply) (self : Fetcher) (url : string)
  (o : FetchOptions) (k n : nat) (t : Z) : Frame :=
  match fetch_precheck (request_init o n) with
  | None => AwaitFetch o k n (S n) t (nt k (wire_of self url o))
  | Some e => err_frame o k e (S (S n)) t
  end.

(** The handler [m] run from [w] returns the frame [f], leaves the
    table [ts] with the timers of [f] added, and takes the ids of [f]
    fresh. *)
Definition resumes_to (m : M Frame) (w : World) (ts : list Timer) (f : Frame) : Prop :=
  exists w', resume m w = (f, w') /\ w_timers w' = (ts ++ timers_of f)%list /\
    w_now w' = w_now w /\ (w_next w <= w_next w')%nat /\ NoDup (frame_ids f) /\
    Forall (fun y => w_next w <= y < w_next w')%nat (frame_ids f).

End Loop.

(** ** Two calls at once, for the witnesses *)

(** The first call's network answers at once with the [id] object, the
    second's answers its first attempt with a 500. *)
Definition net_two (i k : nat) (wr : WireRequest) : Reply :=
  match i with O => net_ok k wr | _ => net_500_then_ok k wr end.

(** A [get] of [/subscriptions/b] with the defaults, then one of
    [/subscriptions/a] with a 3 s timeout, two retries and a 100 ms
    delay, both made at time 0. *)
Definition two_calls : Sys :=
  call_request net_two api "/a" short_timeout_options
    (call_request net_two api "/b" no_options (mkSys w0 [])).

(** ** The handlers *)

Section Handlers_facts.
Context {codec : JsonCodec}.

Lemma drop_timer_idem id ts : drop_timer id (drop_timer id ts) = drop_timer id ts.
Proof. unfold drop_timer. induction ts as [|t ts IH]; simpl; [reflexivity|]. case_tests; simpl; rewrite ?E; congruence. Qed.

(** Close a [resumes_to] goal once the handler is unfolded. *)
Ltac resumes_tac :=
  eexists; split; [reflexivity|]; cbn;
  repeat split; rewrite ?app_nil_r, ?app_assoc; try reflexivity; try lia;
  repeat (constructor; [simpl; lia|]); repeat constructor; lia.

Lemma on_error_resumes o k tid e w :
  resumes_to (on_error o k tid e) w (drop_timer tid (w_timers w)) (err_frame o k e (w_next w) (w_now w)).
Proof.
  unfold on_error, err_frame, resume, bind, clearTimeout, clock, setTimeout, ret, throw. cbn.
  destruct (0 <? _); resumes_tac.
Qed.

(** A handler that runs on as another one from a later world. *)
Lemma resumes_to_ext m m' w w' ts f :
  resume m w = resume m' w' -> w_now w' = w_now w -> (w_next w <= w_next w')%nat ->
  resumes_to m' w' ts f -> resumes_to m w ts f.
Proof.
  intros He Hn Hx (w'' & H1 & H2 & H3 & H4 & H5 & H6). exists w''.
  rewrite He. repeat split; auto; try lia.
  eapply Forall_impl; [|exact H6]. simpl. lia.
Qed.

Lemma on_response_resumes o k tid r w :
  resumes_to (on_response o k tid r) w (drop_timer tid (w_timers w))
             (resp_frame o k r (w_next w) (w_now w)).
Proof.
  unfold resp_frame. destruct (resp_ok r) eqn:Hok.
  - unfold on_response, try_catch, bind, clearTimeout, clock, ret. cbn. rewrite Hok. resumes_tac.
  - eapply resumes_to_ext with
      (m' := on_error o k tid (http_error (status r)))
      (w' := mkWorld (w_now w) (w_calls w) (drop_timer tid (w_timers w)) (w_next w)
                     (w_log w ++ [EvClearTimer tid])); [| reflexivity | cbn; lia |].
    + unfold on_response, try_catch, bind, clearTimeout. cbn. now rewrite Hok.
    + pose proof (on_error_resumes o k tid (http_error (status r))
        (mkWorld (w_now w) (w_calls w) (drop_timer tid (w_timers w)) (w_next w)
                 (w_log w ++ [EvClearTimer tid]))) as H.
      cbn in H. now rewrite drop_timer_idem in H.
Qed.

Lemma begin_attempt_resumes nt self url o k w :
  Forall (fun t => (t_id t < w_next w)%nat) (w_timers w) ->
  resumes_to (begin_attempt nt self url o k) w (w_timers w)
             (att_frame nt self url o k (w_next w) (w_now w)).
Proof.
  intros Hids. unfold att_frame.
  destruct (fetch_precheck (request_init o (w_next w))) as [e|] eqn:Hpre.
  - set (w3 := mkWorld (w_now w) (S (w_calls w))
                 (w_timers w ++ [mkTimer (S (w_next w)) (w_now w + timer_delay (timeout o ?? DEFAULT_TIMEOUT))
                                   (FireAbort (w_next w))])
                 (S (S (w_next w)))
                 ((w_log w ++ [EvSetTimer (S (w_next w)) (timer_delay (timeout o ?? DEFAULT_TIMEOUT))])
                  ++ [EvFetch (baseUrl self ++ url) (request_init o (w_next w))])).
    eapply resumes_to_ext with (m' := on_error o k (S (w_next w)) e) (w' := w3); [| reflexivity | cbn; lia |].
    + unfold resume, begin_attempt, try_catch, bind, new_AbortController, setTimeout, clock, start_fetch.
      cbn -[fetch_precheck request_init]. now rewrite Hpre.
    + pose proof (on_error_resumes o k (S (w_next w)) e w3) as H. cbn in H.
      rewrite drop_timer_fresh in H by eauto with gj. exact H.
  - unfold resumes_to, resume, begin_attempt, try_catch, bind, new_AbortController, setTimeout, clock, start_fetch, ret.
    cbn -[fetch_precheck request_init]. rewrite Hpre. resumes_tac.
Qed.

End Handlers_facts.
(** ** Frames against the retry contract *)

Section Contract_facts.
Context {codec : JsonCodec}.
Variable nt : nat -> WireRequest -> Reply.

Lemma attempt_of_with_retries n0 self url o r :
  attempt_of nt n0 self url (with_retries o r) = attempt_of nt n0 self url o.
Proof. reflexivity. Qed.

(** A failed attempt leaves the rest of the contract to the frame the
    [catch] block returns. *)
Lemma err_frame_expected self url o k e id t :
  attempt_error (fst (attempt_of nt 0 self url o k)) = Some e ->
  frame_expected nt self url (err_frame o k e id t) = remaining nt self url o k.
Proof.
  intros He. unfold err_frame, remaining. rewrite budget_ltb.
  destruct (Z.to_nat (retries o ?? DEFAULT_RETRIES)) as [|n] eqn:Hn.
  - now rewrite (contract_fail_last _ _ _ _ He).
  - rewrite (contract_fail_step _ _ _ _ _ He).
    replace ((0 <? S n)%nat) with true by reflexivity. unfold frame_expected, remaining.
    cbn [retries with_retries option_default]. rewrite (proj2 (budget_pos _ _ Hn)).
    destruct (retry_contract _ _ n (S k)) as [[o' c] t']. reflexivity.
Qed.

Lemma err_frame_ok self url o k e id t : frame_ok nt self url (err_frame o k e id t).
Proof. unfold err_frame. destruct (Z.ltb_spec 0 (retries o ?? DEFAULT_RETRIES)); simpl; auto. Qed.

(** The frame a response resumes into, when the response is what
    attempt [k] got. *)
Lemma resp_frame_expected self url o k r lat id t :
  attempt_of nt 0 self url o k = (AResp r, lat) ->
  frame_ok nt self url (resp_frame o k r id t) /\
  frame_expected nt self url (resp_frame o k r id t) = remaining nt self url o k.
Proof.
  intros Ha. unfold resp_frame. destruct (resp_ok r) eqn:Hok.
  - split; [exact I|]. unfold remaining. now rewrite (contract_ok _ _ _ _ _ _ Ha Hok).
  - split; [apply err_frame_ok|]. apply err_frame_expected. rewrite Ha. simpl. now rewrite Hok.
Qed.

(** The frame attempt [k] starts in. *)
Lemma att_frame_expected self url o k n t :
  frame_ok nt self url (att_frame nt self url o k n t) /\
  frame_expected nt self url (att_frame nt self url o k n t) = remaining nt self url o k.
Proof.
  unfold att_frame. destruct (fetch_precheck (request_init o n)) as [e|] eqn:Hpre.
  - split; [apply err_frame_ok|]. apply err_frame_expected.
    unfold attempt_of. change (fetch_precheck (request_init o 0)) with (fetch_precheck (request_init o n)).
    now rewrite Hpre.
  - split; [split; reflexivity + exact Hpre | reflexivity].
Qed.

(** The handlers move a call to a frame of smaller weight. *)
Lemma weight_err_frame o k e id t : (weight (err_frame o k e id t) <= 3 * budget o)%nat.
Proof. unfold err_frame. destruct (0 <? _); simpl; lia. Qed.

Lemma weight_resp_frame o k r id t : (weight (resp_frame o k r id t) <= 3 * budget o + 1)%nat.
Proof. unfold resp_frame. destruct (resp_ok r); [simpl; lia|]. pose proof (weight_err_frame o k (http_error (status r)) id t). lia. Qed.

Lemma weight_att_frame self url o k n t : (weight (att_frame nt self url o k n t) <= 3 * budget o + 2)%nat.
Proof. unfold att_frame. destruct (fetch_precheck _); [pose proof (weight_err_frame o k t0 (S (S n)) t)|]; simpl; lia. Qed.

Lemma budget_with_retries o :
  0 < retries o ?? DEFAULT_RETRIES ->
  (budget (with_retries o (retries o ?? DEFAULT_RETRIES - 1)) + 1 = budget o)%nat.
Proof. unfold budget. cbn [retries with_retries option_default]. lia. Qed.

End Contract_facts.

(** ** The timer table up to order *)

Local Open Scope list_scope.

Lemma drop_timer_perm x : Proper (@Permutation Timer ==> @Permutation Timer) (drop_timer x).
Proof.
  intros l l' H. unfold drop_timer. induction H as [| t l l' _ IH | t t' l | l l' l'' _ IH1 _ IH2]; simpl.
  - constructor.
  - destruct (negb _); auto.
  - destruct (negb (Nat.eqb (t_id t') x)), (negb (Nat.eqb (t_id t) x)); auto using Permutation_refl.
    constructor.
  - eauto using Permutation_trans.
Qed.
#[export] Existing Instance drop_timer_perm.

Lemma drop_timer_app x l1 l2 : drop_timer x (l1 ++ l2) = drop_timer x l1 ++ drop_timer x l2.
Proof. apply filter_app. Qed.

Lemma drop_timer_keep x l : (forall t, In t l -> t_id t <> x) -> drop_timer x l = l.
Proof.
  unfold drop_timer. induction l as [|t l IH]; intros H; simpl; [reflexivity|].
  destruct (Nat.eqb_spec (t_id t) x) as [E|E]; [destruct (H t (or_introl eq_refl) E)|].
  simpl. f_equal. apply IH. intros t' Ht'. apply H. now right.
Qed.

Lemma owned_app l1 l2 : owned (l1 ++ l2) = owned l1 ++ owned l2.
Proof. apply flat_map_app. Qed.

Lemma held_app l1 l2 : held (l1 ++ l2) = held l1 ++ held l2.
Proof. apply flat_map_app. Qed.

Lemma timers_of_ids f t : In t (timers_of f) -> In (t_id t) (frame_ids f).
Proof. destruct f; simpl; intuition subst; simpl; auto. Qed.

Lemma owned_ids l t : In t (owned l) -> In (t_id t) (held l).
Proof.
  unfold owned, held. rewrite !in_flat_map. intros (c & Hc & Ht).
  exists c. split; [exact Hc | now apply timers_of_ids].
Qed.

(** A frame owns a single timer or none. *)
Lemma timers_of_single f t : In t (timers_of f) -> timers_of f = [t].
Proof. destruct f; simpl; intuition subst; reflexivity. Qed.

(** The timers a frame owns are the ones it waits on, and a timer one
    frame waits on shares an id with any frame that owns it. *)
Lemma timers_of_waits f t : In t (timers_of f) -> waits_on t f = true.
Proof. destruct f; simpl; intuition subst; simpl; apply Nat.eqb_refl. Qed.

Lemma waits_on_shared t f g :
  waits_on t f = true -> In t (timers_of g) ->
  exists x, In x (frame_ids f) /\ In x (frame_ids g).
Proof.
  intros Hw Hg. destruct g as [o k c tid t0 rp|o k id t1| |]; simpl in Hg; try tauto;
    destruct Hg as [<-|[]]; destruct f; simpl in Hw; try discriminate; apply Nat.eqb_eq in Hw; subst;
    simpl; eexists; split; left; reflexivity.
Qed.

(** The middle entry's ids are disjoint from the others'. *)
Lemma held_mid_out l1 c l2 x :
  NoDup (held (l1 ++ c :: l2)) -> In x (frame_ids (c_frame c)) ->
  In x (held l1 ++ held l2) -> False.
Proof.
  rewrite held_app. simpl. intros Hnd Hx Hin.
  apply in_app_or in Hin as [Hin|Hin].
  - exact (NoDup_app_disj _ _ x Hnd Hin (in_or_app _ _ _ (or_introl Hx))).
  - exact (NoDup_app_disj _ _ x (NoDup_app_remove_l _ _ Hnd) Hx Hin).
Qed.

(** The table without the timer of the middle call. *)
Lemma drop_owned l1 c l2 t tbl :
  NoDup (held (l1 ++ c :: l2)) -> timers_of (c_frame c) = [t] ->
  Permutation tbl (owned (l1 ++ c :: l2)) ->
  Permutation (drop_timer (t_id t) tbl) (owned l1 ++ owned l2).
Proof.
  intros Hnd Ht Hp. rewrite Hp, owned_app. simpl. rewrite Ht, !drop_timer_app.
  unfold drop_timer at 2. simpl. rewrite Nat.eqb_refl. simpl.
  assert (Hx : In (t_id t) (frame_ids (c_frame c))) by (apply timers_of_ids; rewrite Ht; now left).
  rewrite !drop_timer_keep; [reflexivity| |];
    intros t' Ht' E; apply (held_mid_out l1 c l2 (t_id t) Hnd Hx); rewrite <- E;
    apply in_or_app; [right | left]; now apply owned_ids.
Qed.

(** ** How an awaited [fetch] settles *)

Section Race.
Context {codec : JsonCodec}.
Variable nt : nat -> WireRequest -> Reply.

(** The abort timer fired no later than the reply: the attempt failed
    with the [AbortError]. *)
Lemma abort_attempt self url o k c tid t0 rp :
  frame_ok nt self url (AwaitFetch o k c tid t0 rp) ->
  (forall lat, reply_latency rp = Some lat -> timer_delay (timeout o ?? DEFAULT_TIMEOUT) <= lat) ->
  attempt_error (fst (attempt_of nt 0 self url o k)) = Some abort_error.
Proof.
  intros [Hpre ->] Hlat. unfold attempt_of, race.
  change (fetch_precheck (request_init o 0)) with (fetch_precheck (request_init o c)). rewrite Hpre.
  simpl (0 + k)%nat. destruct (reply_latency (nt k (wire_of self url o))) as [lat|] eqn:Hl; [|reflexivity].
  rewrite (proj2 (Z.leb_le _ _) (Hlat lat eq_refl)). reflexivity.
Qed.

(** The reply came before the abort timer: the attempt got it. *)
Lemma reply_attempt self url o k c tid t0 rp lat :
  frame_ok nt self url (AwaitFetch o k c tid t0 rp) ->
  reply_latency rp = Some lat -> lat < timer_delay (timeout o ?? DEFAULT_TIMEOUT) ->
  attempt_of nt 0 self url o k =
  (match rp with Respond _ r => AResp r | NetFail _ e => AFail e | NoReply => AFail abort_error end, lat).
Proof.
  intros [Hpre ->] Hl Hlt. unfold attempt_of, race.
  change (fetch_precheck (request_init o 0)) with (fetch_precheck (request_init o c)). rewrite Hpre.
  simpl (0 + k)%nat. rewrite Hl, (proj2 (Z.leb_gt _ _) Hlt).
  destruct (nt k (wire_of self url o)); simpl in Hl; congruence.
Qed.

End Race.

(** ** The invariant is kept by every step *)

Section Invariant.
Context {codec : JsonCodec}.
Variable net : nat -> nat -> WireRequest -> Reply.

Lemma ret_resumes f w :
  timers_of f = [] -> frame_ids f = [] -> resumes_to (ret f) w (w_timers w) f.
Proof.
  intros Ht Hi. exists w. unfold resume, ret. rewrite Ht, Hi, app_nil_r.
  repeat split; constructor.
Qed.

Lemma inv_table_ids s :
  inv net s -> Forall (fun t => (t_id t < w_next (s_world s))%nat) (w_timers (s_world s)).
Proof.
  intros [Ht _ Hf _]. rewrite Forall_forall in *. intros t Hin.
  apply Hf, owned_ids. exact (Permutation_in _ Ht Hin).
Qed.

Lemma nth_error_mid {A} (l1 l2 : list A) x : nth_error (l1 ++ x :: l2) (List.length l1) = Some x.
Proof. rewrite nth_error_app2, Nat.sub_diag by lia. reflexivity. Qed.

(** Resuming the call [c] in the middle of the list keeps the invariant
    when its handler runs on the table without [c]'s timer and returns
    a frame on course. *)
Lemma run_call_inv s l1 c l2 m w1 ts f :
  inv net s -> s_calls s = l1 ++ c :: l2 ->
  w_next w1 = w_next (s_world s) ->
  Permutation ts (owned l1 ++ owned l2) ->
  resumes_to m w1 ts f ->
  call_ok (net (List.length l1)) (mkCall (c_self c) (c_url c) (c_options c) f) ->
  inv net (run_call (List.length l1) c m w1 (s_calls s)).
Proof.
  intros [Ht Hh Hf Hc] Hs Hn Hts (w' & Hr & Htab & _ & Hle & Hnd & Hfr) Hok.
  unfold run_call. rewrite Hr. rewrite Hs in Ht, Hh, Hf, Hc |- *.
  rewrite set_nth_app. rewrite held_app in Hh, Hf. simpl in Hh, Hf.
  rewrite Forall_forall in Hf, Hfr.
  constructor; cbn [s_world s_calls].
  - rewrite Htab, Hts, owned_app. simpl. rewrite <- app_assoc.
    apply Permutation_app_head, Permutation_app_comm.
  - rewrite held_app. simpl. apply (NoDup_replace_mid _ _ _ _ Hh Hnd).
    intros x Hx Hx'. specialize (Hfr x Hx).
    assert (x < w_next (s_world s))%nat by (apply Hf; rewrite !in_app_iff in *; tauto). lia.
  - rewrite held_app. simpl. apply Forall_forall. intros y Hy. rewrite !in_app_iff in Hy.
    destruct Hy as [Hy|[Hy|Hy]]; [| specialize (Hfr y Hy); lia |];
      assert (y < w_next (s_world s))%nat by (apply Hf; rewrite !in_app_iff; tauto); lia.
  - intros j cj Hj. destruct (Nat.eq_dec j (List.length l1)) as [->|Hne].
    + rewrite nth_error_mid in Hj. injection Hj as <-. exact Hok.
    + apply Hc. rewrite <- (set_nth_app l1 l2 c) in Hj. now rewrite nth_error_set_nth_neq in Hj by congruence.
Qed.

Lemma run_call_measure l1 c l2 m w1 ts f cs :
  cs = l1 ++ c :: l2 -> resumes_to m w1 ts f -> (weight f < weight (c_frame c))%nat ->
  (measure (s_calls (run_call (List.length l1) c m w1 cs)) < measure cs)%nat.
Proof.
  intros -> (w' & Hr & _) Hlt. unfold run_call. rewrite Hr. cbn [s_calls]. rewrite set_nth_app.
  unfold measure. rewrite !map_app, !list_sum_app. simpl. lia.
Qed.

(** Resuming a call with a frame of smaller weight: the invariant
    holds after, and the weight of the system went down. *)
Lemma run_call_step s l1 c l2 m w1 ts f :
  inv net s -> s_calls s = l1 ++ c :: l2 ->
  w_next w1 = w_next (s_world s) ->
  Permutation ts (owned l1 ++ owned l2) ->
  resumes_to m w1 ts f ->
  call_ok (net (List.length l1)) (mkCall (c_self c) (c_url c) (c_options c) f) ->
  (weight f < weight (c_frame c))%nat ->
  inv net (run_call (List.length l1) c m w1 (s_calls s)) /\
  (measure (s_calls (run_call (List.length l1) c m w1 (s_calls s))) < measure (s_calls s))%nat.
Proof. intros. split; [eapply run_call_inv | eapply run_call_measure]; eauto. Qed.

Lemma fire_ids t w :
  Forall (fun t => (t_id t < w_next w)%nat) (w_timers w) ->
  Forall (fun t' => (t_id t' < w_next (fire t w))%nat) (w_timers (fire t w)).
Proof.
  rewrite !Forall_forall. intros H t' Ht'. cbn in *. unfold drop_timer in Ht'.
  apply filter_In in Ht' as [Ht' _]. exact (H t' Ht').
Qed.

(** A new call keeps the invariant. *)
Lemma call_request_inv s self url o : inv net s -> inv net (call_request net self url o s).
Proof.
  intros Hinv. pose proof (inv_table_ids s Hinv) as Hids. destruct Hinv as [Ht Hh Hf Hc].
  destruct (begin_attempt_resumes (net (List.length (s_calls s))) self url o 0 (s_world s) Hids)
    as (w' & Hr & Htab & _ & Hle & Hnd & Hfr).
  unfold call_request. rewrite Hr. rewrite Forall_forall in Hf, Hfr.
  constructor; cbn [s_world s_calls].
  - rewrite Htab, owned_app, Ht. simpl. now rewrite app_nil_r.
  - rewrite held_app. simpl. rewrite app_nil_r. apply NoDup_app; auto.
    intros x Hx Hx'. specialize (Hf x Hx). specialize (Hfr x Hx'). lia.
  - rewrite held_app. simpl. rewrite app_nil_r. apply Forall_forall. intros y Hy.
    apply in_app_or in Hy as [Hy|Hy]; [specialize (Hf y Hy) | specialize (Hfr y Hy)]; lia.
  - intros j cj Hj. destruct (Nat.lt_ge_cases j (List.length (s_calls s))) as [Hlt|Hge].
    + rewrite nth_error_app1 in Hj by exact Hlt. exact (Hc j cj Hj).
    + rewrite nth_error_app2 in Hj by exact Hge.
      destruct (j - List.length (s_calls s))%nat eqn:E; [|destruct n; discriminate].
      injection Hj as <-. replace j with (List.length (s_calls s)) by lia.
      apply att_frame_expected.
Qed.

(** A timer in the table is owned by exactly the call the event loop
    hands it to. *)
Lemma inv_dispatch s t :
  inv net s -> In t (w_timers (s_world s)) ->
  exists l1 c l2, s_calls s = l1 ++ c :: l2 /\ timers_of (c_frame c) = [t] /\
    find_index (fun c => waits_on t (c_frame c)) (s_calls s) = Some (List.length l1, c).
Proof.
  intros [Ht Hh _ _] Hin.
  apply (Permutation_in _ Ht) in Hin. unfold owned in Hin.
  apply in_flat_map in Hin as (c & Hc & Htc). apply In_nth_error in Hc as (j & Hj).
  destruct (find_index (fun c => waits_on t (c_frame c)) (s_calls s)) as [[i c']|] eqn:Hfind.
  - pose proof (find_index_some _ _ _ _ Hfind) as (Hi & Hw).
    destruct (waits_on_shared _ _ _ Hw Htc) as (x & Hx1 & Hx2).
    assert (i = j) as <- by exact (NoDup_flat_map_nth (fun c => frame_ids (c_frame c)) _ _ _ _ _ _ Hh Hi Hj Hx1 Hx2).
    rewrite Hi in Hj. injection Hj as ->.
    destruct (nth_error_split _ _ Hi) as (l1 & l2 & Hs & Hlen).
    exists l1, c, l2. repeat split; [exact Hs | now apply timers_of_single | now rewrite Hlen].
  - exfalso. apply find_index_none with (x := c) in Hfind; [|eapply nth_error_In; eauto].
    rewrite timers_of_waits in Hfind by exact Htc. discriminate.
Qed.

(** The earliest timer fires: the abort of a pending [fetch] fails its
    attempt with [AbortError], the end of a retry delay starts the next
    attempt. *)
Lemma on_timer_step s t :
  inv net s -> first_timer t s ->
  inv net (on_timer net t s) /\ (measure (s_calls (on_timer net t s)) < measure (s_calls s))%nat.
Proof.
  intros Hinv (Hin & _ & Hdue).
  pose proof (inv_table_ids s Hinv) as Hids.
  destruct (inv_dispatch s t Hinv Hin) as (l1 & c & l2 & Hs & Htc & Hfind).
  pose proof (inv_calls _ _ Hinv (List.length l1) c) as [Hfok Hexp];
    [rewrite Hs; apply nth_error_mid|].
  pose proof (drop_owned l1 c l2 t _ ltac:(rewrite <- Hs; apply Hinv) Htc
               ltac:(rewrite <- Hs; apply Hinv)) as Hdrop.
  unfold on_timer. rewrite Hfind. unfold timer_task.
  destruct c as [self url o0 f]; cbn [c_frame c_self c_url c_options] in *.
  destruct f as [o k ctrl tid t0 rp|o k id t1| |]; simpl in Htc; try discriminate;
    injection Htc as <-; cbn [t_action t_id] in *.
  - eapply run_call_step; [exact Hinv | exact Hs | reflexivity | | apply on_error_resumes | |].
    + cbn. now rewrite drop_timer_idem.
    + split; [apply err_frame_ok|]. cbn [c_self c_url c_options c_frame]. rewrite <- Hexp.
      apply err_frame_expected. apply (abort_attempt _ _ _ _ _ _ _ t0 rp Hfok).
      intros lat Hl. specialize (Hdue _ (t0 + lat) ltac:(rewrite Hs; apply in_or_app; right; now left)).
      cbn in Hdue. rewrite Hl in Hdue. specialize (Hdue eq_refl). lia.
    + cbn [weight c_frame]. eapply Nat.le_lt_trans; [apply weight_err_frame | lia].
  - eapply run_call_step; [exact Hinv | exact Hs | reflexivity | exact Hdrop
                          | apply begin_attempt_resumes, fire_ids, Hids | |].
    + split; [apply att_frame_expected|]. cbn [c_self c_url c_options c_frame].
      rewrite (proj2 (att_frame_expected _ _ _ _ _ _ _)). exact Hexp.
    + pose proof (budget_with_retries o Hfok). cbn [weight c_frame].
      eapply Nat.le_lt_trans; [apply weight_att_frame | lia].
Qed.

(** The earliest answer of the network arrives. *)
Lemma on_io_step s i c tm :
  inv net s -> nth_error (s_calls s) i = Some c -> due (c_frame c) = Some tm -> first_io tm s ->
  inv net (on_io i c tm s) /\ (measure (s_calls (on_io i c tm s)) < measure (s_calls s))%nat.
Proof.
  intros Hinv Hi Hdue (Htm & _).
  destruct (nth_error_split _ _ Hi) as (l1 & l2 & Hs & <-).
  pose proof (inv_calls _ _ Hinv _ _ Hi) as [Hfok Hexp].
  unfold on_io. destruct c as [self url o0 f]; cbn [c_frame c_self c_url c_options] in *.
  destruct f as [o k ctrl tid t0 rp|o k id t1|r t0|]; simpl in Hdue; try discriminate.
  - destruct (reply_latency rp) as [lat|] eqn:Hl; simpl in Hdue; [injection Hdue as <- | discriminate].
    set (t := mkTimer tid (t0 + timer_delay (timeout o ?? DEFAULT_TIMEOUT)) (FireAbort ctrl)).
    assert (Hlt : lat < timer_delay (timeout o ?? DEFAULT_TIMEOUT)).
    { assert (In t (w_timers (s_world s))) as Hint.
      { apply (Permutation_in _ (Permutation_sym (inv_table _ _ Hinv))). rewrite Hs, owned_app.
        apply in_or_app. right. simpl. now left. }
      specialize (Htm t Hint). simpl in Htm. lia. }
    pose proof (reply_attempt _ _ _ _ _ _ _ _ _ _ Hfok Hl Hlt) as Ha.
    pose proof (drop_owned l1 _ l2 t _ ltac:(rewrite <- Hs; apply Hinv) eq_refl
                 ltac:(rewrite <- Hs; apply Hinv)) as Hdrop.
    destruct rp as [lat' r|lat' e|]; cbn [io_task c_frame].
    + eapply run_call_step with (ts := drop_timer tid (w_timers (set_clock (t0 + lat) (s_world s))));
        [exact Hinv | exact Hs | reflexivity | exact Hdrop | apply on_response_resumes | |].
      * destruct (resp_frame_expected _ _ _ _ _ _ _ (w_next (set_clock (t0 + lat) (s_world s)))
                    (w_now (set_clock (t0 + lat) (s_world s))) Ha) as [H1 H2].
        split; [exact H1|]. cbn [c_self c_url c_options c_frame]. rewrite H2. exact Hexp.
      * cbn [weight c_frame]. eapply Nat.le_lt_trans; [apply weight_resp_frame | lia].
    + eapply run_call_step with (ts := drop_timer tid (w_timers (set_clock (t0 + lat) (s_world s))));
        [exact Hinv | exact Hs | reflexivity | exact Hdrop | apply on_error_resumes | |].
      * split; [apply err_frame_ok|]. cbn [c_self c_url c_options c_frame]. rewrite <- Hexp.
        apply err_frame_expected. now rewrite Ha.
      * cbn [weight c_frame]. eapply Nat.le_lt_trans; [apply weight_err_frame | lia].
    + discriminate.
  - cbn [io_task c_frame]. eapply run_call_step; [exact Hinv | exact Hs | reflexivity | | now apply ret_resumes | |].
    + cbn. rewrite (inv_table _ _ Hinv), Hs, owned_app. reflexivity.
    + split; [exact I | exact Hexp].
    + cbn. lia.
Qed.

Lemma step_inv s s' : inv net s -> step net s s' -> inv net s'.
Proof.
  intros Hinv Hstep. destruct Hstep as [self url o s | t s Hfirst | i c tm s Hi Hdue Hfirst | tm s _].
  - now apply call_request_inv.
  - now apply on_timer_step.
  - now apply (on_io_step s i c tm).
  - destruct Hinv as [Ht Hh Hf Hc]. now constructor.
Qed.

Lemma reachable_inv s : reachable net s -> inv net s.
Proof.
  induction 1 as [w Hw | s s' _ IH Hstep].
  - constructor; cbn; [rewrite Hw; constructor | constructor | constructor | intros [|i]; discriminate].
  - exact (step_inv s s' IH Hstep).
Qed.

End Invariant.

(** ** The scheduler *)

Lemma earliest_timer_some ts t :
  earliest_timer ts = Some t -> In t ts /\ forall t', In t' ts -> t_deadline t <= t_deadline t'.
Proof.
  revert t. induction ts as [|t0 ts IH]; intros t H; simpl in H; [discriminate|].
  destruct (earliest_timer ts) as [t'|] eqn:E.
  - destruct (IH t' eq_refl) as [Hin Hmin].
    destruct (Z.leb_spec (t_deadline t0) (t_deadline t')); injection H as <-;
      (split; [simpl; tauto|]); intros t'' [<-|H'']; try lia; specialize (Hmin t'' H''); lia.
  - injection H as <-. destruct ts as [|t1 ts]; [|simpl in E; destruct (earliest_timer ts); try destruct (_ <=? _); discriminate].
    split; [now left|]. intros t'' [<-|[]]. lia.
Qed.

Lemma earliest_timer_none ts : earliest_timer ts = None -> ts = [].
Proof. destruct ts as [|t ts]; simpl; [auto|]. destruct (earliest_timer ts); [destruct (_ <=? _)|]; discriminate. Qed.

Lemma earliest_io_from_none cs : forall i,
  earliest_io_from i cs = None -> forall c, In c cs -> due (c_frame c) = None.
Proof.
  induction cs as [|c0 cs IH]; intros i H c Hin; [destruct Hin|]. simpl in H.
  destruct (earliest_io_from (S i) cs) as [[[j c'] d']|] eqn:E; destruct (due (c_frame c0)) eqn:Hd0;
    try destruct (_ <=? _); try discriminate.
  destruct Hin as [<-|Hin]; [exact Hd0 | exact (IH _ E c Hin)].
Qed.

Lemma earliest_io_from_some cs : forall i j c d,
  earliest_io_from i cs = Some (j, c, d) ->
  (i <= j)%nat /\ nth_error cs (j - i) = Some c /\ due (c_frame c) = Some d /\
  forall c' d', In c' cs -> due (c_frame c') = Some d' -> d <= d'.
Proof.
  induction cs as [|c0 cs IH]; intros i j c d H; simpl in H; [discriminate|].
  assert (Hhead : forall d0 c' d', due (c_frame c0) = Some d0 -> c' = c0 -> due (c_frame c') = Some d' -> d0 = d')
    by (intros ? ? ? H1 -> H2; congruence).
  destruct (earliest_io_from (S i) cs) as [[[j' c'] d']|] eqn:E.
  - destruct (IH _ _ _ _ E) as (Hle & Hn & Hd & Hmin).
    destruct (due (c_frame c0)) as [d0|] eqn:Hd0; [destruct (Z.leb_spec d0 d')|]; injection H as <- <- <-.
    + rewrite Nat.sub_diag. repeat split; auto. intros c'' d'' [Hc|Hin] Hd''.
      * rewrite (Hhead _ _ _ eq_refl (eq_sym Hc) Hd''). lia.
      * specialize (Hmin c'' d'' Hin Hd''). lia.
    + repeat split; [lia | replace (j' - i)%nat with (S (j' - S i)) by lia; exact Hn | exact Hd |].
      intros c'' d'' [Hc|Hin] Hd''; [rewrite <- (Hhead _ _ _ eq_refl (eq_sym Hc) Hd''); lia | exact (Hmin c'' d'' Hin Hd'')].
    + repeat split; [lia | replace (j' - i)%nat with (S (j' - S i)) by lia; exact Hn | exact Hd |].
      intros c'' d'' [<-|Hin] Hd''; [congruence | exact (Hmin c'' d'' Hin Hd'')].
  - destruct (due (c_frame c0)) as [d0|] eqn:Hd0; [|discriminate]. injection H as <- <- <-.
    rewrite Nat.sub_diag. repeat split; auto. intros c'' d'' [Hc|Hin] Hd''.
    + rewrite (Hhead _ _ _ eq_refl (eq_sym Hc) Hd''). lia.
    + rewrite (earliest_io_from_none _ _ E c'' Hin) in Hd''. discriminate.
Qed.

(** ** The scheduler takes steps of the event loop until none is left *)

Section Run.
Context {codec : JsonCodec}.
Variable net : nat -> nat -> WireRequest -> Reply.

Lemma next_cases s s' :
  next net s = Some s' ->
  (exists t, first_timer t s /\ s' = on_timer net t s) \/
  (exists i c tm, nth_error (s_calls s) i = Some c /\ due (c_frame c) = Some tm /\
                  first_io tm s /\ s' = on_io i c tm s).
Proof.
  unfold next. destruct (earliest_timer (w_timers (s_world s))) as [t|] eqn:Ht;
    destruct (earliest_io (s_calls s)) as [[[i c] d]|] eqn:Hio; try discriminate;
    [destruct (Z.leb_spec (t_deadline t) d)| |]; intros Heq; injection Heq as <-.
  all: try pose proof (earliest_timer_some _ _ Ht) as (Htin & Htmin).
  all: try (pose proof (earliest_io_from_some _ _ _ _ _ Hio) as (_ & Hn & Hd & Hmin);
            rewrite Nat.sub_0_r in Hn).
  - left. exists t. repeat split; auto. intros c' d' Hc' Hd'. specialize (Hmin c' d' Hc' Hd'). lia.
  - right. exists i, c, d. repeat split; auto. intros t' Ht'. specialize (Htmin t' Ht'). lia.
  - left. exists t. repeat split; auto. intros c' d' Hc' Hd'.
    now rewrite (earliest_io_from_none _ _ Hio c' Hc') in Hd'.
  - right. exists i, c, d. repeat split; auto. rewrite (earliest_timer_none _ Ht). intros t' [].
Qed.

Lemma next_sound s s' : next net s = Some s' -> step net s s'.
Proof.
  intros H. destruct (next_cases s s' H) as [(t & Hf & ->)|(i & c & tm & Hi & Hd & Hf & ->)].
  - now apply step_timer.
  - now apply step_io.
Qed.

(** Every turn of the scheduler lowers the weight of the system. *)
Lemma next_step s s' :
  inv net s -> next net s = Some s' -> inv net s' /\ (measure (s_calls s') < measure (s_calls s))%nat.
Proof.
  intros Hinv H. destruct (next_cases s s' H) as [(t & Hf & ->)|(i & c & tm & Hi & Hd & Hf & ->)].
  - now apply on_timer_step.
  - now apply on_io_step.
Qed.

(** When no event is left, every call has settled or waits on a body
    that never completes. *)
Lemma next_none s :
  inv net s -> next net s = None -> forall c, In c (s_calls s) ->
  (exists out, c_frame c = Settled out) \/
  (exists r t0, c_frame c = AwaitBody r t0 /\ body_read r = BodyStalled).
Proof.
  intros Hinv H c Hc. unfold next in H.
  destruct (earliest_timer _) eqn:Ht;
    [destruct (earliest_io _) as [[[? ?] ?]|]; [destruct (_ <=? _)|]; discriminate|].
  destruct (earliest_io (s_calls s)) as [[[? ?] ?]|] eqn:Hio; [discriminate|].
  pose proof (inv_table _ _ Hinv) as Hp. rewrite (earliest_timer_none _ Ht) in Hp.
  apply Permutation_nil in Hp.
  assert (Hno : timers_of (c_frame c) = []).
  { destruct (timers_of (c_frame c)) as [|t ts] eqn:E; [reflexivity|]. exfalso.
    assert (Hin : In t (owned (s_calls s))) by
      (unfold owned; apply in_flat_map; exists c; rewrite E; split; [exact Hc | now left]).
    rewrite Hp in Hin. destruct Hin. }
  pose proof (earliest_io_from_none _ _ Hio c Hc) as Hd.
  destruct (c_frame c) as [| |r t0|out]; simpl in Hno, Hd; try discriminate.
  - right. exists r, t0. split; [reflexivity|]. destruct (body_read r); congruence.
  - left. eauto.
Qed.

Lemma reachable_run n s : reachable net s -> reachable net (run net n s).
Proof.
  revert s. induction n as [|n IH]; intros s H; simpl; [exact H|].
  destruct (next net s) as [s'|] eqn:E; [|exact H].
  apply IH. eapply reach_step; [exact H | now apply next_sound].
Qed.

(** Fuel of the system's weight is enough for [run] to drain it. *)
Lemma run_drains n s :
  inv net s -> (measure (s_calls s) <= n)%nat -> next net (run net n s) = None.
Proof.
  revert s. induction n as [|n IH]; intros s Hinv Hle; simpl.
  - destruct (next net s) as [s'|] eqn:E; [|reflexivity].
    destruct (next_step s s' Hinv E). lia.
  - destruct (next net s) as [s'|] eqn:E; [|exact E].
    destruct (next_step s s' Hinv E) as [Hinv' Hlt]. apply IH; [exact Hinv' | lia].
Qed.

End Run.

(** ** Properties of concurrent calls *)

Section Claims.
Context {codec : JsonCodec}.
Variable net : nat -> nat -> WireRequest -> Reply.

(** [request] run alone from a world with no [fetch] made yet settles
    with the outcome the contract gives attempt [0]. *)
Lemma request_remaining nt fuel self url o w :
  wf_world w -> w_calls w = 0%nat -> (budget o < fuel)%nat ->
  fst (request nt fuel self url o w) = remaining nt self url o 0.
Proof.
  intros Hwf H0 Hf. unfold remaining.
  destruct (contract_of nt w self url o) as [[out c] t] eqn:Hc.
  destruct (request_outcome nt fuel self url o w out c t Hwf Hf Hc) as (w' & -> & _).
  unfold contract_of in Hc. rewrite H0 in Hc. now rewrite Hc.
Qed.

(** C35 (refinement).  Calls made at once on one event loop do not
    interfere: from any state the event loop reaches, running it until
    no event is left settles every call with exactly the outcome
    [request] has when it runs alone against the replies that call
    got, or leaves it waiting for a response body that never completes
    (and then the call alone stays pending too). *)
Theorem concurrent_calls_refine s :
  reachable net s ->
  forall i c, nth_error (s_calls (run net (measure (s_calls s)) s)) i = Some c ->
  forall fuel w, wf_world w -> w_calls w = 0%nat -> (budget (c_options c) < fuel)%nat ->
  c_frame c = Settled (fst (request (net i) fuel (c_self c) (c_url c) (c_options c) w)) \/
  (exists r t0, c_frame c = AwaitBody r t0 /\ body_read r = BodyStalled /\
     fst (request (net i) fuel (c_self c) (c_url c) (c_options c) w) = Pending).
Proof.
  intros Hr i c Hi fuel w Hwf H0 Hf.
  pose proof (reachable_inv net _ (reachable_run net (measure (s_calls s)) s Hr)) as Hinv.
  pose proof (run_drains net _ s (reachable_inv net s Hr) (le_n _)) as Hnone.
  destruct (inv_calls _ _ Hinv i c Hi) as [_ Hexp].
  rewrite (request_remaining (net i) fuel _ _ _ w Hwf H0 Hf), <- Hexp.
  destruct (next_none net _ Hinv Hnone c (nth_error_In _ _ Hi)) as [(out & Hout)|(r & t0 & Hb & Hst)];
    rewrite ?Hout, ?Hb; [left; reflexivity | right].
  exists r, t0. repeat split; [exact Hst|]. simpl. unfold read_json. now rewrite Hst.
Qed.

(** C36 (safety).  In every state the event loop reaches, the timer
    table holds exactly the timers of the suspended calls: the abort
    timer of each call awaiting its [fetch] and the retry timer of each
    call awaiting its retry delay, and no other.  No path of [request]
    leaves a timer armed after the call moves on, whatever the other
    calls do, and no two calls share a controller or a timer. *)
Theorem timer_table_exact s :
  reachable net s ->
  Permutation (w_timers (s_world s)) (owned (s_calls s)) /\ NoDup (held (s_calls s)).
Proof. intros Hr. destruct (reachable_inv net s Hr) as [Ht Hh _ _]. split; assumption. Qed.

End Claims.

(** ** Witnesses *)

Lemma two_calls_reachable : reachable (codec := JsonText.js_json) net_two two_calls.
Proof.
  eapply reach_step; [|apply step_call]. eapply reach_step; [|apply step_call].
  apply reach_init. reflexivity.
Qed.

Lemma concurrent_calls_refine_witness :
  exists c, nth_error (s_calls (run (codec := JsonText.js_json) net_two
                                   (measure (s_calls two_calls)) two_calls)) 1 = Some c /\
  c_frame c = Settled (Resolved id_value) /\
  (c_frame c = Settled (fst (request (codec := JsonText.js_json) (net_two 1) 3
                                     (c_self c) (c_url c) (c_options c) w0)) \/
   exists r t0, c_frame c = AwaitBody r t0 /\ body_read r = BodyStalled /\
     fst (request (codec := JsonText.js_json) (net_two 1) 3 (c_self c) (c_url c) (c_options c) w0) = Pending).
Proof.
  eexists. split; [vm_compute; reflexivity|]. split; [reflexivity|].
  apply (concurrent_calls_refine net_two two_calls two_calls_reachable 1);
    [vm_compute; reflexivity | constructor | reflexivity | vm_compute; lia].
Defined.

Lemma timer_table_exact_witness :
  w_timers (s_world two_calls) <> [] /\
  Permutation (w_timers (s_world two_calls)) (owned (s_calls two_calls)) /\
  NoDup (held (s_calls two_calls)).
Proof.
  split; [vm_compute; discriminate|].
  exact (timer_table_exact (codec := JsonText.js_json) net_two two_calls two_calls_reachable).
Defined.

End EventLoop.
