(* ===== verification/Unicode.v ===== *)
(** * JavaScript strings and their UTF-8 encoding

    A JavaScript string is a sequence of UTF-16 code units, integers in
    [0, 2^16).  [new URLSearchParams(record)] takes the record's names
    and values as USVStrings: WebIDL converts each string to its
    Unicode scalar values, joining a high surrogate followed by a low
    one into one code point and replacing every other surrogate by
    U+FFFD.  The serializer then encodes the scalar values as UTF-8
    (WHATWG Encoding, the UTF-8 encoder) before percent-encoding the
    bytes.  [Module Unicode] writes these steps as the standards do,
    with shifts and masks on [Z].  It also gives the two inverses a
    server uses: a strict UTF-8 decoder and the UTF-16 encoding of
    scalar values (ECMA-262 UTF16EncodeCodePoint).

    The theorems: every scalar string decodes back from its UTF-8
    bytes, and a well-formed JavaScript string (every surrogate paired)
    comes back unchanged.  An ill-formed one comes back as
    [String.prototype.toWellFormed] makes it. *)

From Stdlib Require Import ZArith Ascii String List Lia Bool.
From S2P Require Import Prelude.
Import ListNotations.

Local Open Scope Z_scope.

Module Unicode.

(** ** Code units and scalar values *)

Definition is_high (u : Z) : bool := (0xD800 <=? u) && (u <=? 0xDBFF).
Definition is_low (u : Z) : bool := (0xDC00 <=? u) && (u <=? 0xDFFF).
Definition is_surrogate (u : Z) : bool := (0xD800 <=? u) && (u <=? 0xDFFF).

(** Every element of a JavaScript string is a 16-bit code unit. *)
Definition units_ok (s : list Z) : Prop := Forall (fun u => 0 <= u < 2 ^ 16) s.

(** A Unicode scalar value: a code point that is not a surrogate. *)
Definition is_scalar (c : Z) : bool := (0 <=? c) && (c <=? 0x10FFFF) && negb (is_surrogate c).

(** WebIDL's conversion of a JavaScript string to a USVString (Infra:
    the code points of the string, then every surrogate replaced by
    U+FFFD). *)
Fixpoint usv (s : list Z) : list Z :=
  match s with
  | [] => []
  | u :: s' =>
      if is_high u then
        match s' with
        | u' :: s'' =>
            if is_low u' then (0x10000 + Z.shiftl (u - 0xD800) 10 + (u' - 0xDC00)) :: usv s''
            else 0xFFFD :: usv s'
        | [] => [0xFFFD]
        end
      else if is_low u then 0xFFFD :: usv s'
      else u :: usv s'
  end.

(** Every surrogate of the string is paired. *)
Fixpoint well_formed (s : list Z) : bool :=
  match s with
  | [] => true
  | u :: s' =>
      if is_high u then
        match s' with
        | u' :: s'' => is_low u' && well_formed s''
        | [] => false
        end
      else negb (is_low u) && well_formed s'
  end.

(** ** UTF-8 *)

(** The continuation bytes of the UTF-8 encoder, from the most
    significant: [0x80 | ((cp >> 6 (n - 1)) & 0x3F)] down to [n = 1]. *)
Fixpoint utf8_trail (cp : Z) (count : nat) : list Z :=
  match count with
  | O => []
  | S n => Z.lor 0x80 (Z.land (Z.shiftr cp (6 * Z.of_nat n)) 0x3F) :: utf8_trail cp n
  end.

(** The UTF-8 encoder of WHATWG Encoding on one scalar value: an ASCII
    code point is its own byte; otherwise the lead byte is
    [(cp >> (6 * count)) + offset] and [count] continuation bytes
    follow. *)
Definition utf8_encode_cp (cp : Z) : list Z :=
  if cp <? 0x80 then [cp]
  else
    let '(count, offset) :=
      if cp <? 0x800 then (1%nat, 0xC0)
      else if cp <? 0x10000 then (2%nat, 0xE0)
      else (3%nat, 0xF0) in
    (Z.shiftr cp (6 * Z.of_nat count) + offset) :: utf8_trail cp count.

Definition utf8_encode (cps : list Z) : list Z := flat_map utf8_encode_cp cps.

Definition bytes_to_string (bs : list Z) : string :=
  string_of_list_ascii (map (fun b => ascii_of_nat (Z.to_nat b)) bs).

Definition string_bytes (s : string) : list Z :=
  map (fun c => Z.of_nat (nat_of_ascii c)) (list_ascii_of_string s).

(** The UTF-8 bytes of a JavaScript string, as [URLSearchParams]
    serializes it: the USVString conversion, then UTF-8. *)
Definition utf8 (s : list Z) : string := bytes_to_string (utf8_encode (usv s)).

Definition cont_byte (b : Z) : bool := (0x80 <=? b) && (b <? 0xC0).

(** A strict UTF-8 decoder (TextDecoder with [fatal: true]): it refuses
    overlong forms, surrogates and code points above U+10FFFF. *)
Fixpoint utf8_decode (bs : list Z) : option (list Z) :=
  match bs with
  | [] => Some []
  | b1 :: r1 =>
      if b1 <? 0x80 then option_map (cons b1) (utf8_decode r1)
      else if (0xC2 <=? b1) && (b1 <? 0xE0) then
        match r1 with
        | b2 :: r2 =>
            if cont_byte b2 then option_map (cons ((b1 - 0xC0) * 64 + (b2 - 0x80))) (utf8_decode r2)
            else None
        | [] => None
        end
      else if (0xE0 <=? b1) && (b1 <? 0xF0) then
        match r1 with
        | b2 :: b3 :: r3 =>
            let cp := ((b1 - 0xE0) * 64 + (b2 - 0x80)) * 64 + (b3 - 0x80) in
            if cont_byte b2 && cont_byte b3 && (0x800 <=? cp) && negb (is_surrogate cp)
            then option_map (cons cp) (utf8_decode r3) else None
        | _ => None
        end
      else if (0xF0 <=? b1) && (b1 <? 0xF5) then
        match r1 with
        | b2 :: b3 :: b4 :: r4 =>
            let cp := (((b1 - 0xF0) * 64 + (b2 - 0x80)) * 64 + (b3 - 0x80)) * 64 + (b4 - 0x80) in
            if cont_byte b2 && cont_byte b3 && cont_byte b4 && (0x10000 <=? cp) && (cp <=? 0x10FFFF)
            then option_map (cons cp) (utf8_decode r4) else None
        | _ => None
        end
      else None
  end.

(** ** UTF-16 *)

(** ECMA-262 UTF16EncodeCodePoint. *)
Definition utf16_encode_cp (cp : Z) : list Z :=
  if cp <=? 0xFFFF then [cp]
  else [(cp - 0x10000) / 0x400 + 0xD800; (cp - 0x10000) mod 0x400 + 0xDC00].

Definition utf16_encode (cps : list Z) : list Z := flat_map utf16_encode_cp cps.

(** [s.toWellFormed()]: every lone surrogate replaced by U+FFFD. *)
Definition to_well_formed (s : list Z) : list Z := utf16_encode (usv s).

(** The code units of an ASCII literal. *)
Definition js_of_ascii (s : string) : list Z := string_bytes s.

(** ** Lemmas *)

(** Turn the boolean range tests of the hypotheses into propositions. *)
Ltac unicode_props :=
  unfold is_scalar, is_surrogate, is_high, is_low, cont_byte in *;
  repeat match goal with
  | H : (_ && _)%bool = true |- _ => apply andb_true_iff in H as [? ?]
  | H : (_ && _)%bool = false |- _ => apply andb_false_iff in H
  | H : negb _ = true |- _ => apply negb_true_iff in H
  | H : negb _ = false |- _ => apply negb_false_iff in H
  | H : (_ <=? _) = true |- _ => apply Z.leb_le in H
  | H : (_ <=? _) = false |- _ => apply Z.leb_gt in H
  | H : (_ <? _) = true |- _ => apply Z.ltb_lt in H
  | H : (_ <? _) = false |- _ => apply Z.ltb_ge in H
  | H : (_ <=? _) = true \/ _ |- _ => rewrite Z.leb_le in H
  | H : _ \/ (_ <=? _) = true |- _ => rewrite Z.leb_le in H
  | H : (_ <=? _) = false \/ _ |- _ => rewrite Z.leb_gt in H
  | H : _ \/ (_ <=? _) = false |- _ => rewrite Z.leb_gt in H
  end.

Lemma lor_disjoint a b : Z.land a b = 0 -> Z.lor a b = a + b.
Proof. intros H. rewrite Z.add_nocarry_lxor by exact H. symmetry. now apply Z.lxor_lor. Qed.

Lemma trail_byte x : Z.lor 0x80 (Z.land x 0x3F) = 0x80 + x mod 64.
Proof.
  rewrite lor_disjoint.
  - change 0x3F with (Z.ones 6). now rewrite Z.land_ones by lia.
  - rewrite Z.land_comm, <- Z.land_assoc. change (Z.land 63 128) with 0. apply Z.land_0_r.
Qed.

(** Rewrite every comparison on [Z] that the hypotheses decide. *)
Ltac ztests :=
  repeat match goal with
  | |- context [?a <? ?b] =>
      first [ rewrite (proj2 (Z.ltb_lt a b)) by lia | rewrite (proj2 (Z.ltb_ge a b)) by lia ]
  | |- context [?a <=? ?b] =>
      first [ rewrite (proj2 (Z.leb_le a b)) by lia | rewrite (proj2 (Z.leb_gt a b)) by lia ]
  end; cbn [andb negb].

Lemma encode_2 cp : 0x80 <= cp < 0x800 -> utf8_encode_cp cp = [cp / 64 + 0xC0; 0x80 + cp mod 64].
Proof.
  intros H. unfold utf8_encode_cp. ztests. cbn [utf8_trail].
  change (6 * Z.of_nat 0) with 0. change (6 * Z.of_nat 1) with 6.
  rewrite !trail_byte, Z.shiftr_0_r, !Z.shiftr_div_pow2 by lia. reflexivity.
Qed.

Lemma encode_3 cp : 0x800 <= cp < 0x10000 ->
  utf8_encode_cp cp = [cp / 4096 + 0xE0; 0x80 + (cp / 64) mod 64; 0x80 + cp mod 64].
Proof.
  intros H. unfold utf8_encode_cp. ztests. cbn [utf8_trail].
  change (6 * Z.of_nat 0) with 0. change (6 * Z.of_nat 1) with 6. change (6 * Z.of_nat 2) with 12.
  rewrite !trail_byte, Z.shiftr_0_r, !Z.shiftr_div_pow2 by lia. reflexivity.
Qed.

Lemma encode_4 cp : 0x10000 <= cp ->
  utf8_encode_cp cp = [cp / 262144 + 0xF0; 0x80 + (cp / 4096) mod 64; 0x80 + (cp / 64) mod 64; 0x80 + cp mod 64].
Proof.
  intros H. unfold utf8_encode_cp. ztests. cbn [utf8_trail].
  change (6 * Z.of_nat 0) with 0. change (6 * Z.of_nat 1) with 6. change (6 * Z.of_nat 2) with 12.
  change (6 * Z.of_nat 3) with 18.
  rewrite !trail_byte, Z.shiftr_0_r, !Z.shiftr_div_pow2 by lia. reflexivity.
Qed.

Lemma decode_2 b1 b2 rest :
  0xC2 <= b1 < 0xE0 -> 0x80 <= b2 < 0xC0 ->
  utf8_decode (b1 :: b2 :: rest) = option_map (cons ((b1 - 0xC0) * 64 + (b2 - 0x80))) (utf8_decode rest).
Proof. intros. cbn [utf8_decode]. unfold cont_byte. ztests. reflexivity. Qed.

Lemma decode_3 b1 b2 b3 rest :
  let cp := ((b1 - 0xE0) * 64 + (b2 - 0x80)) * 64 + (b3 - 0x80) in
  0xE0 <= b1 < 0xF0 -> 0x80 <= b2 < 0xC0 -> 0x80 <= b3 < 0xC0 -> 0x800 <= cp ->
  (cp < 0xD800 \/ 0xDFFF < cp) ->
  utf8_decode (b1 :: b2 :: b3 :: rest) = option_map (cons cp) (utf8_decode rest).
Proof.
  intros cp. subst cp. intros ? ? ? ? [Hs|Hs]; cbn [utf8_decode]; unfold cont_byte, is_surrogate;
    ztests; reflexivity.
Qed.

Lemma decode_4 b1 b2 b3 b4 rest :
  let cp := (((b1 - 0xF0) * 64 + (b2 - 0x80)) * 64 + (b3 - 0x80)) * 64 + (b4 - 0x80) in
  0xF0 <= b1 < 0xF5 -> 0x80 <= b2 < 0xC0 -> 0x80 <= b3 < 0xC0 -> 0x80 <= b4 < 0xC0 ->
  0x10000 <= cp <= 0x10FFFF ->
  utf8_decode (b1 :: b2 :: b3 :: b4 :: rest) = option_map (cons cp) (utf8_decode rest).
Proof. intros cp. subst cp. intros. cbn [utf8_decode]. unfold cont_byte. ztests. reflexivity. Qed.

Lemma decode_encode_cp cp rest :
  is_scalar cp = true ->
  utf8_decode (utf8_encode_cp cp ++ rest) = option_map (cons cp) (utf8_decode rest).
Proof.
  unfold is_scalar, is_surrogate. intros H. bool_to_prop.
  apply negb_true_iff, andb_false_iff in H0. rewrite !Z.leb_gt in H0.
  destruct (Z.ltb_spec cp 0x80) as [Hlt|Hge].
  - unfold utf8_encode_cp. ztests. cbn [app utf8_decode]. ztests. reflexivity.
  - destruct (Z.ltb_spec cp 0x800); [|destruct (Z.ltb_spec cp 0x10000)].
    + rewrite encode_2 by lia. cbn [app]. rewrite decode_2 by (Z.div_mod_to_equations; lia).
      f_equal. f_equal. Z.div_mod_to_equations. lia.
    + rewrite encode_3 by lia. cbn [app]. rewrite decode_3 by (Z.div_mod_to_equations; lia).
      f_equal. f_equal. Z.div_mod_to_equations. lia.
    + rewrite encode_4 by lia. cbn [app]. rewrite decode_4 by (Z.div_mod_to_equations; lia).
      f_equal. f_equal. Z.div_mod_to_equations. lia.
Qed.

Lemma decode_encode cps :
  Forall (fun c => is_scalar c = true) cps -> utf8_decode (utf8_encode cps) = Some cps.
Proof.
  induction 1 as [|c cps Hc _ IH]; [reflexivity|].
  unfold utf8_encode. cbn [flat_map]. rewrite decode_encode_cp by exact Hc.
  fold (utf8_encode cps). now rewrite IH.
Qed.

(** The pair of a high and a low surrogate names a supplementary code
    point, and UTF-16 gives the pair back. *)
Lemma pair_scalar u u' :
  is_high u = true -> is_low u' = true ->
  0x10000 <= 0x10000 + Z.shiftl (u - 0xD800) 10 + (u' - 0xDC00) <= 0x10FFFF /\
  utf16_encode_cp (0x10000 + Z.shiftl (u - 0xD800) 10 + (u' - 0xDC00)) = [u; u'].
Proof.
  intros Hh Hl. unicode_props. rewrite Z.shiftl_mul_pow2 by lia. change (2 ^ 10) with 1024.
  split; [lia|]. unfold utf16_encode_cp. ztests. f_equal; [|f_equal]; Z.div_mod_to_equations; lia.
Qed.

(** The USVString conversion gives scalar values only. *)
Lemma usv_scalar n : forall s, (length s <= n)%nat -> units_ok s ->
  Forall (fun c => is_scalar c = true) (usv s).
Proof.
  induction n as [|n IH]; intros [|u s] Hn Hs; cbn [usv]; try constructor; simpl in Hn; try lia.
  inversion Hs as [|? ? Hu Hs']; subst.
  assert (Hfffd : is_scalar 0xFFFD = true) by reflexivity.
  destruct (is_high u) eqn:Eh; [destruct s as [|u' s']; [repeat constructor; exact Hfffd|]|].
  - inversion Hs' as [|? ? Hu' Hs'']; subst.
    destruct (is_low u') eqn:El.
    + destruct (pair_scalar u u' Eh El) as [Hr _]. constructor.
      * unfold is_scalar, is_surrogate. ztests. reflexivity.
      * apply IH; [simpl in *; lia | exact Hs''].
    + constructor; [exact Hfffd | apply IH; [simpl in *; lia | exact Hs']].
  - destruct (is_low u) eqn:El; constructor; try exact Hfffd; try (apply IH; [simpl in *; lia | exact Hs']).
    unicode_props. assert (u < 55296 \/ 57343 < u) as [Hc|Hc] by lia; ztests; reflexivity.
Qed.

(** A well-formed string is its own [toWellFormed()]. *)
Lemma utf16_usv n : forall s, (length s <= n)%nat -> units_ok s -> well_formed s = true ->
  utf16_encode (usv s) = s.
Proof.
  induction n as [|n IH]; intros [|u s] Hn Hs Hwf; cbn [usv]; try reflexivity; simpl in Hn; try lia.
  inversion Hs as [|? ? Hu Hs']; subst. cbn [well_formed] in Hwf.
  destruct (is_high u) eqn:Eh; [destruct s as [|u' s']; [discriminate|]|].
  - inversion Hs' as [|? ? Hu' Hs'']; subst. apply andb_true_iff in Hwf as [El Hwf]. rewrite El.
    unfold utf16_encode. cbn [flat_map]. rewrite (proj2 (pair_scalar u u' Eh El)).
    fold (utf16_encode (usv s')). rewrite IH by (simpl in *; lia || assumption). reflexivity.
  - apply andb_true_iff in Hwf as [El Hwf]. apply negb_true_iff in El. rewrite El.
    unfold utf16_encode. cbn [flat_map]. fold (utf16_encode (usv s)). rewrite IH by (simpl in *; lia || assumption).
    unfold utf16_encode_cp. ztests. reflexivity.
Qed.

(** The bytes of the encoder are bytes. *)
Lemma encode_cp_bytes cp :
  is_scalar cp = true -> Forall (fun b => 0 <= b < 256) (utf8_encode_cp cp).
Proof.
  intros H. unicode_props.
  destruct (Z.ltb_spec cp 0x80); [|destruct (Z.ltb_spec cp 0x800); [|destruct (Z.ltb_spec cp 0x10000)]].
  - unfold utf8_encode_cp. ztests. repeat constructor; lia.
  - rewrite encode_2 by lia. repeat constructor; Z.div_mod_to_equations; lia.
  - rewrite encode_3 by lia. repeat constructor; Z.div_mod_to_equations; lia.
  - rewrite encode_4 by lia. repeat constructor; Z.div_mod_to_equations; lia.
Qed.

Lemma string_bytes_of_bytes bs :
  Forall (fun b => 0 <= b < 256) bs -> string_bytes (bytes_to_string bs) = bs.
Proof.
  unfold string_bytes, bytes_to_string. rewrite list_ascii_of_string_of_list_ascii, map_map.
  induction 1 as [|b bs Hb _ IH]; [reflexivity|]. cbn [map]. rewrite IH.
  rewrite nat_ascii_embedding by lia. now rewrite Z2Nat.id by lia.
Qed.

(** The server reads back the scalar values of the string from its
    UTF-8 bytes. *)
Theorem utf8_roundtrip s : units_ok s -> utf8_decode (string_bytes (utf8 s)) = Some (usv s).
Proof.
  intros Hs. pose proof (usv_scalar _ s (le_n _) Hs) as Hsc.
  unfold utf8. rewrite string_bytes_of_bytes; [now apply decode_encode|].
  unfold utf8_encode. apply Forall_flat_map. eapply Forall_impl; [|exact Hsc]. exact encode_cp_bytes.
Qed.

Theorem to_well_formed_id s : units_ok s -> well_formed s = true -> to_well_formed s = s.
Proof. intros Hs Hwf. exact (utf16_usv _ s (le_n _) Hs Hwf). Qed.

End Unicode.
