(* ===== verification/UrlEncoding.v ===== *)
(** * [URLSearchParams] and the form-urlencoded format

    The query strings of [subscriptionAPI.ts] are built with
    [new URLSearchParams(record).toString()].  This file models the
    WHATWG application/x-www-form-urlencoded serializer on byte strings,
    the constructor [url_search_params] that turns a record of
    JavaScript strings into those bytes ([Unicode.utf8]), and the parser
    a server applies to the query, with the round trip between them. *)

From Stdlib Require Import Ascii String List Lia Bool Arith ZArith.
From S2P Require Import Prelude.
From S2P Require Import Unicode.
Import ListNotations.
Open Scope string_scope.

(** Bytes the serializer keeps: ASCII alphanumerics and [* - . _]. *)
Definition is_unreserved (c : ascii) : bool :=
  let n := nat_of_ascii c in
  ((n =? 42) || (n =? 45) || (n =? 46) || ((48 <=? n) && (n <=? 57))
   || ((65 <=? n) && (n <=? 90)) || (n =? 95) || ((97 <=? n) && (n <=? 122)))%nat.

(** Upper-case hexadecimal digit of [k < 16]. *)
Definition hex_digit (k : nat) : ascii :=
  if (k <? 10)%nat then ascii_of_nat (48 + k) else ascii_of_nat (55 + k).

Definition hex_value (c : ascii) : option nat :=
  let n := nat_of_ascii c in
  if ((48 <=? n) && (n <=? 57))%nat then Some (n - 48)
  else if ((65 <=? n) && (n <=? 70))%nat then Some (n - 55)
  else if ((97 <=? n) && (n <=? 102))%nat then Some (n - 87)
  else None.

(** The form-urlencoded byte serializer: space becomes [+], kept bytes
    stay, every other byte is [%XX]. *)
Fixpoint form_encode (s : string) : string :=
  match s with
  | EmptyString => EmptyString
  | String c s' =>
      if Ascii.eqb c " " then String "+" (form_encode s')
      else if is_unreserved c then String c (form_encode s')
      else String "%" (String (hex_digit (nat_of_ascii c / 16))
                        (String (hex_digit (nat_of_ascii c mod 16)) (form_encode s')))
  end.

(** [params.toString()]: [name=value] pairs joined by [&]. *)
Fixpoint params_to_string (l : list (string * string)) : string :=
  match l with
  | [] => ""
  | [(k, v)] => form_encode k ++ "=" ++ form_encode v
  | (k, v) :: l' => form_encode k ++ "=" ++ form_encode v ++ "&" ++ params_to_string l'
  end.

(** [new URLSearchParams(record)]: the record's names and values,
    JavaScript strings, converted to USVStrings and kept as the UTF-8
    bytes the serializer percent-encodes. *)
Definition url_search_params (record : list (list Z * list Z)) : list (string * string) :=
  map (fun kv => (Unicode.utf8 (fst kv), Unicode.utf8 (snd kv))) record.

(** Percent-decoding with [+] read as a space; a [%] not followed by two
    hexadecimal digits stays as it is. *)
Fixpoint form_decode (s : string) : string :=
  match s with
  | EmptyString => EmptyString
  | String c s' =>
      if Ascii.eqb c "+" then String " " (form_decode s')
      else if Ascii.eqb c "%" then
        match s' with
        | String h1 (String h2 rest) =>
            match hex_value h1, hex_value h2 with
            | Some a, Some b => String (ascii_of_nat (16 * a + b)) (form_decode rest)
            | _, _ => String "%" (form_decode s')
            end
        | _ => String "%" (form_decode s')
        end
      else String c (form_decode s')
  end.

(** Split at every occurrence of [sep]. *)
Fixpoint split_on (sep : ascii) (s : string) : list string :=
  match s with
  | EmptyString => [EmptyString]
  | String c s' =>
      if Ascii.eqb c sep then EmptyString :: split_on sep s'
      else match split_on sep s' with
           | [] => [String c EmptyString]
           | w :: ws => String c w :: ws
           end
  end.

(** Split at the first [sep], if any. *)
Fixpoint split_first (sep : ascii) (s : string) : option (string * string) :=
  match s with
  | EmptyString => None
  | String c s' =>
      if Ascii.eqb c sep then Some (EmptyString, s')
      else match split_first sep s' with
           | Some (a, b) => Some (String c a, b)
           | None => None
           end
  end.

(** The form-urlencoded parser: sequences split at [&], empty ones
    skipped, each split at its first [=] (a missing [=] gives an empty
    value), both sides decoded. *)
Definition parse_pair (seq : string) : string * string :=
  match split_first "=" seq with
  | Some (k, v) => (form_decode k, form_decode v)
  | None => (form_decode seq, EmptyString)
  end.

Definition parse_query (q : string) : list (string * string) :=
  map parse_pair (filter (fun seq => negb (String.eqb seq EmptyString)) (split_on "&" q)).

(** One serialized [name=value] pair. *)
Definition pair_string (kv : string * string) : string :=
  form_encode (fst kv) ++ "=" ++ form_encode (snd kv).

(** Whether the byte [c] occurs in [s]. *)
Fixpoint has_byte (c : ascii) (s : string) : bool :=
  match s with
  | EmptyString => false
  | String c' s' => Ascii.eqb c c' || has_byte c s'
  end.

(** ** Lemmas *)

Lemma hex_value_digit k : (k < 16)%nat -> hex_value (hex_digit k) = Some k.
Proof. intros H. do 16 (destruct k as [|k]; [reflexivity|]). lia. Qed.

(** A property of bytes checked on all 256 of them. *)
Definition separator (c : ascii) : bool :=
  Ascii.eqb c "+" || Ascii.eqb c "%" || Ascii.eqb c "&" || Ascii.eqb c "=".

Lemma unreserved_not_separator c : is_unreserved c = true -> separator c = false.
Proof.
  intros H. pose proof (ascii_forall (fun c => implb (is_unreserved c) (negb (separator c)))
                          ltac:(vm_compute; reflexivity) c) as Hc.
  cbv beta in Hc. rewrite H in Hc. simpl in Hc. now destruct (separator c).
Qed.

Lemma hex_digit_not_separator k : (k < 16)%nat -> separator (hex_digit k) = false.
Proof. intros H. do 16 (destruct k as [|k]; [reflexivity|]). lia. Qed.

Lemma form_decode_keep c s :
  separator c = false -> form_decode (String c s) = String c (form_decode s).
Proof.
  unfold separator. intros H. simpl.
  destruct (Ascii.eqb c "+"), (Ascii.eqb c "%"); simpl in H; try discriminate. reflexivity.
Qed.

Lemma byte_div_mod c :
  ascii_of_nat (16 * (nat_of_ascii c / 16) + nat_of_ascii c mod 16) = c.
Proof. rewrite <- Nat.div_mod by lia. apply ascii_nat_embedding. Qed.

Lemma form_decode_percent h1 h2 r a b :
  hex_value h1 = Some a -> hex_value h2 = Some b ->
  form_decode (String "%" (String h1 (String h2 r))) = String (ascii_of_nat (16 * a + b)) (form_decode r).
Proof. intros H1 H2. cbn -[hex_value]. now rewrite H1, H2. Qed.

Lemma byte_hex_digits c :
  hex_value (hex_digit (nat_of_ascii c / 16)) = Some (nat_of_ascii c / 16) /\
  hex_value (hex_digit (nat_of_ascii c mod 16)) = Some (nat_of_ascii c mod 16).
Proof.
  pose proof (nat_ascii_bounded c).
  split; apply hex_value_digit; [apply Nat.Div0.div_lt_upper_bound | apply Nat.mod_upper_bound]; lia.
Qed.

(** Decoding inverts the serializer. *)
Lemma form_decode_encode s : form_decode (form_encode s) = s.
Proof.
  induction s as [|c s IH]; [reflexivity|]. cbn [form_encode].
  destruct (Ascii.eqb_spec c " ") as [->|Hsp]; [cbn; now rewrite IH|].
  destruct (is_unreserved c) eqn:Hu.
  - rewrite form_decode_keep by now apply unreserved_not_separator. now rewrite IH.
  - destruct (byte_hex_digits c) as [H1 H2].
    now rewrite (form_decode_percent _ _ _ _ _ H1 H2), byte_div_mod, IH.
Qed.

Lemma has_byte_app c a b : has_byte c (a ++ b) = has_byte c a || has_byte c b.
Proof. induction a as [|x a IH]; simpl; [reflexivity|]. now rewrite IH, orb_assoc. Qed.

Lemma not_separator_delims c :
  separator c = false -> Ascii.eqb "&" c = false /\ Ascii.eqb "=" c = false.
Proof.
  unfold separator. rewrite (Ascii.eqb_sym "&" c), (Ascii.eqb_sym "=" c).
  destruct (Ascii.eqb c "+"), (Ascii.eqb c "%"), (Ascii.eqb c "&"), (Ascii.eqb c "=");
    simpl; intros H; try discriminate; auto.
Qed.

(** The serializer never emits [&] or [=], so a value cannot add or
    split a parameter. *)
Lemma form_encode_no_delim sep s :
  sep = "&"%char \/ sep = "="%char -> has_byte sep (form_encode s) = false.
Proof.
  intros Hsep. induction s as [|c s IH]; [reflexivity|]. cbn [form_encode].
  pose proof (nat_ascii_bounded c) as Hb.
  destruct (Ascii.eqb c " "); [destruct Hsep as [-> | ->]; exact IH|].
  destruct (is_unreserved c) eqn:Hu.
  - apply unreserved_not_separator, not_separator_delims in Hu as [H1 H2].
    cbn [has_byte]. rewrite IH, orb_false_r. now destruct Hsep as [-> | ->].
  - destruct (not_separator_delims _ (hex_digit_not_separator (nat_of_ascii c / 16)
                ltac:(apply Nat.Div0.div_lt_upper_bound; lia))) as [H1 H2].
    destruct (not_separator_delims _ (hex_digit_not_separator (nat_of_ascii c mod 16)
                ltac:(apply Nat.mod_upper_bound; lia))) as [H3 H4].
    cbn [has_byte]. rewrite IH, orb_false_r.
    destruct Hsep as [-> | ->]; rewrite ?H1, ?H2, ?H3, ?H4; reflexivity.
Qed.

Lemma split_on_app sep a b :
  has_byte sep a = false -> split_on sep (a ++ String sep b) = a :: split_on sep b.
Proof.
  induction a as [|c a IH]; intros H; simpl.
  - now rewrite Ascii.eqb_refl.
  - simpl in H. apply orb_false_elim in H as [Hc Ha].
    rewrite Ascii.eqb_sym, Hc, IH by exact Ha. reflexivity.
Qed.

Lemma split_on_none sep a : has_byte sep a = false -> split_on sep a = [a].
Proof.
  induction a as [|c a IH]; intros H; simpl; [reflexivity|].
  simpl in H. apply orb_false_elim in H as [Hc Ha].
  rewrite Ascii.eqb_sym, Hc, IH by exact Ha. reflexivity.
Qed.

Lemma split_first_app sep a b :
  has_byte sep a = false -> split_first sep (a ++ String sep b) = Some (a, b).
Proof.
  induction a as [|c a IH]; intros H; simpl.
  - now rewrite Ascii.eqb_refl.
  - simpl in H. apply orb_false_elim in H as [Hc Ha].
    rewrite Ascii.eqb_sym, Hc, IH by exact Ha. reflexivity.
Qed.

Lemma pair_string_no_amp kv : has_byte "&" (pair_string kv) = false.
Proof.
  unfold pair_string. rewrite has_byte_app. simpl.
  rewrite !form_encode_no_delim by auto. reflexivity.
Qed.

Lemma split_params kv l :
  split_on "&" (params_to_string (kv :: l)) = map pair_string (kv :: l).
Proof.
  revert kv. induction l as [|kv' l IH]; intros [k v].
  - apply split_on_none. apply (pair_string_no_amp (k, v)).
  - replace (params_to_string ((k, v) :: kv' :: l))
      with (pair_string (k, v) ++ String "&" (params_to_string (kv' :: l)))
      by (unfold pair_string; simpl; now rewrite str_app_assoc).
    rewrite split_on_app by apply pair_string_no_amp. now rewrite IH.
Qed.

Lemma parse_pair_string kv : parse_pair (pair_string kv) = kv.
Proof.
  destruct kv as [k v]. unfold parse_pair, pair_string. simpl.
  rewrite split_first_app by (apply form_encode_no_delim; auto).
  now rewrite !form_decode_encode.
Qed.

Lemma pair_string_nonempty kv : String.eqb (pair_string kv) "" = false.
Proof. unfold pair_string. destruct (form_encode (fst kv)); reflexivity. Qed.

(** The parser reads back exactly the serialized pairs. *)
Lemma parse_query_params l : parse_query (params_to_string l) = l.
Proof.
  destruct l as [|kv l]; [reflexivity|]. unfold parse_query. rewrite split_params.
  assert (Hf : forall L, filter (fun seq => negb (String.eqb seq "")) (map pair_string L)
                         = map pair_string L)
    by (induction L as [|x L IH]; simpl; [reflexivity|]; now rewrite pair_string_nonempty, IH).
  rewrite Hf, map_map. rewrite (map_ext _ _ parse_pair_string). apply map_id.
Qed.
