(* ===== verification/SubscriptionAPI.v ===== *)
(** * The server actions of [src/src/apis/subscriptionAPI.ts]

    [searchService] (lines 16-34) and [getItems] (lines 67-101) call the
    platform [fetch] directly, without the client of [fetcher.ts]: no
    timeout, no retry.  Both are written in the promise monad of
    [Async]; the request cookies of [cookies()] are an argument, and
    [BASE_URL] (from [#constants/url]) and [fetchNotiRequest] (from
    [#types/notification]), which are not under [src/], are section
    variables.  The commented-out [createItems], [patchItems] and
    [deleteItems] are not code and are not modelled. *)

From Stdlib Require Import ZArith Ascii String List Lia Bool.
From S2P Require Import Prelude.
From S2P Require Import Async.
From S2P Require Import Json.
From S2P Require Import JsonText.
From S2P Require Import Unicode.
From S2P Require Import UrlEncoding.
Import ListNotations.
Import Unicode.

Open Scope string_scope.
Open Scope Z_scope.
Open Scope gj_scope.
Open Scope async_scope.

Module SubscriptionAPI.

(** [PageRequest] of [#types/notification], as the two fields
    [getItems] reads. *)
Record PageRequest := mkPageRequest { lastId : Z; size : Z }.

Definition search_failed_message : string := "검색 요청 실패".
Definition no_session_message : string :=
  "세션이 존재하지 않습니다. 로그인 후 다시 시도해주세요.".
Definition session_expired_message : string :=
  "로그인 세션이 만료되었습니다. 다시 로그인해주세요.".
Definition items_failed_message : string := "구독 항목 불러오기 실패".

Section Actions.
Context {codec : JsonCodec}.
Variable net : nat -> WireRequest -> Reply.
Variable BASE_URL : string.
Variable fetchNotiRequest : PageRequest.

(** Lines 17-18: the search URL with its [URLSearchParams] query; the
    caller's [name] is a JavaScript string (UTF-16 code units). *)
Definition search_url (name : list Z) : string :=
  BASE_URL ++ "/api/subscriptions?" ++ params_to_string (url_search_params [(js_of_ascii "name", name)]).

Definition search_init : RequestInit :=
  mkInit (Some GET) None
         [("Content-Type", "application/json"); ("Accept", "application/json")]
         (Some CredInclude) None None.

(** [export async function searchService(name)], lines 16-34. *)
Definition searchService (name : list Z) : M Json :=
  res <- fetch net (search_url name) search_init ;;
  if negb (resp_ok res) then throw (JsError "Error" search_failed_message)
  else response_json res.

(** Lines 68-71: the paging query. *)
Definition items_query (pageRequest : PageRequest) : list (string * string) :=
  [("lastId", z_to_dec (lastId pageRequest)); ("size", z_to_dec (size pageRequest))].

Definition items_url (pageRequest : PageRequest) : string :=
  BASE_URL ++ "/api/subscriptions/user?" ++ params_to_string (items_query pageRequest).

Definition items_init (session : string) : RequestInit :=
  mkInit (Some GET) None
         [("Content-Type", "application/json"); ("cookie", "SESSION=" ++ session)]
         (Some CredInclude) None (Some "no-cache").

(** [export async function getItems(pageRequest = fetchNotiRequest)],
    lines 67-101; [cookies] is the request's cookie jar, in order. *)
Definition getItems (cookies : list (string * string)) (pageRequest : option PageRequest)
  : M Json :=
  let pageRequest := pageRequest ?? fetchNotiRequest in
  match obj_get cookies "SESSION" with
  | None => throw (JsError "Error" no_session_message)
  | Some session =>
      console_log session ;;
      res <- fetch net (items_url pageRequest) (items_init session) ;;
      if negb (resp_ok res) && (status res =? 401) then
        throw (JsError "Error" session_expired_message)
      else if negb (resp_ok res) then throw (JsError "Error" items_failed_message)
      else response_json res
  end.

(** The outcome of a request issued without a signal, given the reply. *)
Definition plain_reply (rp : Reply) : Outcome Response :=
  match rp with
  | Respond _ r => Resolved r
  | NetFail _ e => Rejected e
  | NoReply => Pending
  end.

End Actions.

(** ** Concrete environments for the witnesses *)

Definition demo_base : string := "https://api.guttok.example".
Definition demo_page : PageRequest := mkPageRequest 0 10.
Definition w0 : World := mkWorld 0 0 [] 0 [].
Definition net_list (n : nat) (wr : WireRequest) : Reply := Respond 25 (mkResponse 200 "[]" (BodyDone 5)).
Definition net_401 (n : nat) (wr : WireRequest) : Reply := Respond 25 (mkResponse 401 "" (BodyDone 0)).
Definition net_silent (n : nat) (wr : WireRequest) : Reply := NoReply.

Section Proofs.
Context {codec : JsonCodec}.
Variable net : nat -> WireRequest -> Reply.
Variable BASE_URL : string.
Variable fetchNotiRequest : PageRequest.

(** [fetch] with no signal settles as the network replies. *)
Lemma fetch_unsignalled url init w :
  ri_signal init = None -> fetch_precheck init = None ->
  exists w1, fetch net url init w = (plain_reply (net (w_calls w) (to_wire url init)), w1) /\
    w_calls w1 = S (w_calls w) /\ w_log w1 = (w_log w ++ [EvFetch url init])%list /\
    w_timers w1 = w_timers w.
Proof.
  intros Hs Hp. unfold fetch, signal_timer. rewrite Hs, Hp.
  destruct (net (w_calls w) (to_wire url init)); simpl; eexists; repeat split.
Qed.

(** A URL built as [prefix ++ "?" ++ params] splits back at its first
    [?] when the prefix has none. *)
Lemma url_query_split prefix l :
  has_byte "?"%char prefix = false ->
  split_first "?"%char (prefix ++ "?" ++ params_to_string l) = Some (prefix, params_to_string l).
Proof. intros H. now apply split_first_app. Qed.

Lemma has_byte_q_suffix (base suffix : string) :
  has_byte "?"%char base = false -> has_byte "?"%char suffix = false -> has_byte "?"%char (base ++ suffix) = false.
Proof. intros H1 H2. now rewrite has_byte_app, H1, H2. Qed.

(** C14 (roundtrip).  The server, splitting the search URL at its first
    [?] and parsing the query, reads back exactly one parameter [name]:
    no value can add or split a parameter.  Decoding its value as UTF-8
    and re-encoding it as UTF-16 gives [name.toWellFormed()], which is
    [name] itself when every surrogate of [name] is paired; a lone
    surrogate reaches the server as U+FFFD. *)
Theorem search_query_roundtrip name :
  has_byte "?"%char BASE_URL = false -> units_ok name ->
  exists q v, split_first "?"%char (search_url BASE_URL name) = Some (BASE_URL ++ "/api/subscriptions", q) /\
    parse_query q = [("name", v)] /\
    option_map utf16_encode (utf8_decode (string_bytes v)) = Some (to_well_formed name) /\
    (well_formed name = true -> to_well_formed name = name).
Proof.
  intros H Hu. exists (params_to_string (url_search_params [(js_of_ascii "name", name)])), (utf8 name).
  split; [|split; [apply parse_query_params | split; [now rewrite utf8_roundtrip | now apply to_well_formed_id]]].
  unfold search_url.
  replace ("/api/subscriptions?" ++ params_to_string (url_search_params [(js_of_ascii "name", name)]))
    with ("/api/subscriptions" ++ "?" ++ params_to_string (url_search_params [(js_of_ascii "name", name)]))
    by reflexivity.
  rewrite <- str_app_assoc. apply url_query_split. now apply has_byte_q_suffix.
Qed.

(** A lone surrogate and U+FFFD give the same search URL: the server
    cannot tell the two names apart. *)
Lemma lone_surrogate_same_query : search_url BASE_URL [0xD800] = search_url BASE_URL [0xFFFD].
Proof. reflexivity. Qed.

(** C15 (functional).  [searchService] makes one [fetch] call and
    settles as the reply says: a 2xx body is read and decoded (a
    failed read rejects, a stalled one never settles), another status
    rejects with "검색 요청 실패", a transport error is passed on, and a
    reply that never comes leaves the action pending (no timeout). *)
Theorem searchService_outcome name w :
  exists w', searchService net BASE_URL name w =
    (match plain_reply (net (w_calls w) (to_wire (search_url BASE_URL name) search_init)) with
     | Resolved r => if resp_ok r then read_json r
                     else Rejected (JsError "Error" search_failed_message)
     | Rejected e => Rejected e
     | Pending => Pending
     end, w') /\ w_calls w' = S (w_calls w).
Proof.
  destruct (fetch_unsignalled (search_url BASE_URL name) search_init w eq_refl eq_refl)
    as (w1 & Hf & Hc & _).
  unfold searchService, bind. rewrite Hf.
  destruct (net (w_calls w) _) as [lat r|lat e|]; simpl; [destruct (resp_ok r)|..];
    eexists; (split; [reflexivity | assumption]).
Qed.

(** C16 (error).  Without a [SESSION] cookie [getItems] rejects with the
    no-session message before any effect: no log line, no [fetch]. *)
Theorem getItems_no_session cookies p w :
  obj_get cookies "SESSION" = None ->
  getItems net BASE_URL fetchNotiRequest cookies p w = (Rejected (JsError "Error" no_session_message), w).
Proof. intros H. unfold getItems. now rewrite H. Qed.

(** C17 (functional).  With a session cookie [getItems] makes one
    [fetch] call and settles as the reply says: a 2xx body is read and
    decoded as [response.json()] does,
    401 rejects with the expired-session message, any other status with
    the load-failure message, a transport error is passed on, and a
    reply that never comes leaves it pending. *)
Theorem getItems_outcome cookies p session w :
  obj_get cookies "SESSION" = Some session ->
  exists w', getItems net BASE_URL fetchNotiRequest cookies p w =
    (match plain_reply (net (w_calls w) (to_wire (items_url BASE_URL (p ?? fetchNotiRequest))
                                                   (items_init session))) with
     | Resolved r =>
         if resp_ok r then read_json r
         else if status r =? 401 then Rejected (JsError "Error" session_expired_message)
         else Rejected (JsError "Error" items_failed_message)
     | Rejected e => Rejected e
     | Pending => Pending
     end, w') /\ w_calls w' = S (w_calls w).
Proof.
  intros Hs. unfold getItems. rewrite Hs.
  destruct (fetch_unsignalled (items_url BASE_URL (p ?? fetchNotiRequest)) (items_init session)
              (emit (EvConsole session) w) eq_refl eq_refl) as (w1 & Hf & Hc & _).
  unfold bind, console_log. rewrite Hf.
  destruct (net _ _) as [lat r|lat e|]; simpl; [destruct (resp_ok r), (status r =? 401)|..];
    eexists; (split; [reflexivity | assumption]).
Qed.

(** C18 (safety).  With a session cookie, the first effect of [getItems]
    writes the session token to the server log, then the request is
    sent: the secret is logged on every call. *)
Theorem getItems_logs_session cookies p session w :
  obj_get cookies "SESSION" = Some session ->
  exists out w', getItems net BASE_URL fetchNotiRequest cookies p w = (out, w') /\
    w_log w' = (w_log w ++ [EvConsole session;
                            EvFetch (items_url BASE_URL (p ?? fetchNotiRequest)) (items_init session)])%list.
Proof.
  intros Hs. unfold getItems. rewrite Hs.
  destruct (fetch_unsignalled (items_url BASE_URL (p ?? fetchNotiRequest)) (items_init session)
              (emit (EvConsole session) w) eq_refl eq_refl) as (w1 & Hf & _ & Hl & _).
  unfold bind, console_log. rewrite Hf. simpl in Hl. rewrite <- app_assoc in Hl.
  destruct (net _ _) as [lat r|lat e|]; simpl; [destruct (resp_ok r), (status r =? 401)|..];
    do 2 eexists; (split; [reflexivity | assumption]).
Qed.


(** C20 (roundtrip).  The paging query reads back as [lastId] and
    [size], the decimal strings of the page request. *)
Theorem items_query_roundtrip p :
  has_byte "?"%char BASE_URL = false ->
  exists q, split_first "?"%char (items_url BASE_URL p) = Some (BASE_URL ++ "/api/subscriptions/user", q) /\
    parse_query q = [("lastId", z_to_dec (lastId p)); ("size", z_to_dec (size p))].
Proof.
  intros H. exists (params_to_string (items_query p)). split; [|apply parse_query_params].
  unfold items_url. replace ("/api/subscriptions/user?" ++ params_to_string (items_query p))
    with ("/api/subscriptions/user" ++ "?" ++ params_to_string (items_query p)) by reflexivity.
  rewrite <- str_app_assoc. apply url_query_split. now apply has_byte_q_suffix.
Qed.

End Proofs.

(** ** Witnesses *)

(** The name "넷플릭스 & co" followed by a lone high surrogate. *)
Lemma search_query_roundtrip_witness :
  let name := [0xB137; 0xD50C; 0xB9AD; 0xC2A4; 0x20; 0x26; 0x20; 0x63; 0x6F; 0xD800] in
  exists q v, split_first "?"%char (search_url demo_base name) =
              Some (demo_base ++ "/api/subscriptions", q) /\ parse_query q = [("name", v)] /\
    option_map utf16_encode (utf8_decode (string_bytes v)) = Some (to_well_formed name) /\
    (well_formed name = true -> to_well_formed name = name).
Proof.
  intros name. apply (search_query_roundtrip demo_base name); [reflexivity|].
  unfold units_ok, name. repeat constructor; lia.
Defined.

Lemma searchService_outcome_witness :
  exists w', @searchService JsonText.js_json net_silent demo_base (js_of_ascii "netflix") w0 = (Pending, w') /\
    w_calls w' = S (w_calls w0).
Proof. apply (@searchService_outcome JsonText.js_json net_silent demo_base (js_of_ascii "netflix") w0). Defined.

Lemma getItems_no_session_witness :
  @getItems JsonText.js_json net_list demo_base demo_page [("theme", "dark")] None w0 =
  (Rejected (JsError "Error" no_session_message), w0).
Proof. apply (@getItems_no_session JsonText.js_json net_list demo_base demo_page [("theme", "dark")] None w0). reflexivity. Defined.

Lemma getItems_outcome_witness :
  exists w', @getItems JsonText.js_json net_401 demo_base demo_page [("SESSION", "abc")] None w0 =
    (Rejected (JsError "Error" session_expired_message), w') /\ w_calls w' = S (w_calls w0).
Proof. apply (@getItems_outcome JsonText.js_json net_401 demo_base demo_page [("SESSION", "abc")] None "abc" w0). reflexivity. Defined.

Lemma getItems_logs_session_witness :
  exists out w', @getItems JsonText.js_json net_list demo_base demo_page [("SESSION", "abc")] None w0 = (out, w') /\
    w_log w' = (w_log w0 ++ [EvConsole "abc"; EvFetch (items_url demo_base (None ?? demo_page)) (items_init "abc")])%list.
Proof. apply (@getItems_logs_session JsonText.js_json net_list demo_base demo_page [("SESSION", "abc")] None "abc" w0). reflexivity. Defined.


Lemma items_query_roundtrip_witness :
  exists q, split_first "?"%char (items_url demo_base demo_page) = Some (demo_base ++ "/api/subscriptions/user", q) /\
    parse_query q = [("lastId", z_to_dec (lastId demo_page)); ("size", z_to_dec (size demo_page))].
Proof. apply (items_query_roundtrip demo_base demo_page). reflexivity. Defined.

End SubscriptionAPI.
