(* ===== verification/Mypage.v ===== *)
(** * The "my page" screen, [src/src/app/(protected)/mypage/ClientMypage.tsx]

    [ClientMypage] holds a [hydrated] flag, reads and writes the auth
    store's [user], the theme context, and two mutations (logout and the
    alarm toggle).  [Module Mypage] models the state it touches as a
    record, the user's actions and React's effect runs as events, one
    handler per event ([step]), and the render guard ([render]).  The
    stores and mutations are outside [src/]: their calls are recorded as
    effects, and the alarm mutation's [isPending] is set by [mutate] and
    cleared by its settlement, as React Query does.  What the two
    mutations' callbacks do to the auth store is not in [src/]: their
    settlements ([AlarmSettled], [LogoutSettled]) carry the store's
    user as those callbacks leave it, any value at all.  The settings
    [Link] navigates to [PATH.mypageEdit].  [reachable] is the closure
    of [step] from the first render, and the invariants are proved by
    rule induction on it. *)

From Stdlib Require Import String List Bool Lia.
From S2P Require Import Prelude.
Import ListNotations.

Module Mypage.

(** The fields of [userInfo] ([#types/user]) the page reads. *)
Record userInfo := mkUserInfo { nickName : string; email : string; alarm : bool }.

(** Calls to the hooks and stores outside the component. *)
Inductive Effect :=
| LogoutMutate                      (** [logoutMutation.mutate()] *)
| ToggleAlarmMutate                 (** [toggleAlarm()] *)
| Toast (description : string)      (** [toast({ description })] *)
| StoreLogout                       (** [logout()] of the auth store *)
| RouterPush (path : string)        (** [router.push(path)] *)
| NavigateMypageEdit.               (** the [Link href={PATH.mypageEdit}] *)

(** The component's props, its state and the external state it reads. *)
Record Mypage := mkMypage {
  initialData : userInfo;
  user : option userInfo;
  hydrated : bool;
  theme : string;
  isTogglingAlarm : bool;
  effects : list Effect }.

(** What can happen to a mounted page. *)
Inductive UiEvent :=
| Mount                    (** first commit: both effects run *)
| NewProps (d : userInfo)  (** a new [initialData] *)
| LogoutConfirm            (** the dialog's [로그아웃] button *)
| AlarmSwitch              (** the alarm [Switch] changes *)
| ThemeSwitch (checked : bool)  (** the dark-mode [Switch] changes *)
| WithdrawConfirm          (** the dialog's [탈퇴] button *)
| SettingsLink             (** the settings [Link], lines 77-87 *)
| AlarmSettled (u : option userInfo)
    (** the alarm mutation settles; its callbacks leave [u] in the store *)
| LogoutSettled (u : option userInfo).
    (** the logout mutation settles; its callbacks leave [u] in the store *)

Definition dark_toast : string := "다크 모드로 전환되었습니다.".
Definition light_toast : string := "라이트 모드로 전환되었습니다.".

Definition set_effects (s : Mypage) (es : list Effect) : Mypage :=
  mkMypage (initialData s) (user s) (hydrated s) (theme s) (isTogglingAlarm s) es.

(** The store's user as code outside the component leaves it. *)
Definition set_store (s : Mypage) (u : option userInfo) : Mypage :=
  mkMypage (initialData s) u (hydrated s) (theme s) (isTogglingAlarm s) (effects s).

(** The first render: [useState(false)], the store's user and the
    context's theme as they are. *)
Definition initial (d : userInfo) (u : option userInfo) (th : string) : Mypage :=
  mkMypage d u false th false [].

(** [useEffect(() => { setHydrated(true) }, [])] *)
Definition effect_hydrate (s : Mypage) : Mypage :=
  mkMypage (initialData s) (user s) true (theme s) (isTogglingAlarm s) (effects s).

(** [useEffect(() => { setUser(initialData) }, [initialData, setUser])] *)
Definition effect_setUser (s : Mypage) : Mypage :=
  mkMypage (initialData s) (Some (initialData s)) (hydrated s) (theme s)
           (isTogglingAlarm s) (effects s).

(** [handleLogout] *)
Definition handleLogout (s : Mypage) : Mypage :=
  set_effects s (effects s ++ [LogoutMutate]).

(** [onCheckedChange={() => toggleAlarm()}] on a [Switch] that is
    [disabled={isTogglingAlarm}]. *)
Definition onAlarmChange (s : Mypage) : Mypage :=
  if isTogglingAlarm s then s
  else mkMypage (initialData s) (user s) (hydrated s) (theme s) true
                (effects s ++ [ToggleAlarmMutate]).

(** The dark-mode [Switch]'s [onCheckedChange]. *)
Definition onThemeChange (checked : bool) (s : Mypage) : Mypage :=
  let newTheme := if checked then "dark"%string else "light"%string in
  mkMypage (initialData s) (user s) (hydrated s) newTheme (isTogglingAlarm s)
           (effects s ++ [Toast (if checked then dark_toast else light_toast)]).

Section WithRoutes.
Variable PATH_main : string.

(** [afterDelete]: defined in the component, called by nothing. *)
Definition afterDelete (s : Mypage) : Mypage :=
  mkMypage (initialData s) None (hydrated s) (theme s) (isTogglingAlarm s)
           (effects s ++ [StoreLogout; RouterPush PATH_main]).
End WithRoutes.

(** One event.  The controls exist only once the page renders, that is
    when [hydrated] holds; the [탈퇴] button has no handler.  The alarm
    mutation settles only while it is pending. *)
Definition step (s : Mypage) (e : UiEvent) : Mypage :=
  match e with
  | Mount => effect_setUser (effect_hydrate s)
  | NewProps d =>
      let s' := mkMypage d (user s) (hydrated s) (theme s) (isTogglingAlarm s) (effects s) in
      if hydrated s then effect_setUser s' else s'
  | LogoutConfirm => if hydrated s then handleLogout s else s
  | AlarmSwitch => if hydrated s then onAlarmChange s else s
  | ThemeSwitch c => if hydrated s then onThemeChange c s else s
  | WithdrawConfirm => s
  | SettingsLink => if hydrated s then set_effects s (effects s ++ [NavigateMypageEdit]) else s
  | AlarmSettled u =>
      if isTogglingAlarm s
      then mkMypage (initialData s) u (hydrated s) (theme s) false (effects s)
      else s
  | LogoutSettled u => set_store s u
  end.

(** What the page shows. *)
Record View := mkView {
  v_nickName : option string;
  v_email : option string;
  v_alarmChecked : option bool;
  v_alarmDisabled : bool;
  v_darkChecked : bool }.

(** [if (!hydrated) return null], then the profile, the alarm switch and
    the dark-mode switch. *)
Definition render (s : Mypage) : option View :=
  if negb (hydrated s) then None
  else Some (mkView (option_map nickName (user s)) (option_map email (user s))
                    (option_map alarm (user s)) (isTogglingAlarm s)
                    (String.eqb (theme s) "dark")).

(** The states of a page first rendered with props [d], store user [u]
    and theme [th]. *)
Inductive reachable (d : userInfo) (u : option userInfo) (th : string) : Mypage -> Prop :=
| reach_initial : reachable d u th (initial d u th)
| reach_step s e : reachable d u th s -> reachable d u th (step s e).

(** A sequence of events, in order. *)
Definition run (s : Mypage) (es : list UiEvent) : Mypage := fold_left step es s.

Definition is_mount (e : UiEvent) : bool :=
  match e with Mount => true | _ => false end.

(** The events on which [setUser(initialData)] runs on a mounted page. *)
Definition syncs (e : UiEvent) : bool :=
  match e with Mount | NewProps _ => true | _ => false end.

(** The events on which code outside the component writes the store. *)
Definition writes_store (e : UiEvent) : bool :=
  match e with AlarmSettled _ | LogoutSettled _ => true | _ => false end.

Definition settles_alarm (e : UiEvent) : bool :=
  match e with AlarmSettled _ => true | _ => false end.

(** The effects a handler of the page can produce. *)
Definition page_effect (ef : Effect) : Prop :=
  match ef with
  | LogoutMutate | ToggleAlarmMutate | Toast _ | NavigateMypageEdit => True
  | _ => False
  end.

(** Number of [toggleAlarm()] calls. *)
Fixpoint toggles (es : list Effect) : nat :=
  match es with
  | [] => O
  | ToggleAlarmMutate :: es' => S (toggles es')
  | _ :: es' => toggles es'
  end.

(** ** Concrete page for the witnesses *)

Definition demo_user : userInfo := mkUserInfo "jandi" "jandi@example.com" true.
Definition demo_mounted : Mypage := step (initial demo_user None "light") Mount.

(** ** Lemmas *)

Ltac mypage_cases s :=
  unfold handleLogout, set_effects, set_store, onAlarmChange, onThemeChange in *;
  let Hh := fresh "Hh" in let Hp := fresh "Hp" in
  destruct (hydrated s) eqn:Hh, (isTogglingAlarm s) eqn:Hp; rewrite ?Hh, ?Hp in *; simpl in *.

Lemma step_hydrated s e : hydrated (step s e) = hydrated s || is_mount e.
Proof. destruct e; simpl; mypage_cases s; congruence. Qed.

Lemma run_app s l1 l2 : run s (l1 ++ l2) = run (run s l1) l2.
Proof. apply fold_left_app. Qed.

(** [setUser(initialData)] has run on a mounted page after a mount or
    new props. *)
Lemma step_syncs s e :
  syncs e = true -> hydrated (step s e) = true -> user (step s e) = Some (initialData (step s e)).
Proof. destruct e; try discriminate; intros _; simpl; mypage_cases s; congruence. Qed.

(** No handler of the page writes the store. *)
Lemma step_keeps_sync s e :
  hydrated s = true -> user s = Some (initialData s) -> writes_store e = false ->
  user (step s e) = Some (initialData (step s e)).
Proof. intros Hh Hu; destruct e; try discriminate; intros _; simpl; mypage_cases s; congruence. Qed.

Lemma run_keeps_sync s es :
  hydrated s = true -> user s = Some (initialData s) -> Forall (fun e => writes_store e = false) es ->
  user (run s es) = Some (initialData (run s es)).
Proof.
  intros Hh Hu Hes. revert s Hh Hu. induction Hes as [|e es He _ IH]; intros s Hh Hu; [exact Hu|].
  apply IH; [rewrite step_hydrated, Hh; reflexivity | now apply step_keeps_sync].
Qed.

Lemma hydrated_run s es : hydrated (run s es) = hydrated s || existsb is_mount es.
Proof.
  unfold run. revert s. induction es as [|e es IH]; intros s; simpl; [now rewrite orb_false_r|].
  rewrite IH, step_hydrated. symmetry. apply orb_assoc.
Qed.

Lemma existsb_is_mount es : existsb is_mount es = true <-> In Mount es.
Proof.
  rewrite existsb_exists. split.
  - intros [e [Hin He]]. destruct e; try discriminate. exact Hin.
  - intros H. now exists Mount.
Qed.

Lemma step_effects s e :
  exists new, effects (step s e) = effects s ++ new /\ Forall page_effect new.
Proof.
  destruct e; simpl; mypage_cases s;
    first [ exists []; rewrite app_nil_r; split; [reflexivity | constructor]
          | eexists; split; [reflexivity | repeat constructor] ].
Qed.

Lemma toggles_app a b : toggles (a ++ b) = (toggles a + toggles b)%nat.
Proof. induction a as [|[] a IH]; simpl; auto. Qed.

(** ** Properties of the page *)

(** C21 (invariant).  Once the page has mounted, the auth store holds
    the page's current [initialData] after each mount or new props,
    whatever it held before, and keeps it through every later event but
    the settlement of a mutation, whose callbacks (outside [src/]) may
    write the store: the page's own handlers never do. *)
Theorem mypage_store_synced d u th pre e post :
  In Mount (pre ++ [e]) -> syncs e = true -> Forall (fun e' => writes_store e' = false) post ->
  user (run (initial d u th) (pre ++ e :: post)) =
  Some (initialData (run (initial d u th) (pre ++ e :: post))).
Proof.
  intros Hm He Hpost.
  replace (pre ++ e :: post) with ((pre ++ [e]) ++ post) by (rewrite <- app_assoc; reflexivity).
  assert (Hh : hydrated (run (initial d u th) (pre ++ [e])) = true)
    by (rewrite hydrated_run; apply existsb_is_mount in Hm; now rewrite Hm).
  rewrite run_app. apply run_keeps_sync; [exact Hh | | exact Hpost].
  rewrite run_app in Hh |- *. now apply step_syncs.
Qed.

(** C22 (safety).  The page's effects are the logout mutation, the
    [toggleAlarm()] call, the toasts and the settings link's navigation
    to [PATH.mypageEdit]: the component's own [logout()] and
    [router.push] are never reached.  [afterDelete], the only code that
    calls them, is called by nothing, and the withdrawal dialog's [탈퇴]
    button has no handler, so confirming a withdrawal neither logs the
    user out nor leaves the page. *)
Theorem mypage_withdraw_dead d u th s :
  reachable d u th s ->
  Forall page_effect (effects s) /\ ~ In StoreLogout (effects s) /\
  (forall p, ~ In (RouterPush p) (effects s)).
Proof.
  intros Hr. assert (Hf : Forall page_effect (effects s)).
  { induction Hr as [|s e Hr IH]; [constructor|].
    destruct (step_effects s e) as (new & -> & Hn). apply Forall_app. auto. }
  rewrite Forall_forall in Hf. split; [now apply Forall_forall|].
  split; [|intros p]; intros Hin; exact (Hf _ Hin).
Qed.

(** C23 (invariant).  After any sequence of events from the first
    render, the page renders nothing exactly when no mount has happened
    yet; once mounted it always renders. *)
Theorem render_null_until_mount d u th es :
  render (run (initial d u th) es) = None <-> ~ In Mount es.
Proof.
  unfold render. rewrite hydrated_run. simpl. rewrite <- existsb_is_mount.
  destruct (existsb is_mount es); simpl; split; congruence.
Qed.

(** C24 (functional).  On a rendered page the dark-mode switch sets the
    theme so that the switch shows the value it was moved to, and
    announces it with the matching toast. *)
Theorem theme_switch_view s c :
  hydrated s = true ->
  exists v, render (step s (ThemeSwitch c)) = Some v /\ v_darkChecked v = c /\
    effects (step s (ThemeSwitch c)) = effects s ++ [Toast (if c then dark_toast else light_toast)].
Proof.
  intros Hh. simpl. rewrite Hh. unfold render. simpl. rewrite Hh.
  eexists; split; [reflexivity|]. now destruct c.
Qed.

(** C25 (safety).  While the alarm mutation is pending, no sequence of
    events without its settlement calls [toggleAlarm()] again; from a
    settled state such a sequence calls it at most once. *)
Theorem alarm_toggle_once s es :
  Forall (fun e => settles_alarm e = false) es ->
  (toggles (effects (run s es)) <= toggles (effects s) + (if isTogglingAlarm s then 0 else 1))%nat.
Proof.
  unfold run. intros Hes. revert s. induction Hes as [|e es He _ IH]; intros s; simpl; [lia|].
  specialize (IH (step s e)).
  destruct e; try discriminate; simpl in *; mypage_cases s;
    rewrite ?toggles_app in IH; simpl in IH; lia.
Qed.

(** ** Witnesses *)

(** The store held nobody; a theme change before the mount, the alarm
    switch and the settings link after it. *)
Lemma mypage_store_synced_witness :
  user (run (initial demo_user None "light") ([ThemeSwitch true] ++ Mount :: [AlarmSwitch; SettingsLink])) =
  Some (initialData (run (initial demo_user None "light") ([ThemeSwitch true] ++ Mount :: [AlarmSwitch; SettingsLink]))).
Proof.
  apply (mypage_store_synced demo_user None "light" [ThemeSwitch true] Mount [AlarmSwitch; SettingsLink]);
    [simpl; auto | reflexivity | repeat constructor].
Defined.

Lemma mypage_withdraw_dead_witness :
  Forall page_effect (effects (step (step demo_mounted SettingsLink) WithdrawConfirm)) /\
  ~ In StoreLogout (effects (step (step demo_mounted SettingsLink) WithdrawConfirm)) /\
  (forall p, ~ In (RouterPush p) (effects (step (step demo_mounted SettingsLink) WithdrawConfirm))).
Proof.
  apply (mypage_withdraw_dead demo_user None "light").
  apply reach_step, reach_step, reach_step, reach_initial.
Defined.

Lemma theme_switch_view_witness :
  exists v, render (step demo_mounted (ThemeSwitch true)) = Some v /\ v_darkChecked v = true /\
    effects (step demo_mounted (ThemeSwitch true)) = effects demo_mounted ++ [Toast dark_toast].
Proof. apply (theme_switch_view demo_mounted true). reflexivity. Defined.

Lemma alarm_toggle_once_witness :
  (toggles (effects (run demo_mounted [AlarmSwitch; AlarmSwitch; ThemeSwitch false; AlarmSwitch]))
   <= toggles (effects demo_mounted) + (if isTogglingAlarm demo_mounted then 0 else 1))%nat.
Proof.
  apply (alarm_toggle_once demo_mounted [AlarmSwitch; AlarmSwitch; ThemeSwitch false; AlarmSwitch]).
  repeat constructor.
Defined.

Lemma render_null_until_mount_witness :
  render (run (initial demo_user None "dark") [ThemeSwitch true; AlarmSwitch]) = None.
Proof.
  apply (render_null_until_mount demo_user None "dark" [ThemeSwitch true; AlarmSwitch]).
  simpl. intuition discriminate.
Defined.

End Mypage.
