(* ===== verification/Register.v ===== *)
(** * The register page, [src/src/app/register/page.tsx]

    [Register] keeps the state of [useActionState(registerAction, null)]
    and renders either the success screen or the form, refilled from the
    submitted [FormData] and annotated with the action's field errors.
    [registerAction] and the state type are outside [src/]; the state is
    modelled by the fields the page reads.  [Module Register] holds the
    state, the render function, and the submit cycle of the action as a
    small state machine. *)

From Stdlib Require Import String List Bool.
From S2P Require Import Prelude.
From S2P Require Import Async.
Import ListNotations.
Open Scope string_scope.

Module Register.

(** The fields of the action's state that the page reads. *)
Record RegisterData := mkRegisterData { nickname : string }.

Record FieldErrors := mkFieldErrors {
  err_nickname : option (list string);
  err_email : option (list string);
  err_password : option (list string);
  err_passwordConfirm : option (list string) }.

Record ActionState := mkActionState {
  data : option RegisterData;
  formData : option (list (string * string));
  errors : option FieldErrors }.

(** One input of the form: its [name], [type], [defaultValue] ([None]
    for [null] or [undefined]) and the errors shown under it. *)
Record FieldView := mkFieldView {
  fv_name : string;
  fv_type : option string;
  fv_default : option string;
  fv_errors : option (list string) }.

Inductive Screen :=
| SuccessScreen (nickname : string)
| FormScreen (fields : list FieldView) (submitDisabled : bool).

(** [formData?.get(name) as string]: the first entry, or [null]. *)
Definition form_default (fd : option (list (string * string))) (name : string) : option string :=
  match fd with
  | Some entries => obj_get entries name
  | None => None
  end.

Definition field_errors (es : option FieldErrors) (f : FieldErrors -> option (list string))
  : option (list string) :=
  match es with
  | Some e => f e
  | None => None
  end.

(** The form of lines 38-125. *)
Definition form_fields (fd : option (list (string * string))) (es : option FieldErrors)
  : list FieldView :=
  [mkFieldView "nickname" None (form_default fd "nickname") (field_errors es err_nickname);
   mkFieldView "email" (Some "email") (form_default fd "email") (field_errors es err_email);
   mkFieldView "password" (Some "password") (form_default fd "password")
               (field_errors es err_password);
   mkFieldView "password-confirm" (Some "password") (form_default fd "password-confirm")
               (field_errors es err_passwordConfirm)].

(** [Register()], lines 13-129: the success screen when [state?.data],
    else the form; the submit button is [disabled={isPending}]. *)
Definition render (state : option ActionState) (isPending : bool) : Screen :=
  match state with
  | Some st =>
      match data st with
      | Some d => SuccessScreen (nickname d)
      | None => FormScreen (form_fields (formData st) (errors st)) isPending
      end
  | None => FormScreen (form_fields None None) isPending
  end.

(** The page's state: [useActionState]'s state and pending flag. *)
Record Page := mkPage { state : option ActionState; isPending : bool }.

Definition initial : Page := mkPage None false.

Inductive PageEvent :=
| Submit                         (** the submit button, when enabled *)
| ActionReturned (st : ActionState)  (** [registerAction] settles *)
| DuplicateCheck.                (** the [중복확인] button *)

(** The submit cycle: a submit from an enabled button starts the
    action, its result becomes the state; the duplicate-check button is
    [type="button"] with no handler. *)
Definition step (p : Page) (e : PageEvent) : Page :=
  match e with
  | Submit =>
      match render (state p) (isPending p) with
      | FormScreen _ false => mkPage (state p) true
      | _ => p
      end
  | ActionReturned st => if isPending p then mkPage (Some st) false else p
  | DuplicateCheck => p
  end.

Inductive reachable : Page -> Prop :=
| reach_initial : reachable initial
| reach_step p e : reachable p -> reachable (step p e).

(** ** Concrete states for the witnesses *)

Definition demo_errors : FieldErrors :=
  mkFieldErrors None None (Some ["8자 이상"]) None.
Definition demo_failed : ActionState :=
  mkActionState None (Some [("nickname", "jandi"); ("email", "j@x.io"); ("password", "pw1");
                            ("password-confirm", "pw2")]) (Some demo_errors).
Definition demo_ok : ActionState := mkActionState (Some (mkRegisterData "jandi")) None None.

(** ** Lemmas *)

(** The form does not depend on the pending flag, which only disables
    its button. *)
Lemma render_form_flag st b b' fs :
  render st b = FormScreen fs b' -> b' = b /\ forall b2, render st b2 = FormScreen fs b2.
Proof.
  destruct st as [st|]; simpl; [destruct (data st)|]; intros H; inversion H; subst; auto.
Qed.

(** ** Properties of the page *)

(** C26 (functional).  The page shows the success screen, with the
    returned nickname, exactly when the action state carries [data]. *)
Theorem render_success_iff_data state pend n :
  render state pend = SuccessScreen n <->
  exists st, state = Some st /\ data st = Some (mkRegisterData n).
Proof.
  split.
  - destruct state as [st|]; simpl; [|discriminate].
    destruct (data st) as [[n']|] eqn:E; intros H; [|discriminate].
    injection H as <-. eauto.
  - intros (st & -> & Hd). simpl. now rewrite Hd.
Qed.

(** C27 (functional).  After an action that returned no [data], the form
    is refilled from the submitted [FormData]: each input shows the
    first value submitted under its name (the way [FormData.get]
    reads it), both passwords included, and each field shows its
    errors (the confirmation field those of [passwordConfirm]); its
    submit button is disabled exactly while the action is pending. *)
Theorem form_refilled st pend :
  data st = None ->
  exists fs, render (Some st) pend = FormScreen fs pend /\
    map fv_name fs = ["nickname"; "email"; "password"; "password-confirm"] /\
    (forall f pre v post, In f fs -> formData st = Some ((pre ++ (fv_name f, v) :: post)%list) ->
       ~ In (fv_name f) (map fst pre) -> fv_default f = Some v) /\
    map fv_errors fs = [field_errors (errors st) err_nickname; field_errors (errors st) err_email;
                        field_errors (errors st) err_password; field_errors (errors st) err_passwordConfirm].
Proof.
  intros Hd. simpl. rewrite Hd. eexists. split; [reflexivity|]. split; [reflexivity|].
  split; [|reflexivity]. intros f pre v post Hin Hfd Hpre.
  simpl in Hin. destruct Hin as [<-|[<-|[<-|[<-|[]]]]]; simpl in *;
    unfold form_default; rewrite Hfd; now apply obj_get_first.
Qed.

(** C28 (invariant).  On every reachable page, while the action is
    pending the page shows the form with its submit button disabled:
    a submit is only taken from an enabled form, and the state it leaves
    pending has no [data]. *)
Theorem pending_shows_disabled_form p :
  reachable p -> isPending p = true -> exists fs, render (state p) (isPending p) = FormScreen fs true.
Proof.
  induction 1 as [|p e Hr IH]; [discriminate|]. destruct e as [| st |]; simpl.
  - destruct (render (state p) (isPending p)) as [n|fs [|]] eqn:E; cbn.
    + intros Hp. destruct (IH Hp) as [fs Hfs]. discriminate Hfs.
    + intros _. exists fs. exact E.
    + intros _. apply render_form_flag in E as [_ Hf]. exists fs. apply Hf.
  - destruct (isPending p) eqn:Ep; simpl; intros H; congruence.
  - exact IH.
Qed.

(** C29 (functional).  When the pending action settles, the page shows
    its result: the success screen with the returned nickname, which
    has no form to submit again, or the refilled form with its submit
    button enabled, from which the next submit starts a new action. *)
Theorem action_result_rendered p st :
  isPending p = true ->
  render (state (step p (ActionReturned st))) (isPending (step p (ActionReturned st))) =
    match data st with
    | Some d => SuccessScreen (nickname d)
    | None => FormScreen (form_fields (formData st) (errors st)) false
    end /\
  isPending (step (step p (ActionReturned st)) Submit) =
    match data st with Some _ => false | None => true end.
Proof. intros H. simpl. rewrite H. simpl. destruct (data st); split; reflexivity. Qed.

(** ** Witnesses *)

Lemma render_success_iff_data_witness :
  render (Some demo_ok) false = SuccessScreen "jandi" <->
  exists st, Some demo_ok = Some st /\ data st = Some (mkRegisterData "jandi").
Proof. exact (render_success_iff_data (Some demo_ok) false "jandi"). Defined.

(** A form submitted with two nicknames: the first one is shown. *)
Definition demo_twice : ActionState :=
  mkActionState None (Some [("email", "j@x.io"); ("nickname", "jandi"); ("nickname", "other")])
                (Some demo_errors).

Lemma form_refilled_witness :
  exists fs, render (Some demo_twice) false = FormScreen fs false /\
    map fv_name fs = ["nickname"; "email"; "password"; "password-confirm"] /\
    (forall f pre v post, In f fs -> formData demo_twice = Some ((pre ++ (fv_name f, v) :: post)%list) ->
       ~ In (fv_name f) (map fst pre) -> fv_default f = Some v) /\
    map fv_errors fs = [field_errors (errors demo_twice) err_nickname; field_errors (errors demo_twice) err_email;
                        field_errors (errors demo_twice) err_password;
                        field_errors (errors demo_twice) err_passwordConfirm].
Proof. apply (form_refilled demo_twice false). reflexivity. Defined.

Lemma pending_shows_disabled_form_witness :
  exists fs, render (state (step initial Submit)) (isPending (step initial Submit)) = FormScreen fs true.
Proof. apply (pending_shows_disabled_form (step initial Submit)); [apply reach_step, reach_initial | reflexivity]. Defined.

Lemma action_result_rendered_witness :
  render (state (step (step initial Submit) (ActionReturned demo_failed)))
         (isPending (step (step initial Submit) (ActionReturned demo_failed))) =
    match data demo_failed with
    | Some d => SuccessScreen (nickname d)
    | None => FormScreen (form_fields (formData demo_failed) (errors demo_failed)) false
    end /\
  isPending (step (step (step initial Submit) (ActionReturned demo_failed)) Submit) =
    match data demo_failed with Some _ => false | None => true end.
Proof. apply (action_result_rendered (step initial Submit) demo_failed). reflexivity. Defined.

End Register.
